(** * An audio-reactive scene: the frame tick, the spectrum reduction and the
      preset generator, embedded from the TypeScript sources.

    Numbers.  A JavaScript number is modelled as an exact real extended with
    the three special values of IEEE 754 arithmetic: [NaN] and the two
    infinities.  Division by zero, the propagation of [NaN], the comparisons
    that [NaN] fails and the clamps of [Math.min] / [Math.max] behave as
    ECMAScript prescribes; what is not modelled is the rounding of binary64
    (nor that of the 32-bit typed arrays) and the sign of zero (so [x / 0]
    is [+Infinity] for positive [x]).

    Randomness.  [Math.random()] reads the next draw of an explicit source
    that is threaded through the code as state.

    three.js.  Colours are an abstract interface ([ThreeColor]); vectors and
    the instance transform are records of numbers.

    React.  The refs of the component are the fields of a state record
    that the frame tick takes and returns; the tick is modelled for a
    scene that is set up, where every ref it tests is assigned. *)

From Stdlib Require Import Reals Lra Lia ZArith List Ascii String Bool Psatz.
From Stdlib Require Import ROrderedType.
Import ListNotations.

Open Scope R_scope.

(* ================================================================== *)
(** ** JavaScript numbers *)
(* ================================================================== *)

Module JS.

Inductive num : Type :=
| Fin (r : R)
| PInf
| NInf
| NaN.

Definition ofZ (z : Z) : num := Fin (IZR z).
Definition ofNat (n : nat) : num := Fin (IZR (Z.of_nat n)).

(** The sign of a real, by comparison with 0. *)
Definition Rsgn (r : R) : comparison := Rcompare r 0.

Definition Rltb (a b : R) : bool := if Rlt_dec a b then true else false.

Definition isFinite (a : num) : bool :=
  match a with Fin _ => true | _ => false end.

Definition neg (a : num) : num :=
  match a with
  | Fin r => Fin (- r)
  | PInf => NInf
  | NInf => PInf
  | NaN => NaN
  end.

(** [a + b] *)
Definition add (a b : num) : num :=
  match a, b with
  | NaN, _ | _, NaN => NaN
  | Fin x, Fin y => Fin (x + y)
  | PInf, NInf | NInf, PInf => NaN
  | PInf, _ | _, PInf => PInf
  | NInf, _ | _, NInf => NInf
  end.

(** [a - b] *)
Definition sub (a b : num) : num := add a (neg b).

(** An infinity of the given sign times a value of sign [c]. *)
Definition infTimes (positive : bool) (c : comparison) : num :=
  match c with
  | Eq => NaN
  | Gt => if positive then PInf else NInf
  | Lt => if positive then NInf else PInf
  end.

(** [a * b] *)
Definition mul (a b : num) : num :=
  match a, b with
  | NaN, _ | _, NaN => NaN
  | Fin x, Fin y => Fin (x * y)
  | PInf, Fin y | Fin y, PInf => infTimes true (Rsgn y)
  | NInf, Fin y | Fin y, NInf => infTimes false (Rsgn y)
  | PInf, PInf | NInf, NInf => PInf
  | PInf, NInf | NInf, PInf => NInf
  end.

(** [a / b]; a finite value over zero is an infinity, zero over zero is
    [NaN]. *)
Definition div (a b : num) : num :=
  match a, b with
  | NaN, _ | _, NaN => NaN
  | Fin x, Fin y =>
      match Rsgn y with
      | Eq => match Rsgn x with
              | Eq => NaN
              | Gt => PInf
              | Lt => NInf
              end
      | _ => Fin (x / y)
      end
  | Fin _, PInf | Fin _, NInf => Fin 0
  | PInf, Fin y => match Rsgn y with Lt => NInf | _ => PInf end
  | NInf, Fin y => match Rsgn y with Lt => PInf | _ => NInf end
  | _, _ => NaN
  end.

(** [a < b]; false as soon as one side is [NaN]. *)
Definition lt (a b : num) : bool :=
  match a, b with
  | NaN, _ | _, NaN => false
  | Fin x, Fin y => Rltb x y
  | NInf, NInf | PInf, _ | _, NInf => false
  | NInf, _ | _, PInf => true
  end.

(** [a > b] *)
Definition gt (a b : num) : bool := lt b a.

(** [Math.min(a, b)] *)
Definition min (a b : num) : num :=
  match a, b with
  | NaN, _ | _, NaN => NaN
  | _, _ => if lt b a then b else a
  end.

(** [Math.max(a, b)] *)
Definition max (a b : num) : num :=
  match a, b with
  | NaN, _ | _, NaN => NaN
  | _, _ => if lt a b then b else a
  end.

(** [Math.floor(a)] *)
Definition floor (a : num) : num :=
  match a with
  | Fin r => Fin (IZR (Zfloor r))
  | _ => a
  end.

(** [Math.ceil(a)] *)
Definition ceil (a : num) : num :=
  match a with
  | Fin r => Fin (IZR (Zceil r))
  | _ => a
  end.

(** Rounding toward zero, as the remainder operator uses it. *)
Definition Ztrunc (r : R) : Z := if Rlt_dec r 0 then Zceil r else Zfloor r.

(** [a % b]: the remainder has the sign of the dividend. *)
Definition rem (a b : num) : num :=
  match a, b with
  | NaN, _ | _, NaN => NaN
  | PInf, _ | NInf, _ => NaN
  | Fin x, PInf | Fin x, NInf => Fin x
  | Fin x, Fin y =>
      match Rsgn y with
      | Eq => NaN
      | _ => Fin (x - y * IZR (Ztrunc (x / y)))
      end
  end.

(** [Math.sqrt(a)] *)
Definition sqrt (a : num) : num :=
  match a with
  | Fin r => if Rlt_dec r 0 then NaN else Fin (R_sqrt.sqrt r)
  | PInf => PInf
  | _ => NaN
  end.

(** [Math.sin(a)] and [Math.cos(a)] *)
Definition sin (a : num) : num :=
  match a with Fin r => Fin (Rtrigo_def.sin r) | _ => NaN end.

Definition cos (a : num) : num :=
  match a with Fin r => Fin (Rtrigo_def.cos r) | _ => NaN end.

(** [Math.acos(a)]: [NaN] outside [-1, 1]. *)
Definition acos (a : num) : num :=
  match a with
  | Fin r => if Rlt_dec r (-1) then NaN
             else if Rlt_dec 1 r then NaN
             else Fin (Ratan.acos r)
  | _ => NaN
  end.

(** Whether a real is an integer, and which. *)
Definition isInteger (r : R) : bool :=
  if Req_dec_T (IZR (Zfloor r)) r then true else false.

(** [Math.pow(a, b)] *)
Definition pow (a b : num) : num :=
  match b with
  | NaN => NaN
  | Fin e =>
      match Rsgn e with
      | Eq => Fin 1
      | se =>
          match a with
          | NaN => NaN
          | Fin x =>
              match Rsgn x with
              | Eq => match se with Gt => Fin 0 | _ => PInf end
              | Gt => if isInteger e then Fin (powerRZ x (Zfloor e))
                      else Fin (Rpower x e)
              | Lt => if isInteger e then Fin (powerRZ x (Zfloor e)) else NaN
              end
          | PInf => match se with Gt => PInf | _ => Fin 0 end
          | NInf =>
              match se with
              | Gt => if isInteger e && Z.odd (Zfloor e) then NInf else PInf
              | _ => Fin 0
              end
          end
      end
  | PInf =>
      match a with
      | NaN => NaN
      | Fin x => match Rcompare (Rabs x) 1 with
                 | Gt => PInf | Eq => NaN | Lt => Fin 0
                 end
      | _ => PInf
      end
  | NInf =>
      match a with
      | NaN => NaN
      | Fin x => match Rcompare (Rabs x) 1 with
                 | Gt => Fin 0 | Eq => NaN | Lt => PInf
                 end
      | _ => Fin 0
      end
  end.

(** [Math.PI] *)
Definition PI : num := Fin Rtrigo1.PI.

End JS.

Import JS.

Declare Scope js_scope.
Delimit Scope js_scope with js.
Bind Scope js_scope with num.
Infix "+" := add : js_scope.
Infix "-" := sub : js_scope.
Infix "*" := mul : js_scope.
Infix "/" := div : js_scope.
Infix "<?" := lt : js_scope.
Infix ">?" := gt : js_scope.
Infix "%%" := rem (at level 40, left associativity) : js_scope.

(** A value that may be [undefined]; in arithmetic [undefined] is [NaN]. *)
Definition toNumber (v : option num) : num :=
  match v with Some a => a | None => NaN end.

(** [v || 0] for a byte or [undefined]: both falsy values give 0. *)
Definition orZero (v : option num) : num :=
  match v with Some a => a | None => Fin 0 end.

(** [data[k]] on a [Uint8Array]: [undefined] unless [k] is an index. *)
Definition Uint8_get (data : list Z) (k : num) : option num :=
  match k with
  | Fin r =>
      if isInteger r && (0 <=? Zfloor r)%Z
      then option_map ofZ (nth_error data (Z.to_nat (Zfloor r)))
      else None
  | _ => None
  end.

(** [a[k]] on a [Float32Array] read in arithmetic. *)
Definition Float32_get (a : list num) (k : nat) : num := nth k a NaN.

(** [a[k] = v] on a typed array: a write outside the array is dropped. *)
Fixpoint Float32_set (a : list num) (k : nat) (v : num) : list num :=
  match a, k with
  | [], _ => []
  | _ :: rest, O => v :: rest
  | w :: rest, S k' => w :: Float32_set rest k' v
  end.

(* ================================================================== *)
(** ** Types of the application ([types.ts]) *)
(* ================================================================== *)

Inductive VisualizerMode : Type :=
| Orbit | Wave | Grid | Chaos | Ferrofluid | Surface.

Inductive GeometryType : Type :=
| Box | Sphere | Tetrahedron | Octahedron | Torus | Cone.

Record VisualConfig : Type := mkVisualConfig {
  mode : VisualizerMode;
  geometryType : GeometryType;
  primaryColor : string;
  secondaryColor : string;
  backgroundColor : string;
  particleSize : num;
  rotationSpeed : num;
  sensitivity : num;
  bloomIntensity : num;
  description : string
}.

Record AudioData : Type := mkAudioData {
  frequencyData : list Z;
  overallAmplitude : num;
  bass : num;
  mid : num;
  treble : num
}.

(* ================================================================== *)
(** ** The spectrum reduction ([startAnalysisLoop], function [analyse]) *)
(* ================================================================== *)

Record BandSums : Type := mkBandSums {
  sum : num;
  bassSum : num;
  midSum : num;
  trebleSum : num
}.

(** The body of the [for] loop, at index [i] on the byte [v]. *)
Definition analyseStep (bassLimit midLimit : num) (i : nat) (v : Z)
    (acc : BandSums) : BandSums :=
  let d := ofZ v in
  if (ofNat i <? bassLimit)%js then
    mkBandSums (sum acc + d)%js (bassSum acc + d)%js (midSum acc) (trebleSum acc)
  else if (ofNat i <? midLimit)%js then
    mkBandSums (sum acc + d)%js (bassSum acc) (midSum acc + d)%js (trebleSum acc)
  else
    mkBandSums (sum acc + d)%js (bassSum acc) (midSum acc) (trebleSum acc + d)%js.

(** The loop from index [i] over what is left of the array. *)
Fixpoint analyseLoop (bassLimit midLimit : num) (i : nat) (rest : list Z)
    (acc : BandSums) : BandSums :=
  match rest with
  | [] => acc
  | v :: rest' =>
      analyseLoop bassLimit midLimit (S i) rest'
        (analyseStep bassLimit midLimit i v acc)
  end.

(** One run of [analyse] on the bytes the analyser delivered: the value
    stored in [audioDataRef.current]. *)
Definition analyse (dataArray : list Z) : AudioData :=
  let bufferLength := ofNat (List.length dataArray) in
  let bassLimit := floor (bufferLength * Fin 0.1)%js in
  let midLimit := floor (bufferLength * Fin 0.5)%js in
  let s := analyseLoop bassLimit midLimit 0 dataArray
             (mkBandSums (Fin 0) (Fin 0) (Fin 0) (Fin 0)) in
  mkAudioData dataArray
    (sum s / bufferLength)%js
    (bassSum s / bassLimit)%js
    (midSum s / (midLimit - bassLimit))%js
    (trebleSum s / (bufferLength - midLimit))%js.

(* ================================================================== *)
(** ** three.js values *)
(* ================================================================== *)

Record Vector2 : Type := mkVector2 { v2x : num; v2y : num }.
Record Vector3 : Type := mkVector3 { v3x : num; v3y : num; v3z : num }.

(** [this.lerp(v, alpha)]: each component moves by [(v - this) * alpha]. *)
Definition Vector2_lerp (this v : Vector2) (alpha : num) : Vector2 :=
  mkVector2 (v2x this + (v2x v - v2x this) * alpha)%js
            (v2y this + (v2y v - v2y this) * alpha)%js.

Definition Vector3_lerp (this v : Vector3) (alpha : num) : Vector3 :=
  mkVector3 (v3x this + (v3x v - v3x this) * alpha)%js
            (v3y this + (v3y v - v3y this) * alpha)%js
            (v3z this + (v3z v - v3z this) * alpha)%js.

(** How the scratch object [dummy] is oriented before [updateMatrix]. *)
Inductive Rotation : Type :=
| Euler (rx ry rz : num)
| LookAtOrigin.

(** The matrix written by [setMatrixAt]: three.js composes it from the
    position, the orientation and the uniform scale of [dummy], which are
    all set afresh for every instance. *)
Record Transform : Type := mkTransform {
  position : Vector3;
  rotation : Rotation;
  scale : num
}.

(** The part of [THREE.Color] the scene uses. *)
Class ThreeColor : Type := {
  Color : Type;
  Color_ofString : string -> Color;
  Color_ofHex : Z -> Color;
  Color_offsetHSL : Color -> num -> num -> num -> Color;
  Color_lerp : Color -> Color -> num -> Color
}.

(** [new THREE.Color(0xffffff)] *)
Definition Color_white {TC : ThreeColor} : Color := Color_ofHex 0xffffff%Z.

(** The source of [Math.random()]: the draws and how many were taken. *)
Record Rng : Type := mkRng { draws : nat -> R; cursor : nat }.

Definition Math_random (g : Rng) : num * Rng :=
  (Fin (draws g (cursor g)), mkRng (draws g) (S (cursor g))).

(* ================================================================== *)
(** ** Helpers of [ThreeScene] *)
(* ================================================================== *)

Definition smoothstep (min max value : num) : num :=
  let x := JS.max (Fin 0) (JS.min (Fin 1) ((value - min) / (max - min)))%js in
  (x * x * (Fin 3 - Fin 2 * x))%js.

Definition simpleNoise (x y z : num) : num :=
  (sin x * cos y + sin y * cos z + sin z * cos x)%js.

Definition PARTICLE_COUNT : nat := 2500.

(* ================================================================== *)
(** ** [updateParticles]: one instance *)
(* ================================================================== *)

Record Particle : Type := mkParticle {
  px : num; py : num; pz : num; pscale : num
}.

(** [normalizedFreq] of instance [i]. *)
Definition normalizedFreqAt (data : list Z) (count i : nat) : num :=
  let freqIndex :=
    floor ((ofNat i / ofNat count) * ofNat (List.length data))%js in
  let freqValue := orZero (Uint8_get data freqIndex) in
  (freqValue / Fin 255)%js.

(** The position and scale the active mode gives instance [i], before the
    pointer acts on it (the chain of [if (cfg.mode === ...)]). *)
Definition modePosition (time : num) (cfg : VisualConfig) (audio : AudioData)
    (mood : num) (count i : nat) (g : Rng) : Particle * Rng :=
  let bass := bass audio in
  let mid := mid audio in
  let explosion := (Fin 1 + (bass / Fin 50) * (Fin 0.5 + mood))%js in
  let goldenRatio := ((Fin 1 + sqrt (Fin 5)) / Fin 2)%js in
  let angleIncrement := (PI * Fin 2 * goldenRatio)%js in
  let normalizedFreq := normalizedFreqAt (frequencyData audio) count i in
  let scale := (particleSize cfg * (Fin 0.5 + normalizedFreq))%js in
  let rand1 := sin (ofNat i * Fin 12.34)%js in
  let n := ofNat i in
  match mode cfg with
  | Ferrofluid =>
      let t := (n / ofNat count)%js in
      let inclination := acos (Fin 1 - Fin 2 * t)%js in
      let azimuth := (angleIncrement * n)%js in
      let radiusBase := Fin 12 in
      let sx := (sin inclination * cos azimuth)%js in
      let sy := (sin inclination * sin azimuth)%js in
      let sz := cos inclination in
      let noiseAmp := (Fin 4 + (bass / Fin 255) * Fin 8)%js in
      let n1 := simpleNoise (sx * Fin 3 + time) (sy * Fin 3 + time)
                            (sz * Fin 3)%js in
      let n2 := simpleNoise (sx * Fin 10) (sy * Fin 10 + time * Fin 2)
                            (sz * Fin 10)%js in
      let spike := JS.max (Fin 0) (n1 + n2 * Fin 0.5)%js in
      let displacement :=
        (radiusBase + (spike * noiseAmp * (Fin 0.5 + mood)))%js in
      (mkParticle (sx * displacement)%js (sy * displacement)%js
                  (sz * displacement)%js
                  (scale * (Fin 1.2 - (displacement - radiusBase) / Fin 10))%js,
       g)
  | Orbit =>
      let theta := (n * Fin 0.1 + time * (rotationSpeed cfg + mood))%js in
      let expansion := ((bass / Fin 255) * (Fin 5 + mood * Fin 10))%js in
      let radius := (Fin 10 + expansion + (rand1 * mood * Fin 5))%js in
      (mkParticle
         (sin theta * radius * cos (n * Fin 0.05 + time * Fin 0.1))%js
         (cos theta * radius * sin (n * Fin 0.05 + time * Fin 0.1))%js
         ((sin (n * Fin 0.1) * Fin 10) + (mid / Fin 255 * Fin 5))%js
         scale,
       g)
  | Wave =>
      let x := ((n %% Fin 50 - Fin 25) * Fin 1.5)%js in
      let z := ((floor (n / Fin 50) - Fin 20) * Fin 1.5)%js in
      let waveHeight := (Fin 5 + (bass / Fin 255 * Fin 10 * mood))%js in
      let waveFreq := (Fin 0.2 + (mood * Fin 0.5))%js in
      let y := (sin (x * waveFreq + time * (Fin 2 + mood * Fin 2)) * waveHeight
                + (normalizedFreq * Fin 10))%js in
      (mkParticle x y z scale, g)
  | Grid =>
      let gridSize := ceil (pow (ofNat count) (Fin 1 / Fin 3)%js) in
      let spacing := (Fin 3 + (bass / Fin 100 * mood))%js in
      let offset := ((gridSize * spacing) / Fin 2)%js in
      let x := ((n %% gridSize) * spacing - offset)%js in
      let y := ((floor ((n / gridSize) %% gridSize)) * spacing - offset)%js in
      let z := ((floor (n / (gridSize * gridSize))) * spacing - offset)%js in
      if (mood >? Fin 0.7)%js then
        let '(r1, g1) := Math_random g in
        let x := (x + (r1 - Fin 0.5) * Fin 0.5)%js in
        let '(r2, g2) := Math_random g1 in
        let y := (y + (r2 - Fin 0.5) * Fin 0.5)%js in
        let '(r3, g3) := Math_random g2 in
        let z := (z + (r3 - Fin 0.5) * Fin 0.5)%js in
        (mkParticle x y z scale, g3)
      else (mkParticle x y z scale, g)
  | Chaos =>
      (mkParticle ((sin n * Fin 20) * explosion)%js
                  ((cos n * Fin 20) * explosion)%js
                  ((sin (n * Fin 0.5) * Fin 20) * explosion)%js
                  scale,
       g)
  | Surface => (mkParticle (Fin 0) (Fin 0) (Fin 0) scale, g)
  end.

(** The pointer's position in the plane of the instances. *)
Definition mouseWorld (mouse : Vector2) : num * num :=
  ((v2x mouse * Fin 20)%js, (v2y mouse * Fin 20)%js).

(** Distance of the mode-computed position to the pointer ([dist]). *)
Definition mouseDist (mouse : Vector2) (p : Particle) : num :=
  let dx := (px p - fst (mouseWorld mouse))%js in
  let dy := (py p - snd (mouseWorld mouse))%js in
  sqrt (dx * dx + dy * dy)%js.

(** "Mouse Interaction for Particles": instances closer than
    [repulsionRadius] are pushed away from the pointer and enlarged. *)
Definition mouseRepulsion (mouse : Vector2) (p : Particle) : Particle :=
  let dx := (px p - fst (mouseWorld mouse))%js in
  let dy := (py p - snd (mouseWorld mouse))%js in
  let dist := sqrt (dx * dx + dy * dy)%js in
  let repulsionRadius := Fin 10 in
  if (dist <? repulsionRadius)%js then
    let force := ((Fin 1 - dist / repulsionRadius) * Fin 5)%js in
    mkParticle (px p + (dx / dist) * force)%js
               (py p + (dy / dist) * force)%js
               (pz p)
               (pscale p * Fin 1.5)%js
  else p.

(** The position and scale handed to [dummy]: the pointer's push, then
    the boost of the scale in intense passages. *)
Definition particlePlacement (mood : num) (mouse : Vector2)
    (normalizedFreq : num) (p : Particle) : Particle :=
  let q := mouseRepulsion mouse p in
  let scale :=
    if (mood >? Fin 0.6)%js && (normalizedFreq >? Fin 0.5)%js
    then (pscale q * Fin 1.5)%js else pscale q in
  mkParticle (px q) (py q) (pz q) scale.

(** The matrix of an instance placed at [q]. *)
Definition particleTransform (time : num) (cfg : VisualConfig) (q : Particle)
    : Transform :=
  let rot :=
    match mode cfg with
    | Ferrofluid => LookAtOrigin
    | _ => Euler (time + px q)%js (time + py q)%js (time + pz q)%js
    end in
  mkTransform (mkVector3 (px q) (py q) (pz q)) rot (pscale q).

(** The final position of instance [i], with the draws it consumed. *)
Definition particlePosition (time : num) (cfg : VisualConfig)
    (audio : AudioData) (mood : num) (mouse : Vector2) (count i : nat)
    (g : Rng) : Vector3 :=
  let p := fst (modePosition time cfg audio mood count i g) in
  let q := particlePlacement mood mouse
             (normalizedFreqAt (frequencyData audio) count i) p in
  position (particleTransform time cfg q).

(* ================================================================== *)
(** ** The Surface mode: vertex manipulation *)
(* ================================================================== *)

(** The radial factor [totalScale] of vertex [i]. *)
Definition totalScale (time : num) (cfg : VisualConfig) (audio : AudioData)
    (mood : num) (mouse : Vector2) (originalPos : list num) (i : nat) : num :=
  let ox := Float32_get originalPos (i * 3) in
  let oy := Float32_get originalPos (i * 3 + 1) in
  let oz := Float32_get originalPos (i * 3 + 2) in
  let data := frequencyData audio in
  let dataLen := ofNat (List.length data) in
  let freqIndex := (ofNat i %% dataLen)%js in
  let freqVal := (toNumber (Uint8_get data freqIndex) / Fin 255.0)%js in
  let n := simpleNoise (ox * Fin 0.2 + time) (oy * Fin 0.2 + time)
                       (oz * Fin 0.2)%js in
  let displacement :=
    (Fin 1.0 + (freqVal * Fin 0.5 * sensitivity cfg)
     + (n * Fin 0.2 * mood))%js in
  let mouseWorldX := (v2x mouse * Fin 15)%js in
  let mouseWorldY := (v2y mouse * Fin 15)%js in
  let distToMouse :=
    sqrt (pow (ox - mouseWorldX) (Fin 2) + pow (oy - mouseWorldY) (Fin 2))%js in
  let mouseFactor :=
    if (distToMouse <? Fin 8)%js
    then ((Fin 1 - distToMouse / Fin 8) * Fin 2.0)%js
    else Fin 0 in
  (displacement + mouseFactor)%js.

(** [positionAttribute.setXYZ(i, x, y, z)] *)
Definition setXYZ (a : list num) (i : nat) (x y z : num) : list num :=
  Float32_set (Float32_set (Float32_set a (i * 3) x) (i * 3 + 1) y)
              (i * 3 + 2) z.

(** The body of the vertex loop: the two arrays before and after. *)
Definition deformVertex (time : num) (cfg : VisualConfig) (audio : AudioData)
    (mood : num) (mouse : Vector2) (arrays : list num * list num) (i : nat)
    : list num * list num :=
  let '(positions, originalPos) := arrays in
  let ox := Float32_get originalPos (i * 3) in
  let oy := Float32_get originalPos (i * 3 + 1) in
  let oz := Float32_get originalPos (i * 3 + 2) in
  let s := totalScale time cfg audio mood mouse originalPos i in
  (setXYZ positions i (ox * s)%js (oy * s)%js (oz * s)%js, originalPos).

(** The vertex loop over [positionAttribute.count] vertices. *)
Definition deformSurface (time : num) (cfg : VisualConfig) (audio : AudioData)
    (mood : num) (mouse : Vector2) (positions originalPos : list num)
    : list num * list num :=
  let vertexCount := (List.length positions / 3)%nat in
  fold_left (deformVertex time cfg audio mood mouse) (seq 0 vertexCount)
            (positions, originalPos).

(* ================================================================== *)
(** ** The frame tick ([animate]) *)
(* ================================================================== *)

(** The smoothed signals of one frame: the four refs after their update,
    with the two values derived for the generators. *)
Record Signals : Type := mkSignals {
  smoothedBassRef : num;
  moodRef : num;
  hueShiftRef : num;
  normalizedBass : num;
  mood : num
}.

(** The "Analysis" block of [animate]. *)
Definition analysis (audio : AudioData) (smoothedBass0 mood0 hueShift0 : num)
    : Signals :=
  let smoothedBass :=
    (smoothedBass0 + (bass audio - smoothedBass0) * Fin 0.15)%js in
  let normalizedBass := JS.min (smoothedBass / Fin 255)%js (Fin 1.0) in
  let currentEnergy :=
    ((bass audio + mid audio + treble audio) / (Fin 255 * Fin 3))%js in
  let moodR := (mood0 + (currentEnergy - mood0) * Fin 0.02)%js in
  let mood := JS.max (Fin 0) (JS.min (Fin 1) (moodR * Fin 1.5)%js) in
  let hueShift := (hueShift0 + (Fin 0.0002 + (mood * Fin 0.001)))%js in
  let hueShift :=
    if (hueShift >? Fin 1)%js then (hueShift - Fin 1)%js else hueShift in
  mkSignals smoothedBass moodR hueShift normalizedBass mood.

(** The camera block: the angle after its step and the point the camera
    is eased toward. *)
Definition cameraTarget (time : num) (mouse : Vector2) (cameraAngle : num)
    (normalizedBass mood : num) (g : Rng) : num * Vector3 * Rng :=
  let camSpeed := (Fin 0.001 + (mood * Fin 0.005))%js in
  let cameraAngle := (cameraAngle + camSpeed)%js in
  let mouseCamX := (v2x mouse * Fin 2)%js in
  let mouseCamY := (v2y mouse * Fin 2)%js in
  let baseRadius := Fin 30 in
  let zoom := (normalizedBass * (Fin 5 + mood * Fin 5))%js in
  let radius := (baseRadius - zoom)%js in
  let camX := (sin cameraAngle * radius + mouseCamX)%js in
  let camZ := (cos cameraAngle * radius)%js in
  let '(r, g') := Math_random g in
  let camY :=
    (Fin 5 + sin (time * Fin 0.5) * Fin 2
     + ((r - Fin 0.5) * mood * normalizedBass * Fin 2) + mouseCamY)%js in
  (cameraAngle, mkVector3 camX camY camZ, g').

Section Scene.

Context {TC : ThreeColor}.

(** The colour of an instance whose mode-computed position is [p]. *)
Definition particleColor (audio : AudioData) (mood : num) (mouse : Vector2)
    (normalizedFreq : num) (p : Particle) (cPrimary cSecondary : Color)
    : Color :=
  let mixFactor :=
    if (mood >? Fin 0.6)%js
    then smoothstep (Fin 0.4) (Fin 0.6) normalizedFreq
    else normalizedFreq in
  let mixedColor := Color_lerp cPrimary cSecondary mixFactor in
  let mixedColor :=
    if (bass audio >? Fin 230)%js && (mood >? Fin 0.3)%js
    then Color_lerp mixedColor Color_white (Fin 0.5 * normalizedFreq)%js
    else mixedColor in
  if (mouseDist mouse p <? Fin 10)%js
  then Color_lerp mixedColor Color_white (Fin 0.3)
  else mixedColor.

(** The instanced mesh: what [updateParticles] reads and writes. *)
Record InstancedMesh : Type := mkInstancedMesh {
  count : nat;
  particlesVisible : bool;
  meshRotationY : num;
  meshRotationZ : num;
  instanceMatrix : list Transform;
  instanceColor : list Color
}.

(** One turn of the instance loop: the matrix and the colour of instance
    [i] are appended to the buffers being rebuilt. *)
Definition updateParticle (time : num) (cfg : VisualConfig)
    (audio : AudioData) (cPrimary cSecondary : Color) (mood : num)
    (mouse : Vector2) (count : nat)
    (acc : list Transform * list Color * Rng) (i : nat)
    : list Transform * list Color * Rng :=
  let '(matrices, colors, g) := acc in
  let normalizedFreq := normalizedFreqAt (frequencyData audio) count i in
  let '(p, g') := modePosition time cfg audio mood count i g in
  let q := particlePlacement mood mouse normalizedFreq p in
  (matrices ++ [particleTransform time cfg q],
   colors ++ [particleColor audio mood mouse normalizedFreq p
                            cPrimary cSecondary],
   g').

Definition updateParticles (mesh : InstancedMesh) (time : num)
    (cfg : VisualConfig) (audio : AudioData) (cPrimary cSecondary : Color)
    (mood : num) (mouse : Vector2) (g : Rng) : InstancedMesh * Rng :=
  let rotationFactor :=
    match mode cfg with Ferrofluid => Fin 0.2 | _ => Fin 1.0 end in
  let rotY :=
    (meshRotationY mesh
     + (Fin 0.001 + mood * Fin 0.005) * rotationSpeed cfg * rotationFactor)%js in
  let rotZ :=
    (meshRotationZ mesh + (Fin 0.0005 + mood * Fin 0.002) * rotationFactor)%js in
  let '(matrices, colors, g') :=
    fold_left
      (updateParticle time cfg audio cPrimary cSecondary mood mouse (count mesh))
      (seq 0 (count mesh)) ([], [], g) in
  (mkInstancedMesh (count mesh) (particlesVisible mesh) rotY rotZ
                   matrices colors, g').

(** The surface mesh with the saved copy of its rest positions. *)
Record SurfaceMesh : Type := mkSurfaceMesh {
  surfaceVisible : bool;
  materialColor : Color;
  materialEmissive : Color;
  emissiveIntensity : num;
  positionArray : list num;
  originalPositions : list num;
  surfaceRotationY : num
}.

(** Everything the frame tick reads and writes. *)
Record SceneState : Type := mkSceneState {
  timeRef : num;
  mouseRef : Vector2;
  targetMouseRef : Vector2;
  hueShift : num;
  cameraAngle : num;
  smoothedBass : num;
  moodValue : num;
  uTime : num;
  uEnergy : num;
  uMood : num;
  uColor1 : Color;
  uColor2 : Color;
  uColor3 : Color;
  cameraPosition : Vector3;
  bloomStrength : num;
  particles : InstancedMesh;
  surfaceMesh : SurfaceMesh;
  random : Rng
}.

(** One call of [animate], the scene being set up (all refs are assigned
    before the first call). *)
Definition animate (config : VisualConfig) (audio : AudioData)
    (st : SceneState) : SceneState :=
  let time := (timeRef st + Fin 0.005)%js in
  let mouse := Vector2_lerp (mouseRef st) (targetMouseRef st) (Fin 0.1) in
  let sg := analysis audio (smoothedBass st) (moodValue st) (hueShift st) in
  let mood := mood sg in
  let normalizedBass := normalizedBass sg in
  let basePrimary := Color_ofString (primaryColor config) in
  let baseSecondary := Color_ofString (secondaryColor config) in
  let baseBg := Color_ofString (backgroundColor config) in
  let dynamicPrimary :=
    Color_offsetHSL basePrimary (hueShiftRef sg) (mood * Fin 0.2)%js (Fin 0) in
  let dynamicSecondary :=
    Color_offsetHSL baseSecondary (hueShiftRef sg) (mood * Fin 0.2)%js (Fin 0) in
  let dynamicBg :=
    Color_offsetHSL baseBg (hueShiftRef sg * Fin 0.2)%js (Fin 0) (Fin 0) in
  let '(angle, target, g) :=
    cameraTarget time mouse (cameraAngle st) normalizedBass mood (random st) in
  let camera := Vector3_lerp (cameraPosition st) target (Fin 0.1) in
  let bloom :=
    (bloomIntensity config * Fin 0.5 + (normalizedBass * (Fin 1 + mood)))%js in
  let '(particles', surface', g') :=
    match mode config with
    | Surface =>
        let mesh := surfaceMesh st in
        let '(positions, original) :=
          deformSurface time config audio mood mouse
                        (positionArray mesh) (originalPositions mesh) in
        (mkInstancedMesh (count (particles st)) false
                         (meshRotationY (particles st))
                         (meshRotationZ (particles st))
                         (instanceMatrix (particles st))
                         (instanceColor (particles st)),
         mkSurfaceMesh true
                       (Color_lerp (materialColor mesh) dynamicPrimary (Fin 0.1))
                       (Color_lerp (materialEmissive mesh) dynamicSecondary
                                   (Fin 0.1))
                       (normalizedBass * Fin 0.5)%js
                       positions original
                       (surfaceRotationY mesh + Fin 0.002)%js,
         g)
    | _ =>
        let mesh := particles st in
        let '(mesh', g1) :=
          updateParticles
            (mkInstancedMesh (count mesh) true (meshRotationY mesh)
                             (meshRotationZ mesh) (instanceMatrix mesh)
                             (instanceColor mesh))
            time config audio dynamicPrimary dynamicSecondary mood mouse g in
        (mesh',
         mkSurfaceMesh false
                       (materialColor (surfaceMesh st))
                       (materialEmissive (surfaceMesh st))
                       (emissiveIntensity (surfaceMesh st))
                       (positionArray (surfaceMesh st))
                       (originalPositions (surfaceMesh st))
                       (surfaceRotationY (surfaceMesh st)),
         g1)
    end in
  mkSceneState time mouse (targetMouseRef st)
               (hueShiftRef sg) angle (smoothedBassRef sg) (moodRef sg)
               time normalizedBass mood
               (Color_lerp (uColor1 st) dynamicBg (Fin 0.1))
               (Color_lerp (uColor2 st) dynamicSecondary (Fin 0.1))
               (Color_lerp (uColor3 st) dynamicPrimary (Fin 0.1))
               camera bloom particles' surface' g'.

End Scene.

(* ================================================================== *)
(** ** The preset generator ([geminiService.ts]) *)
(* ================================================================== *)

Open Scope string_scope.

(** The default preset of the scene, as the typed record the frame tick
    reads ([DEFAULT_CONFIG]). *)
Definition DEFAULT_PRESET : VisualConfig :=
  mkVisualConfig Orbit Box "#00ffcc" "#ff00ff" "#1a1a2e"
                 (Fin 0.5) (Fin 0.5) (Fin 1.5) (Fin 1.0)
                 "Default cyberpunk aesthetic".

#[local] Set Warnings "-register-all".

(** A JavaScript value as [JSON.parse] builds it.  A number keeps its
    literal; an object keeps its members in the order of the text. *)
Inductive json : Type :=
| JNull
| JBool (b : bool)
| JNumber (literal : string)
| JString (s : string)
| JArray (items : list json)
| JObject (members : list (string * json)).

(** [DEFAULT_CONFIG], the object literal. *)
Definition DEFAULT_CONFIG : json :=
  JObject [ ("mode", JString "ORBIT");
            ("geometryType", JString "BOX");
            ("primaryColor", JString "#00ffcc");
            ("secondaryColor", JString "#ff00ff");
            ("backgroundColor", JString "#1a1a2e");
            ("particleSize", JNumber "0.5");
            ("rotationSpeed", JNumber "0.5");
            ("sensitivity", JNumber "1.5");
            ("bloomIntensity", JNumber "1.0");
            ("description", JString "Default cyberpunk aesthetic") ].

(** [obj[key]]: the last member of that name wins, as in an object built
    from a text with a repeated key. *)
Fixpoint getMember (key : string) (members : list (string * json))
    : option json :=
  match members with
  | [] => None
  | (k, v) :: rest =>
      match getMember key rest with
      | Some w => Some w
      | None => if String.eqb k key then Some v else None
      end
  end.

Definition isStringIn (allowed : list string) (v : option json) : bool :=
  match v with
  | Some (JString s) => existsb (String.eqb s) allowed
  | _ => false
  end.

Definition isAnyString (v : option json) : bool :=
  match v with Some (JString _) => true | _ => false end.

Definition isAnyNumber (v : option json) : bool :=
  match v with Some (JNumber _) => true | _ => false end.

(** The values of the two enums of [types.ts]. *)
Definition VisualizerMode_values : list string :=
  ["ORBIT"; "WAVE"; "GRID"; "CHAOS"; "FERROFLUID"; "SURFACE"].

Definition GeometryType_values : list string :=
  ["BOX"; "SPHERE"; "TETRAHEDRON"; "OCTAHEDRON"; "TORUS"; "CONE"].

(** A value that has every field of the interface [VisualConfig], each of
    its declared type: what the cast [as VisualConfig] takes for granted. *)
Definition isVisualConfig (v : json) : bool :=
  match v with
  | JObject m =>
      isStringIn VisualizerMode_values (getMember "mode" m)
      && isStringIn GeometryType_values (getMember "geometryType" m)
      && isAnyString (getMember "primaryColor" m)
      && isAnyString (getMember "secondaryColor" m)
      && isAnyString (getMember "backgroundColor" m)
      && isAnyNumber (getMember "particleSize" m)
      && isAnyNumber (getMember "rotationSpeed" m)
      && isAnyNumber (getMember "sensitivity" m)
      && isAnyNumber (getMember "bloomIntensity" m)
      && isAnyString (getMember "description" m)
  | _ => false
  end.

(** How the awaited call [ai.models.generateContent] ends: it throws, or it
    yields a response whose [text] may be [undefined]. *)
Inductive GenerateContentOutcome : Type :=
| Rejected
| Responded (text : option string).

(** [if (response.text)]: [undefined] and the empty string are falsy. *)
Definition truthyText (text : option string) : option string :=
  match text with
  | Some s => if String.eqb s EmptyString then None else Some s
  | None => None
  end.

(** The ASCII characters that [trim] removes. *)
Definition isWhiteSpace (c : ascii) : bool :=
  let n := nat_of_ascii c in
  ((9 <=? n)%nat && (n <=? 13)%nat) || (n =? 32)%nat.

(** [!prompt.trim()]: the prompt has nothing but white space. *)
Fixpoint isBlank (prompt : string) : bool :=
  match prompt with
  | EmptyString => true
  | String c rest => isWhiteSpace c && isBlank rest
  end.

Section Generator.

(** [JSON.parse]: [None] stands for the [SyntaxError] it throws. *)
Variable JSON_parse : string -> option json.

(** [generateVisualConfig]: the value the promise resolves to. *)
Definition generateVisualConfig (outcome : GenerateContentOutcome) : json :=
  match outcome with
  | Rejected => DEFAULT_CONFIG
  | Responded text =>
      match truthyText text with
      | Some s =>
          match JSON_parse s with
          | Some v => v
          | None => DEFAULT_CONFIG
          end
      | None => DEFAULT_CONFIG
      end
  end.

(** [handleGenerate] of the application: nothing happens on a blank
    prompt; otherwise the result replaces the whole configuration
    ([setConfig(configResult)]). *)
Definition handleGenerate (prompt : string) (outcome : GenerateContentOutcome)
    (config : json) : json :=
  if isBlank prompt then config else generateVisualConfig outcome.

End Generator.

(** *** [JSON.parse] on plain texts

    The grammar of JSON without escape sequences in strings and without
    exponents in numbers; a text outside this fragment is refused. *)

Definition isSpace (c : ascii) : bool :=
  (Ascii.eqb c " " || Ascii.eqb c "009" || Ascii.eqb c "010"
   || Ascii.eqb c "013")%char.

Definition isDigit (c : ascii) : bool :=
  let n := nat_of_ascii c in (48 <=? n)%nat && (n <=? 57)%nat.

Fixpoint skipSpace (s : string) : string :=
  match s with
  | String c r => if isSpace c then skipSpace r else s
  | EmptyString => s
  end.

(** The characters of a string literal up to its closing quote. *)
Fixpoint readString (s : string) : option (string * string) :=
  match s with
  | EmptyString => None
  | String c r =>
      if Ascii.eqb c "034" then Some (EmptyString, r)
      else if Ascii.eqb c "\" then None
      else if (nat_of_ascii c <? 32)%nat then None
      else match readString r with
           | Some (body, rest) => Some (String c body, rest)
           | None => None
           end
  end.

Fixpoint readDigits (s : string) : string * string :=
  match s with
  | String c r =>
      if isDigit c then let '(d, rest) := readDigits r in (String c d, rest)
      else (EmptyString, s)
  | EmptyString => (EmptyString, s)
  end.

(** A number literal: sign, integer part without a leading zero, fraction. *)
Definition readNumber (s : string) : option (string * string) :=
  let '(sign, s1) :=
    match s with
    | String "-" r => ("-", r)
    | _ => (EmptyString, s)
    end in
  let '(int, s2) := readDigits s1 in
  match int with
  | EmptyString => None
  | String "0" (String _ _) => None
  | _ =>
      match s2 with
      | String "." r =>
          let '(frac, s3) := readDigits r in
          match frac with
          | EmptyString => None
          | _ => Some (sign ++ int ++ "." ++ frac, s3)
          end
      | _ => Some (sign ++ int, s2)
      end
  end.

Definition readWord (word : string) (s : string) : option string :=
  if String.prefix word s
  then Some (String.substring (String.length word)
                              (String.length s - String.length word) s)
  else None.

Fixpoint readValue (fuel : nat) (s : string) : option (json * string) :=
  match fuel with
  | O => None
  | S fuel' =>
      match skipSpace s with
      | String "{" r =>
          match skipSpace r with
          | String "}" r' => Some (JObject [], r')
          | _ => match readMembers fuel' r with
                 | Some (m, rest) => Some (JObject m, rest)
                 | None => None
                 end
          end
      | String "[" r =>
          match skipSpace r with
          | String "]" r' => Some (JArray [], r')
          | _ => match readItems fuel' r with
                 | Some (l, rest) => Some (JArray l, rest)
                 | None => None
                 end
          end
      | String "034"%char r =>
          match readString r with
          | Some (body, rest) => Some (JString body, rest)
          | None => None
          end
      | String c r as t =>
          if isDigit c || Ascii.eqb c "-" then
            match readNumber t with
            | Some (lit, rest) => Some (JNumber lit, rest)
            | None => None
            end
          else
            match readWord "true" t, readWord "false" t, readWord "null" t with
            | Some rest, _, _ => Some (JBool true, rest)
            | _, Some rest, _ => Some (JBool false, rest)
            | _, _, Some rest => Some (JNull, rest)
            | _, _, _ => None
            end
      | EmptyString => None
      end
  end
with readMembers (fuel : nat) (s : string)
    : option (list (string * json) * string) :=
  match fuel with
  | O => None
  | S fuel' =>
      match skipSpace s with
      | String "034"%char r =>
          match readString r with
          | Some (key, r1) =>
              match skipSpace r1 with
              | String ":" r2 =>
                  match readValue fuel' r2 with
                  | Some (v, r3) =>
                      match skipSpace r3 with
                      | String "," r4 =>
                          match readMembers fuel' r4 with
                          | Some (m, rest) => Some ((key, v) :: m, rest)
                          | None => None
                          end
                      | String "}" r4 => Some ([(key, v)], r4)
                      | _ => None
                      end
                  | None => None
                  end
              | _ => None
              end
          | None => None
          end
      | _ => None
      end
  end
with readItems (fuel : nat) (s : string) : option (list json * string) :=
  match fuel with
  | O => None
  | S fuel' =>
      match readValue fuel' s with
      | Some (v, r1) =>
          match skipSpace r1 with
          | String "," r2 =>
              match readItems fuel' r2 with
              | Some (l, rest) => Some (v :: l, rest)
              | None => None
              end
          | String "]" r2 => Some ([v], r2)
          | _ => None
          end
      | None => None
      end
  end.

(** [JSON.parse(text)] on the fragment. *)
Definition JSON_parse_plain (text : string) : option json :=
  match readValue (S (String.length text)) text with
  | Some (v, rest) =>
      match skipSpace rest with
      | EmptyString => Some v
      | _ => None
      end
  | None => None
  end.

Close Scope string_scope.

(* ================================================================== *)
(** ** The controls of the application ([App.tsx]) *)
(* ================================================================== *)

Definition VisualizerMode_eqb (a b : VisualizerMode) : bool :=
  match a, b with
  | Orbit, Orbit | Wave, Wave | Grid, Grid | Chaos, Chaos
  | Ferrofluid, Ferrofluid | Surface, Surface => true
  | _, _ => false
  end.

Definition GeometryType_eqb (a b : GeometryType) : bool :=
  match a, b with
  | Box, Box | Sphere, Sphere | Tetrahedron, Tetrahedron
  | Octahedron, Octahedron | Torus, Torus | Cone, Cone => true
  | _, _ => false
  end.

(** [Object.values] of the two enums, in the order of their declaration. *)
Definition VisualizerModes : list VisualizerMode :=
  [Orbit; Wave; Grid; Chaos; Ferrofluid; Surface].

Definition GeometryTypes : list GeometryType :=
  [Box; Sphere; Tetrahedron; Octahedron; Torus; Cone].

(** [l.indexOf(x)]: the first index of [x], or -1. *)
Fixpoint indexOf {A : Type} (eqb : A -> A -> bool) (x : A) (l : list A) : Z :=
  match l with
  | [] => (-1)%Z
  | y :: rest =>
      if eqb y x then 0%Z
      else let k := indexOf eqb x rest in
           if (k <? 0)%Z then (-1)%Z else (k + 1)%Z
  end.

(** The argument ['left' | 'right'] of the two cycles. *)
Inductive Direction : Type := DirLeft | DirRight.

(** [{ ...prev, mode: m }] and [{ ...prev, geometryType: t }]. *)
Definition withMode (prev : VisualConfig) (m : VisualizerMode) : VisualConfig :=
  mkVisualConfig m (geometryType prev) (primaryColor prev)
                 (secondaryColor prev) (backgroundColor prev)
                 (particleSize prev) (rotationSpeed prev) (sensitivity prev)
                 (bloomIntensity prev) (description prev).

Definition withGeometryType (prev : VisualConfig) (t : GeometryType)
    : VisualConfig :=
  mkVisualConfig (mode prev) t (primaryColor prev)
                 (secondaryColor prev) (backgroundColor prev)
                 (particleSize prev) (rotationSpeed prev) (sensitivity prev)
                 (bloomIntensity prev) (description prev).

(** [cycleMode]: the updater it hands to [setConfig].  The index is
    computed from [config], the configuration of the render whose handler
    runs; the updater is applied to [prev], the state at that moment.  An
    index outside the array would read [undefined]; the mode in place
    stands for it. *)
Definition cycleMode (direction : Direction) (config prev : VisualConfig)
    : VisualConfig :=
  let modes := VisualizerModes in
  let currentIndex := indexOf VisualizerMode_eqb (mode config) modes in
  let newIndex :=
    match direction with
    | DirLeft => (currentIndex - 1)%Z
    | DirRight => (currentIndex + 1)%Z
    end in
  let newIndex :=
    if (newIndex <? 0)%Z then (Z.of_nat (List.length modes) - 1)%Z
    else newIndex in
  let newIndex :=
    if (newIndex >=? Z.of_nat (List.length modes))%Z then 0%Z
    else newIndex in
  withMode prev (nth (Z.to_nat newIndex) modes (mode prev)).

(** [cycleGeometry] *)
Definition cycleGeometry (direction : Direction) (config prev : VisualConfig)
    : VisualConfig :=
  let geometries := GeometryTypes in
  let currentIndex :=
    indexOf GeometryType_eqb (geometryType config) geometries in
  let newIndex :=
    match direction with
    | DirLeft => (currentIndex - 1)%Z
    | DirRight => (currentIndex + 1)%Z
    end in
  let newIndex :=
    if (newIndex <? 0)%Z then (Z.of_nat (List.length geometries) - 1)%Z
    else newIndex in
  let newIndex :=
    if (newIndex >=? Z.of_nat (List.length geometries))%Z then 0%Z
    else newIndex in
  withGeometryType prev
    (nth (Z.to_nat newIndex) geometries (geometryType prev)).

(** The source of the audio, the state of the audio context, and what
    [togglePlayPause] reads and writes: the two pieces of React state, the
    audio element (known by whether it is paused) and the context. *)
Inductive SourceType : Type := SourceMic | SourceFile.

Inductive AudioContextState : Type := Suspended | Running | Closed.

Record Player : Type := mkPlayer {
  sourceType : option SourceType;
  isPlaying : bool;
  audioElemPaused : option bool;
  audioContextState : option AudioContextState
}.

(** [togglePlayPause].  [pause()] and [play()] set the paused flag of the
    element; [resume()] on a suspended context makes it run. *)
Definition togglePlayPause (p : Player) : Player :=
  match sourceType p, audioElemPaused p with
  | Some SourceFile, Some _ =>
      if isPlaying p
      then mkPlayer (sourceType p) false (Some true) (audioContextState p)
      else mkPlayer (sourceType p) true (Some false) (audioContextState p)
  | Some SourceMic, _ =>
      mkPlayer (sourceType p) (negb (isPlaying p)) (audioElemPaused p)
        (match negb (isPlaying p), audioContextState p with
         | true, Some Suspended => Some Running
         | _, s => s
         end)
  | _, _ => p
  end.

(** [handleMouseMove]: the pointer of the window, from pixels to the
    square [-1,1] x [-1,1], the y axis pointing up. *)
Definition handleMouseMove (clientX clientY innerWidth innerHeight : num)
    : Vector2 :=
  mkVector2 ((clientX / innerWidth) * Fin 2 - Fin 1)%js
            (neg (clientY / innerHeight) * Fin 2 + Fin 1)%js.

(* ================================================================== *)
(** ** The fragment shader of the background ([ThreeScene.tsx]) *)
(* ================================================================== *)

(** The GLSL program is embedded over the reals: a [float] is a real
    number (the precision of the GPU is not modelled), a [vec2] and a
    [vec3] are tuples whose operations act on each component.  The
    built-in functions follow the GLSL ES specification; [smoothstep] is
    used only with [edge0 < edge1] and [pow] only with a base that is not
    negative, where the specification defines them. *)
Module Fragment.

Local Open Scope R_scope.

Definition vec2 : Type := (R * R)%type.
Definition vec3 : Type := (R * R * R)%type.

Definition floor (x : R) : R := IZR (Zfloor x).
Definition fract (x : R) : R := x - floor x.
Definition mix (x y a : R) : R := x * (1 - a) + y * a.
Definition clamp (x minVal maxVal : R) : R := Rmin (Rmax x minVal) maxVal.
Definition smoothstep (edge0 edge1 x : R) : R :=
  let t := clamp ((x - edge0) / (edge1 - edge0)) 0 1 in
  t * t * (3 - 2 * t).
Definition dot (a b : vec2) : R := fst a * fst b + snd a * snd b.
Definition distance (a b : vec2) : R :=
  R_sqrt.sqrt ((fst a - fst b) * (fst a - fst b)
               + (snd a - snd b) * (snd a - snd b)).
Definition pow (x y : R) : R :=
  if Rlt_dec 0 x then Rpower x y else 0.

(** [float random (in vec2 st)] *)
Definition random (st : vec2) : R :=
  fract (Rtrigo_def.sin (dot st (12.9898, 78.233)) * 43758.5453123).

(** [float noise (in vec2 st)] *)
Definition noise (st : vec2) : R :=
  let i := (floor (fst st), floor (snd st)) in
  let f := (fract (fst st), fract (snd st)) in
  let a := random i in
  let b := random (fst i + 1.0, snd i + 0.0) in
  let c := random (fst i + 0.0, snd i + 1.0) in
  let d := random (fst i + 1.0, snd i + 1.0) in
  let u := (fst f * fst f * (3.0 - 2.0 * fst f),
            snd f * snd f * (3.0 - 2.0 * snd f)) in
  mix a b (fst u) + (c - a) * snd u * (1.0 - fst u) + (d - b) * fst u * snd u.

Record Uniforms : Type := mkUniforms {
  uTime : R;
  uEnergy : R;
  uMood : R;
  uColor1 : vec3;
  uColor2 : vec3;
  uColor3 : vec3
}.

(** The scalars of [main], each as a function of the uniforms and of the
    varying [vUv]. *)
Definition intensity (u : Uniforms) (vUv : vec2) : R :=
  let uv := vUv in
  let t := uTime u * (0.1 + uMood u * 0.4) in
  let p := (fst uv * 2.0 - 1.0, snd uv * 2.0 - 1.0) in
  let frequency := mix 2.0 8.0 (uMood u) in
  let complexity := mix 0.5 1.5 (uMood u) in
  let wave1 := Rtrigo_def.sin (fst p * frequency + t)
               + Rtrigo_def.sin (snd p * (frequency * 0.8) + t * 0.8) in
  let wave2 := Rtrigo_def.sin (fst p * (frequency * 1.5) - t * 1.5)
               + Rtrigo_def.sin (snd p * (frequency * 1.2) + t * 0.5) in
  let n := noise (fst uv * 10.0 + t, snd uv * 10.0 + t) * uMood u * 0.2 in
  let intensity := (wave1 + wave2 * complexity) / (2.0 + complexity) + n in
  intensity * 0.5 + 0.5.

Definition mixFactor (u : Uniforms) (vUv : vec2) : R :=
  let uv := vUv in
  let mixFactor :=
    smoothstep 0.0 1.0 (snd uv * 0.6 + intensity u vUv * 0.4) in
  clamp ((mixFactor - 0.5) * (1.0 + uMood u) + 0.5) 0.0 1.0.

Definition glow (u : Uniforms) (vUv : vec2) : R :=
  let glowThreshold := mix 0.4 0.6 (uMood u) in
  let glowSize := mix 0.4 0.1 (uMood u) in
  smoothstep glowThreshold (glowThreshold + glowSize) (intensity u vUv).

(** The factor of the line [finalColor *= (1.2 - dist * 0.6)]. *)
Definition vignette (vUv : vec2) : R :=
  let dist := distance vUv (0.5, 0.5) in
  1.2 - dist * 0.6.

(** One component of [finalColor], from the same component [c1], [c2],
    [c3] of the three colours. *)
Definition channel (u : Uniforms) (vUv : vec2) (c1 c2 c3 : R) : R :=
  let base := mix c1 c2 (mixFactor u vUv) in
  let finalColor := mix base c3 (glow u vUv * (0.5 + uEnergy u * 0.5)) in
  let finalColor := finalColor * vignette vUv in
  if Rlt_dec 0.5 (uMood u)
  then pow finalColor (1.1 + (uMood u - 0.5))
  else finalColor.

(** [void main()]: the red, green and blue of [gl_FragColor]; its alpha is
    the constant 1. *)
Definition main (u : Uniforms) (vUv : vec2) : vec3 :=
  let '(r1, g1, b1) := uColor1 u in
  let '(r2, g2, b2) := uColor2 u in
  let '(r3, g3, b3) := uColor3 u in
  (channel u vUv r1 r2 r3, channel u vUv g1 g2 g3, channel u vUv b1 b2 b3).

End Fragment.

(** A colour whose three components lie in [0,1], and a point of the unit
    square. *)
Definition unitColor (c : Fragment.vec3) : Prop :=
  let '(r, g, b) := c in
  0 <= r <= 1 /\ 0 <= g <= 1 /\ 0 <= b <= 1.

Definition unitSquare (p : Fragment.vec2) : Prop :=
  0 <= fst p <= 1 /\ 0 <= snd p <= 1.

(* ================================================================== *)
(** ** Runs of the tick and the inputs used in examples *)
(* ================================================================== *)

(** The refs of the smoothed signals when the component mounts
    ([useRef(0)]). *)
Definition initialSignals : Signals :=
  mkSignals (Fin 0) (Fin 0) (Fin 0) (Fin 0) (Fin 0).

(** The analysis of one more frame, from the refs the last one left. *)
Definition advance (s : Signals) (audio : AudioData) : Signals :=
  analysis audio (smoothedBassRef s) (moodRef s) (hueShiftRef s).

(** The signals after a sequence of frames. *)
Definition runSignals (audios : list AudioData) (s : Signals) : Signals :=
  fold_left advance audios s.

(** Band energies that are numbers and not negative. *)
Definition nonNegative (a : num) : Prop := exists r, a = Fin r /\ 0 <= r.

Definition bandsNonNegative (audio : AudioData) : Prop :=
  nonNegative (bass audio) /\ nonNegative (mid audio)
  /\ nonNegative (treble audio).

(** A value within the unit interval. *)
Definition withinUnit (a : num) : Prop := exists r, a = Fin r /\ 0 <= r <= 1.

(** What [audioDataRef] holds for a spectrum of [n] zero bytes. *)
Definition silence (n : nat) : AudioData := analyse (repeat 0%Z n).

(** The sum of the bytes of a band and its average. *)
Definition sumZ (l : list Z) : Z := fold_right Z.add 0%Z l.

Definition bandAverage (l : list Z) : num :=
  (ofZ (sumZ l) / ofNat (List.length l))%js.

(** Squared distance of a point to the origin. *)
Definition normSquared (v : Vector3) : num :=
  (v3x v * v3x v + v3y v * v3y v + v3z v * v3z v)%js.

(** A corner of the axis-aligned cube of the given side centred at the
    origin: every coordinate is plus or minus half the side. *)
Definition isHalfSide (side : R) (a : num) : Prop :=
  a = Fin (side / 2) \/ a = Fin (- (side / 2)).

Definition isCentredCubeCorner (side : R) (v : Vector3) : Prop :=
  isHalfSide side (v3x v) /\ isHalfSide side (v3y v)
  /\ isHalfSide side (v3z v).

(** A source of draws that are all the same. *)
Definition constantRng (r : R) : Rng := mkRng (fun _ => r) 0.

(** The interface with a single colour, to run the tick where colours play
    no part. *)
Definition OneColor : ThreeColor :=
  {| Color := unit;
     Color_ofString := fun _ => tt;
     Color_ofHex := fun _ => tt;
     Color_offsetHSL := fun _ _ _ _ => tt;
     Color_lerp := fun _ _ _ => tt |}.

Section SceneRuns.

Context {TC : ThreeColor}.

(** The same scene with another source of draws. *)
Definition withRandom (st : SceneState) (g : Rng) : SceneState :=
  mkSceneState (timeRef st) (mouseRef st) (targetMouseRef st) (hueShift st)
               (cameraAngle st) (smoothedBass st) (moodValue st)
               (uTime st) (uEnergy st) (uMood st)
               (uColor1 st) (uColor2 st) (uColor3 st)
               (cameraPosition st) (bloomStrength st)
               (particles st) (surfaceMesh st) g.

(** The same scene at another hue. *)
Definition withHue (st : SceneState) (h : num) : SceneState :=
  mkSceneState (timeRef st) (mouseRef st) (targetMouseRef st) h
               (cameraAngle st) (smoothedBass st) (moodValue st)
               (uTime st) (uEnergy st) (uMood st)
               (uColor1 st) (uColor2 st) (uColor3 st)
               (cameraPosition st) (bloomStrength st)
               (particles st) (surfaceMesh st) (random st).

(** The smoothed signals the scene holds: the three refs, and the two
    values the last tick handed to the shader. *)
Definition signalsOf (st : SceneState) : Signals :=
  mkSignals (smoothedBass st) (moodValue st) (hueShift st)
            (uEnergy st) (uMood st).

(** The scene after a sequence of ticks, each with the preset and the
    audio data current at that frame. *)
Definition runFrames (frames : list (VisualConfig * AudioData))
    (st : SceneState) : SceneState :=
  fold_left (fun s f => animate (fst f) (snd f) s) frames st.

(** A scene as the effect builds it, before the first tick: every ref at
    0, the camera at (0, 5, 30), the instance buffers still to be written,
    the surface hidden (white, not emissive) with its rest positions
    saved. *)
Definition initialScene (config : VisualConfig) (restPositions : list num)
    (g : Rng) : SceneState :=
  mkSceneState (Fin 0) (mkVector2 (Fin 0) (Fin 0)) (mkVector2 (Fin 0) (Fin 0))
               (Fin 0) (Fin 0) (Fin 0) (Fin 0)
               (Fin 0) (Fin 0) (Fin 0)
               (Color_ofString (backgroundColor config))
               (Color_ofString (secondaryColor config))
               (Color_ofString (primaryColor config))
               (mkVector3 (Fin 0) (Fin 5) (Fin 30))
               (Fin 1.0)
               (mkInstancedMesh PARTICLE_COUNT true (Fin 0) (Fin 0) [] [])
               (mkSurfaceMesh false Color_white (Color_ofHex 0%Z) (Fin 0)
                              restPositions restPositions (Fin 0))
               g.

End SceneRuns.

(** The text of a JSON object whose only member is the mode GRID. *)
Definition quoted (s : string) : string :=
  String "034" (s ++ String "034" EmptyString).

Definition partialPresetText : string :=
  ("{" ++ quoted "mode" ++ ":" ++ quoted "GRID" ++ "}")%string.

(** Whether the four energies of a frame are all numbers. *)
Definition bandsDefined (audio : AudioData) : bool :=
  isFinite (overallAmplitude audio) && isFinite (bass audio)
  && isFinite (mid audio) && isFinite (treble audio).

(** A frame without sound: 256 bins at 0. *)
Definition quiet : AudioData :=
  mkAudioData (repeat 0%Z 256) (Fin 0) (Fin 0) (Fin 0) (Fin 0).

(** *** The Ferrofluid placement in real arithmetic

    The quantities of the Ferrofluid branch for instance [i] of [count] at
    time [T], bass [b] and mood [m], when all of these are finite. *)

Definition ferroInclination (count i : nat) : R :=
  Ratan.acos (1 - 2 * (IZR (Z.of_nat i) / IZR (Z.of_nat count))).

Definition ferroAzimuth (i : nat) : R :=
  Rtrigo1.PI * 2 * ((1 + R_sqrt.sqrt 5) / 2) * IZR (Z.of_nat i).

Definition ferroSx (count i : nat) : R :=
  Rtrigo_def.sin (ferroInclination count i) * Rtrigo_def.cos (ferroAzimuth i).

Definition ferroSy (count i : nat) : R :=
  Rtrigo_def.sin (ferroInclination count i) * Rtrigo_def.sin (ferroAzimuth i).

Definition ferroSz (count i : nat) : R :=
  Rtrigo_def.cos (ferroInclination count i).

Definition noiseR (x y z : R) : R :=
  Rtrigo_def.sin x * Rtrigo_def.cos y + Rtrigo_def.sin y * Rtrigo_def.cos z
  + Rtrigo_def.sin z * Rtrigo_def.cos x.

Definition ferroSpike (T : R) (count i : nat) : R :=
  Rmax 0
    (noiseR (ferroSx count i * 3 + T) (ferroSy count i * 3 + T)
            (ferroSz count i * 3)
     + noiseR (ferroSx count i * 10) (ferroSy count i * 10 + T * 2)
              (ferroSz count i * 10) * 0.5).

Definition ferroDisplacement (T b m : R) (count i : nat) : R :=
  12 + ferroSpike T count i * (4 + b / 255 * 8) * (0.5 + m).

(** The preset the application starts with ([INITIAL_CONFIG]). *)
Definition INITIAL_CONFIG : VisualConfig :=
  mkVisualConfig Ferrofluid Sphere "#00d4ff" "#ff0055" "#2a1b3d"
                 (Fin 0.6) (Fin 0.5) (Fin 1.2) (Fin 1.2)
                 "Initialize visuals...".

(** An instance on the equator of the sphere, a time at which its spike is
    flat, and a pointer one unit farther from the axis than the instance. *)
Definition equatorInstance : nat := 1250.

Definition flatTime : R :=
  3 * (Rtrigo1.PI / 2) - 3 * Rtrigo_def.sin (ferroAzimuth equatorInstance).

Definition pointerBeyond : Vector2 :=
  mkVector2 (Fin (0.65 * Rtrigo_def.cos (ferroAzimuth equatorInstance)))
            (Fin (0.65 * Rtrigo_def.sin (ferroAzimuth equatorInstance))).

(** The default preset switched to the Grid mode. *)
Definition gridPreset : VisualConfig :=
  mkVisualConfig Grid Box "#00ffcc" "#ff00ff" "#1a1a2e"
                 (Fin 0.5) (Fin 0.5) (Fin 1.5) (Fin 1.0)
                 "Default cyberpunk aesthetic".

(** The position the mode computes for instance [i], as a vector. *)
Definition modePoint (time : num) (cfg : VisualConfig) (audio : AudioData)
    (mood : num) (count i : nat) (g : Rng) : Vector3 :=
  let p := fst (modePosition time cfg audio mood count i g) in
  mkVector3 (px p) (py p) (pz p).

(** The corners of the cube whose coordinates are -3 or 0, in the order of
    the instances: x runs fastest, then y, then z. *)
Definition gridCorners : list Vector3 :=
  [ mkVector3 (Fin (-3)) (Fin (-3)) (Fin (-3));
    mkVector3 (Fin 0) (Fin (-3)) (Fin (-3));
    mkVector3 (Fin (-3)) (Fin 0) (Fin (-3));
    mkVector3 (Fin 0) (Fin 0) (Fin (-3));
    mkVector3 (Fin (-3)) (Fin (-3)) (Fin 0);
    mkVector3 (Fin 0) (Fin (-3)) (Fin 0);
    mkVector3 (Fin (-3)) (Fin 0) (Fin 0);
    mkVector3 (Fin 0) (Fin 0) (Fin 0) ].

(** The default preset switched to the Surface mode. *)
Definition surfacePreset : VisualConfig :=
  mkVisualConfig Surface Box "#00ffcc" "#ff00ff" "#1a1a2e"
                 (Fin 0.5) (Fin 0.5) (Fin 1.5) (Fin 1.0)
                 "Default cyberpunk aesthetic".

(** A byte of a [Uint8Array]. *)
Definition isByte (v : Z) : Prop := (0 <= v <= 255)%Z.

(** Refs the analysis can start from: a bass tracker that is a number and
    not negative, an energy tracker that is a number. *)
Definition signalsSane (s : Signals) : Prop :=
  nonNegative (smoothedBassRef s) /\ exists r, moodRef s = Fin r.

(** A frame without shake: the mood and the normalised bass are both 0, or
    the mood is not a number. *)
Definition noShake (mood normalizedBass : num) : Prop :=
  (mood = Fin 0 /\ normalizedBass = Fin 0) \/ mood = NaN.

(** An energy on the scale of the bytes. *)
Definition inByteRange (a : num) : Prop :=
  exists r, a = Fin r /\ 0 <= r <= 255.

(** The three bands of a frame are numbers. *)
Definition bandsFinite (audio : AudioData) (b m t : R) : Prop :=
  bass audio = Fin b /\ mid audio = Fin m /\ treble audio = Fin t.

(** The number of draws the instance loop takes: three per instance for
    the jitter of the Grid mode, when the mood is above 0.7. *)
Definition jitterDraws (cfg : VisualConfig) (mood : num) (count : nat) : nat :=
  match mode cfg with
  | Grid => if (mood >? Fin 0.7)%js then 3 * count else 0
  | _ => 0
  end.

(** A source of draws moved on by [k] draws. *)
Definition skipDraws (g : Rng) (k : nat) : Rng :=
  mkRng (draws g) (cursor g + k).

(* ================================================================== *)
(** * Properties *)
(* ================================================================== *)

(** ** Arithmetic of finite numbers *)

Lemma Rsgn_pos (r : R) : 0 < r -> Rsgn r = Gt.
Proof.
  intros H. unfold Rsgn. destruct (Rcompare_spec r 0); try lra. reflexivity.
Qed.

Lemma Rsgn_neg (r : R) : r < 0 -> Rsgn r = Lt.
Proof.
  intros H. unfold Rsgn. destruct (Rcompare_spec r 0); try lra. reflexivity.
Qed.

Lemma Rsgn_zero (r : R) : r = 0 -> Rsgn r = Eq.
Proof.
  intros H. unfold Rsgn. destruct (Rcompare_spec r 0); try lra. reflexivity.
Qed.

Lemma Rltb_true (a b : R) : a < b -> Rltb a b = true.
Proof. intros H. unfold Rltb. destruct (Rlt_dec a b); [reflexivity | lra]. Qed.

Lemma Rltb_false (a b : R) : b <= a -> Rltb a b = false.
Proof. intros H. unfold Rltb. destruct (Rlt_dec a b); [lra | reflexivity]. Qed.

Lemma div_Fin (x y : R) : y <> 0 -> (Fin x / Fin y)%js = Fin (x / y).
Proof.
  intros H. unfold div.
  destruct (Rtotal_order y 0) as [Hy | [Hy | Hy]].
  - rewrite (Rsgn_neg _ Hy). reflexivity.
  - contradiction.
  - rewrite (Rsgn_pos _ Hy). reflexivity.
Qed.

Lemma div_zero_zero (x y : R) : x = 0 -> y = 0 -> (Fin x / Fin y)%js = NaN.
Proof.
  intros Hx Hy. unfold div. rewrite (Rsgn_zero _ Hy), (Rsgn_zero _ Hx).
  reflexivity.
Qed.

Lemma lt_Fin_true (x y : R) : x < y -> (Fin x <? Fin y)%js = true.
Proof. apply Rltb_true. Qed.

Lemma lt_Fin_false (x y : R) : y <= x -> (Fin x <? Fin y)%js = false.
Proof. apply Rltb_false. Qed.

Lemma min_Fin (x y : R) : JS.min (Fin x) (Fin y) = Fin (Rmin x y).
Proof.
  unfold JS.min, lt, Rltb, Rmin.
  destruct (Rlt_dec y x), (Rle_dec x y); try lra; reflexivity.
Qed.

Lemma max_Fin (x y : R) : JS.max (Fin x) (Fin y) = Fin (Rmax x y).
Proof.
  unfold JS.max, lt, Rltb, Rmax.
  destruct (Rlt_dec x y), (Rle_dec x y); try lra; try reflexivity.
  f_equal; lra.
Qed.

Lemma Zfloor_IZR (z : Z) : Zfloor (IZR z) = z.
Proof. apply Zfloor_eq. lra. Qed.

Lemma Zfloor_tenth (n : Z) : (0 <= n)%Z -> Zfloor (IZR n * 0.1) = (n / 10)%Z.
Proof.
  intros Hn. apply Zfloor_eq.
  pose proof (Z.div_mod n 10 ltac:(lia)) as E.
  pose proof (Z.mod_pos_bound n 10 ltac:(lia)) as B.
  assert (EI : IZR n = 10 * IZR (n / 10) + IZR (n mod 10)).
  { rewrite E at 1. rewrite plus_IZR, mult_IZR. reflexivity. }
  assert (0 <= IZR (n mod 10) <= 9).
  { split; [apply (IZR_le 0) | apply (IZR_le _ 9)]; lia. }
  lra.
Qed.

Lemma Zfloor_half (n : Z) : (0 <= n)%Z -> Zfloor (IZR n * 0.5) = (n / 2)%Z.
Proof.
  intros Hn. apply Zfloor_eq.
  pose proof (Z.div_mod n 2 ltac:(lia)) as E.
  pose proof (Z.mod_pos_bound n 2 ltac:(lia)) as B.
  assert (EI : IZR n = 2 * IZR (n / 2) + IZR (n mod 2)).
  { rewrite E at 1. rewrite plus_IZR, mult_IZR. reflexivity. }
  assert (0 <= IZR (n mod 2) <= 1).
  { split; [apply (IZR_le 0) | apply (IZR_le _ 1)]; lia. }
  lra.
Qed.

Lemma add_Fin (x y : R) : (Fin x + Fin y)%js = Fin (x + y).
Proof. reflexivity. Qed.

Lemma sub_Fin (x y : R) : (Fin x - Fin y)%js = Fin (x - y).
Proof. reflexivity. Qed.

Lemma mul_Fin (x y : R) : (Fin x * Fin y)%js = Fin (x * y).
Proof. reflexivity. Qed.

Lemma div_Fin_255 (x : R) : (Fin x / Fin 255)%js = Fin (x / 255).
Proof. apply div_Fin. lra. Qed.

Create Rewrite HintDb js.
#[local] Hint Rewrite add_Fin sub_Fin mul_Fin min_Fin max_Fin div_Fin_255 : js.

(** Reduce the arithmetic of finite numbers to arithmetic of reals. *)
Ltac js_fin := repeat (progress (autorewrite with js; rewrite ?div_Fin by lra)).

(** ** The refs across a tick *)

Section FrameRuns.

Context {TC : ThreeColor}.

(** What the tick does to the refs, whatever the mode and the draws. *)
Lemma animate_refs (config : VisualConfig) (audio : AudioData)
    (st : SceneState) :
  let sg := analysis audio (smoothedBass st) (moodValue st) (hueShift st) in
  let st' := animate config audio st in
  timeRef st' = (timeRef st + Fin 0.005)%js
  /\ smoothedBass st' = smoothedBassRef sg
  /\ moodValue st' = moodRef sg
  /\ hueShift st' = hueShiftRef sg
  /\ uMood st' = mood sg
  /\ uEnergy st' = normalizedBass sg
  /\ cameraAngle st'
     = fst (fst (cameraTarget (timeRef st + Fin 0.005)%js
                   (Vector2_lerp (mouseRef st) (targetMouseRef st) (Fin 0.1))
                   (cameraAngle st) (normalizedBass sg) (mood sg)
                   (random st))).
Proof.
  intros sg st'. unfold st', animate. fold sg.
  destruct (cameraTarget _ _ _ _ _ _) as [[angle target] g].
  destruct (mode config);
    repeat match goal with
           | |- context [let '(_, _) := ?e in _] => destruct e
           end;
    cbn; repeat split; reflexivity.
Qed.

(** The signals of the scene follow the analysis, frame after frame. *)
Lemma animate_signals (config : VisualConfig) (audio : AudioData)
    (st : SceneState) :
  signalsOf (animate config audio st) = advance (signalsOf st) audio.
Proof.
  destruct (animate_refs config audio st) as [_ [E1 [E2 [E3 [E4 [E5 _]]]]]].
  unfold signalsOf. rewrite E1, E2, E3, E4, E5. reflexivity.
Qed.

Lemma runFrames_signals (frames : list (VisualConfig * AudioData)) :
  forall st : SceneState,
    signalsOf (runFrames frames st)
    = runSignals (map snd frames) (signalsOf st).
Proof.
  induction frames as [| f rest IH]; intros st; [reflexivity |].
  cbn [runFrames fold_left map runSignals].
  fold (runFrames rest (animate (fst f) (snd f) st)).
  rewrite IH, animate_signals. reflexivity.
Qed.

End FrameRuns.

(** ** The smoothed signals *)

(** One analysis from finite refs and finite, non-negative bands: the
    closed form of the four values. *)
Lemma analysis_finite (audio : AudioData) (b m t s0 m0 : R) (hs : num) :
  bass audio = Fin b -> mid audio = Fin m -> treble audio = Fin t ->
  let s := analysis audio (Fin s0) (Fin m0) hs in
  smoothedBassRef s = Fin (s0 + (b - s0) * 0.15)
  /\ moodRef s = Fin (m0 + ((b + m + t) / (255 * 3) - m0) * 0.02)
  /\ normalizedBass s = Fin (Rmin ((s0 + (b - s0) * 0.15) / 255) 1)
  /\ mood s
     = Fin (Rmax 0 (Rmin 1
              ((m0 + ((b + m + t) / (255 * 3) - m0) * 0.02) * 1.5))).
Proof.
  intros Hb Hm Ht. unfold analysis. rewrite Hb, Hm, Ht. cbn [smoothedBassRef
    moodRef normalizedBass mood].
  js_fin. replace 1.0 with 1 by lra. repeat split; reflexivity.
Qed.

Lemma advance_sane (s : Signals) (audio : AudioData) :
  signalsSane s -> bandsNonNegative audio -> signalsSane (advance s audio).
Proof.
  intros [[s0 [Hs0 Ps0]] [m0 Hm0]] [[b [Hb Pb]] [[m [Hm Pm]] [t [Ht Pt]]]].
  unfold advance. rewrite Hs0, Hm0.
  destruct (analysis_finite audio b m t s0 m0 (hueShiftRef s) Hb Hm Ht)
    as [E1 [E2 _]].
  split.
  - exists (s0 + (b - s0) * 0.15). split; [exact E1 | lra].
  - eexists. exact E2.
Qed.

Lemma runSignals_sane (audios : list AudioData) :
  forall s, signalsSane s -> Forall bandsNonNegative audios ->
            signalsSane (runSignals audios s).
Proof.
  induction audios as [| a rest IH]; intros s Hs Hall; [exact Hs |].
  inversion Hall as [| ? ? Ha Hrest]; subst.
  apply IH; [apply advance_sane; assumption | assumption].
Qed.

Lemma advance_within_unit (s : Signals) (audio : AudioData) :
  signalsSane s -> bandsNonNegative audio ->
  withinUnit (mood (advance s audio))
  /\ withinUnit (normalizedBass (advance s audio)).
Proof.
  intros [[s0 [Hs0 Ps0]] [m0 Hm0]] [[b [Hb Pb]] [[m [Hm Pm]] [t [Ht Pt]]]].
  unfold advance. rewrite Hs0, Hm0.
  destruct (analysis_finite audio b m t s0 m0 (hueShiftRef s) Hb Hm Ht)
    as [_ [_ [E3 E4]]].
  split.
  - eexists. split; [exact E4 |].
    split; [apply Rmax_l |].
    apply Rmax_lub; [lra | apply Rmin_l].
  - eexists. split; [exact E3 |].
    split; [| apply Rmin_r].
    apply Rmin_glb; [| lra].
    apply Rmult_le_pos; [lra |].
    apply Rlt_le, Rinv_0_lt_compat. lra.
Qed.

Lemma initialSignals_sane : signalsSane initialSignals.
Proof.
  split; [exists 0; split; [reflexivity | lra] | exists 0; reflexivity].
Qed.



(** ** The spectrum reduction *)

Lemma lt_ofNat (i n : nat) : (ofNat i <? ofNat n)%js = (i <? n)%nat.
Proof.
  unfold ofNat. destruct (Nat.ltb_spec i n) as [H | H].
  - apply lt_Fin_true, IZR_lt. lia.
  - apply lt_Fin_false, IZR_le. lia.
Qed.

Lemma ofZ_add (a b : Z) : (ofZ a + ofZ b)%js = ofZ (a + b).
Proof. unfold ofZ. rewrite add_Fin, plus_IZR. reflexivity. Qed.

Lemma floor_tenth (n : nat) : floor (ofNat n * Fin 0.1)%js = ofNat (n / 10).
Proof.
  unfold ofNat, floor. rewrite mul_Fin, Zfloor_tenth by lia.
  rewrite Nat2Z.inj_div. reflexivity.
Qed.

Lemma floor_half (n : nat) : floor (ofNat n * Fin 0.5)%js = ofNat (n / 2).
Proof.
  unfold ofNat, floor. rewrite mul_Fin, Zfloor_half by lia.
  rewrite Nat2Z.inj_div. reflexivity.
Qed.

(** The loop sorts the bytes by index: below [bl] into the bass sum, from
    [bl] up to [ml] into the mid sum, the others into the treble sum. *)
Lemma analyseLoop_bands (bl ml : nat) :
  (bl <= ml)%nat ->
  forall (data : list Z) (i : nat) (s b m t : Z),
    analyseLoop (ofNat bl) (ofNat ml) i data
                (mkBandSums (ofZ s) (ofZ b) (ofZ m) (ofZ t))
    = mkBandSums
        (ofZ (s + sumZ data))
        (ofZ (b + sumZ (firstn (bl - i) data)))
        (ofZ (m + sumZ (firstn (ml - i - (bl - i)) (skipn (bl - i) data))))
        (ofZ (t + sumZ (skipn (ml - i) data))).
Proof.
  intros Hle data. induction data as [| v rest IH]; intros i s b m t.
  - cbn [analyseLoop]. rewrite ?skipn_nil, ?firstn_nil. cbn [sumZ fold_right].
    rewrite !Z.add_0_r. reflexivity.
  - cbn [analyseLoop]. unfold analyseStep. rewrite !lt_ofNat.
    cbn [sum bassSum midSum trebleSum].
    destruct (Nat.ltb_spec i bl) as [Hb | Hb].
    + rewrite !ofZ_add, IH.
      replace (bl - i)%nat with (S (bl - S i)) by lia.
      replace (ml - i - S (bl - S i))%nat
        with (ml - S i - (bl - S i))%nat by lia.
      replace (ml - i)%nat with (S (ml - S i)) by lia.
      cbn [firstn skipn sumZ fold_right].
      f_equal; (f_equal; unfold sumZ; lia).
    + destruct (Nat.ltb_spec i ml) as [Hm | Hm].
      * rewrite !ofZ_add, IH.
        replace (bl - i)%nat with 0%nat by lia.
        replace (bl - S i)%nat with 0%nat by lia.
        replace (ml - i - 0)%nat with (S (ml - S i - 0)) by lia.
        replace (ml - i)%nat with (S (ml - S i)) by lia.
        cbn [firstn skipn sumZ fold_right].
        f_equal; (f_equal; unfold sumZ; lia).
      * rewrite !ofZ_add, IH.
        replace (bl - i)%nat with 0%nat by lia.
        replace (bl - S i)%nat with 0%nat by lia.
        replace (ml - i)%nat with 0%nat by lia.
        replace (ml - S i)%nat with 0%nat by lia.
        cbn [firstn skipn sumZ fold_right Nat.sub].
        f_equal; (f_equal; unfold sumZ; lia).
Qed.

Lemma ofNat_sub (a b : nat) :
  (b <= a)%nat -> (ofNat a - ofNat b)%js = ofNat (a - b).
Proof.
  intros H. unfold ofNat. rewrite sub_Fin, Nat2Z.inj_sub by exact H.
  rewrite minus_IZR. reflexivity.
Qed.

(** The reduction computes the average of each band: all the bins, the
    first tenth of them, the bins from there up to the middle, the upper
    half. *)
Lemma analyse_band_averages (data : list Z) :
  let n := List.length data in
  analyse data
  = mkAudioData data
      (bandAverage data)
      (bandAverage (firstn (n / 10) data))
      (bandAverage (firstn (n / 2 - n / 10) (skipn (n / 10) data)))
      (bandAverage (skipn (n / 2) data)).
Proof.
  intros n. unfold analyse. fold n. rewrite floor_tenth, floor_half.
  assert (H1 : (n / 10 <= n / 2)%nat).
  { pose proof (Nat.div_mod_eq n 10). pose proof (Nat.div_mod_eq n 2).
    pose proof (Nat.mod_upper_bound n 10 ltac:(lia)).
    pose proof (Nat.mod_upper_bound n 2 ltac:(lia)). lia. }
  assert (H2 : (n / 2 <= n)%nat).
  { pose proof (Nat.div_mod_eq n 2). lia. }
  change (mkBandSums (Fin 0) (Fin 0) (Fin 0) (Fin 0))
    with (mkBandSums (ofZ 0) (ofZ 0) (ofZ 0) (ofZ 0)).
  rewrite (analyseLoop_bands _ _ H1).
  cbn [sum bassSum midSum trebleSum]. rewrite !Nat.sub_0_r, !Z.add_0_l.
  rewrite !ofNat_sub by assumption.
  unfold bandAverage.
  rewrite !length_firstn, !length_skipn. fold n.
  rewrite (Nat.min_l (n / 10) n) by lia.
  rewrite (Nat.min_l (n / 2 - n / 10) (n - n / 10)) by lia.
  reflexivity.
Qed.

Lemma bandAverage_nil : bandAverage [] = NaN.
Proof. apply div_zero_zero; reflexivity. Qed.

Lemma bandAverage_cons (v : Z) (l : list Z) :
  bandAverage (v :: l)
  = Fin (IZR (sumZ (v :: l)) / IZR (Z.of_nat (List.length (v :: l)))).
Proof.
  unfold bandAverage, ofZ, ofNat. apply div_Fin.
  apply not_0_IZR. cbn [List.length]. lia.
Qed.

Lemma sumZ_repeat (c : Z) (k : nat) : sumZ (repeat c k) = (Z.of_nat k * c)%Z.
Proof.
  induction k as [| k IH]; [reflexivity |].
  cbn [repeat]. change (sumZ (c :: repeat c k)) with (c + sumZ (repeat c k))%Z.
  rewrite IH. lia.
Qed.

Lemma bandAverage_repeat (c : Z) (k : nat) :
  (0 < k)%nat -> bandAverage (repeat c k) = ofZ c.
Proof.
  intros Hk. destruct k as [| k]; [lia |].
  change (repeat c (S k)) with (c :: repeat c k).
  rewrite bandAverage_cons.
  change (c :: repeat c k) with (repeat c (S k)).
  rewrite sumZ_repeat, repeat_length, mult_IZR. unfold ofZ. f_equal.
  field. apply not_0_IZR. lia.
Qed.

(** C4.  On a spectrum of 100 bins the bass is the average of the first 10
    bins, the mid of the next 40, the treble of the last 50; when every bin
    is 255 the four energies are exactly 255. *)
Theorem all_255_spectrum_gives_255 :
  analyse (repeat 255%Z 100)
  = mkAudioData (repeat 255%Z 100) (Fin 255) (Fin 255) (Fin 255) (Fin 255)
  /\ forall data : list Z,
       List.length data = 100%nat ->
       bass (analyse data) = bandAverage (firstn 10 data)
       /\ mid (analyse data) = bandAverage (firstn 40 (skipn 10 data))
       /\ treble (analyse data) = bandAverage (skipn 50 data)
       /\ overallAmplitude (analyse data) = bandAverage data.
Proof.
  split.
  - rewrite analyse_band_averages. rewrite repeat_length.
    change (100 / 10)%nat with 10%nat. change (100 / 2 - 10)%nat with 40%nat.
    change (100 / 2)%nat with 50%nat.
    change (firstn 10 (repeat 255%Z 100)) with (repeat 255%Z 10).
    change (firstn 40 (skipn 10 (repeat 255%Z 100))) with (repeat 255%Z 40).
    change (skipn 50 (repeat 255%Z 100)) with (repeat 255%Z 50).
    rewrite !bandAverage_repeat by lia. reflexivity.
  - intros data Hlen. rewrite analyse_band_averages. rewrite Hlen.
    change (100 / 10)%nat with 10%nat. change (100 / 2 - 10)%nat with 40%nat.
    change (100 / 2)%nat with 50%nat.
    cbn [bass mid treble overallAmplitude]. repeat split; reflexivity.
Qed.

Lemma all_255_spectrum_gives_255_witness :
  bass (analyse (repeat 255%Z 100)) = bandAverage (repeat 255%Z 10).
Proof.
  destruct all_255_spectrum_gives_255 as [_ H].
  destruct (H (repeat 255%Z 100) (repeat_length _ _)) as [Hb _].
  exact Hb.
Defined.

Lemma firstn_repeat {A : Type} (c : A) (k n : nat) :
  firstn k (repeat c n) = repeat c (Nat.min k n).
Proof.
  revert n. induction k as [| k IH]; intros [| n]; try reflexivity.
  cbn [repeat firstn Nat.min]. rewrite IH. reflexivity.
Qed.

Lemma skipn_repeat {A : Type} (c : A) (k n : nat) :
  skipn k (repeat c n) = repeat c (n - k).
Proof.
  revert n. induction k as [| k IH]; intros [| n]; try reflexivity.
  cbn [repeat skipn Nat.sub]. apply IH.
Qed.

Lemma bandAverage_finite (l : list Z) :
  isFinite (bandAverage l) = (0 <? List.length l)%nat.
Proof.
  destruct l as [| v l]; [rewrite bandAverage_nil | rewrite bandAverage_cons];
    reflexivity.
Qed.

Lemma bandsDefined_iff (data : list Z) :
  bandsDefined (analyse data) = true <-> (10 <= List.length data)%nat.
Proof.
  rewrite analyse_band_averages. unfold bandsDefined.
  cbn [overallAmplitude bass mid treble].
  rewrite !bandAverage_finite, !length_firstn, !length_skipn.
  set (n := List.length data).
  pose proof (Nat.div_mod_eq n 10) as E10. pose proof (Nat.div_mod_eq n 2) as E2.
  pose proof (Nat.mod_upper_bound n 10 ltac:(lia)) as B10.
  pose proof (Nat.mod_upper_bound n 2 ltac:(lia)) as B2.
  rewrite !andb_true_iff, !Nat.ltb_lt. lia.
Qed.

Lemma analyse_nil : analyse [] = mkAudioData [] NaN NaN NaN NaN.
Proof.
  rewrite analyse_band_averages.
  rewrite ?skipn_nil, ?firstn_nil, ?bandAverage_nil. reflexivity.
Qed.



(** ** The hue and the camera angle *)

(** The hue after a frame whose mood is [m]: the step is added, and 1 is
    taken off when the sum is above 1. *)
Lemma analysis_hue (audio : AudioData) (sb md : num) (h m : R) :
  mood (analysis audio sb md (Fin h)) = Fin m ->
  hueShiftRef (analysis audio sb md (Fin h))
  = if Rlt_dec 1 (h + (0.0002 + m * 0.001))
    then Fin (h + (0.0002 + m * 0.001) - 1)
    else Fin (h + (0.0002 + m * 0.001)).
Proof.
  unfold analysis. cbn [mood hueShiftRef]. intros Hm. rewrite Hm.
  js_fin. unfold gt, lt, Rltb.
  destruct (Rlt_dec 1 (h + (0.0002 + m * 0.001))); js_fin; reflexivity.
Qed.

Lemma quiet_mood (h : num) : mood (analysis quiet (Fin 0) (Fin 0) h) = Fin 0.
Proof.
  destruct (analysis_finite quiet 0 0 0 0 0 h eq_refl eq_refl eq_refl)
    as [_ [_ [_ E]]].
  rewrite E. f_equal.
  replace ((0 + ((0 + 0 + 0) / (255 * 3) - 0) * 0.02) * 1.5) with 0 by lra.
  rewrite Rmin_right by lra. apply Rmax_left. lra.
Qed.

(** A quiet frame from refs at rest leaves the trackers at 0 and moves the
    hue by 0.0002. *)
Lemma quiet_advance (h : R) :
  h + 0.0002 <= 1 ->
  advance (mkSignals (Fin 0) (Fin 0) (Fin h) (Fin 0) (Fin 0)) quiet
  = mkSignals (Fin 0) (Fin 0) (Fin (h + 0.0002)) (Fin 0) (Fin 0).
Proof.
  intros Hh. unfold advance. cbn [smoothedBassRef moodRef hueShiftRef].
  pose proof (quiet_mood (Fin h)) as Hm.
  pose proof (analysis_hue quiet (Fin 0) (Fin 0) h 0 Hm) as Hhue.
  destruct (analysis_finite quiet 0 0 0 0 0 (Fin h) eq_refl eq_refl eq_refl)
    as [E1 [E2 [E3 _]]].
  destruct (Rlt_dec 1 (h + (0.0002 + 0 * 0.001))) as [Hgt | _]; [lra |].
  destruct (analysis quiet (Fin 0) (Fin 0) (Fin h)) as [a b c d e].
  cbn [smoothedBassRef moodRef hueShiftRef normalizedBass mood] in *.
  rewrite E1, E2, E3, Hm, Hhue.
  f_equal; f_equal; try lra.
  replace ((0 + (0 - 0) * 0.15) / 255) with 0 by lra.
  apply Rmin_left. lra.
Qed.

Lemma quiet_run (n : nat) :
  (n <= 5000)%nat ->
  runSignals (repeat quiet n) initialSignals
  = mkSignals (Fin 0) (Fin 0) (Fin (IZR (Z.of_nat n) * 0.0002))
              (Fin 0) (Fin 0).
Proof.
  induction n as [| n IH]; intros Hn.
  - unfold initialSignals. cbn. f_equal. f_equal. lra.
  - change (repeat quiet (S n)) with (quiet :: repeat quiet n).
    rewrite repeat_cons. unfold runSignals. rewrite fold_left_app.
    fold (runSignals (repeat quiet n) initialSignals).
    rewrite IH by lia. cbn [fold_left].
    assert (B : IZR (Z.of_nat n) <= 4999) by (apply IZR_le; lia).
    rewrite quiet_advance by lra.
    rewrite Nat2Z.inj_succ, succ_IZR. f_equal. f_equal. lra.
Qed.

(** In exact arithmetic the hue 0.9998 is the one the refs at 0 reach
    after 4999 quiet frames. *)
Lemma quiet_run_to_the_brink :
  hueShiftRef (runSignals (repeat quiet 4999) initialSignals) = Fin 0.9998.
Proof.
  rewrite quiet_run by lia. cbn [hueShiftRef]. f_equal.
  change (Z.of_nat 4999) with 4999%Z. lra.
Qed.

(** C6, as the code has it.  From a hue of 0.9998, which lies in [0,1), a
    quiet frame (mood 0) adds 0.0002: the sum is 1, the wrap only acts
    above 1, and the hue the tick leaves is exactly 1, outside [0,1). *)
Lemma hueShift_reaches_one :
  let st :=
    withHue (@initialScene OneColor DEFAULT_PRESET [] (constantRng 0))
            (Fin 0.9998) in
  let st' := @animate OneColor DEFAULT_PRESET quiet st in
  uMood st' = Fin 0
  /\ hueShift st' = Fin 1
  /\ ~ (exists h : R, hueShift st' = Fin h /\ 0 <= h < 1).
Proof.
  intros st st'.
  destruct (@animate_refs OneColor DEFAULT_PRESET quiet st)
    as [_ [_ [_ [Eh [Em _]]]]].
  fold st' in Eh, Em.
  pose proof (quiet_mood (Fin 0.9998)) as Hm.
  assert (E : hueShift st' = Fin 1).
  { rewrite Eh. cbn [st withHue initialScene smoothedBass moodValue hueShift].
    rewrite (analysis_hue _ _ _ _ _ Hm).
    destruct (Rlt_dec 1 (0.9998 + (0.0002 + 0 * 0.001))); [lra |].
    f_equal. lra. }
  split; [rewrite Em; exact Hm |]. split; [exact E |].
  intros [h [Hh Hb]]. rewrite E in Hh. injection Hh as Hh. lra.
Qed.

(** C6, amended.  With a hue in [0,1] and a frame whose mood [m] lies in
    [0,1], the tick adds 0.0002 + m * 0.001 to the hue and takes 1 off
    when the sum is above 1: the hue grows modulo 1 and stays in (0,1],
    the bound 1 included.  The camera angle gains 0.001 + m * 0.005 and so
    grows strictly. *)
Theorem hue_and_camera_angle_advance
    (TC : ThreeColor) (config : VisualConfig) (audio : AudioData)
    (st : SceneState) (h a m : R) :
  hueShift st = Fin h -> 0 <= h <= 1 ->
  cameraAngle st = Fin a ->
  uMood (animate config audio st) = Fin m -> 0 <= m <= 1 ->
  let st' := animate config audio st in
  (exists h' : R,
     hueShift st' = Fin h'
     /\ 0 < h' <= 1
     /\ (h' = h + (0.0002 + m * 0.001)
         \/ h' = h + (0.0002 + m * 0.001) - 1)
     /\ (h + (0.0002 + m * 0.001) <= 1 -> h' = h + (0.0002 + m * 0.001)))
  /\ cameraAngle st' = Fin (a + (0.001 + m * 0.005))
  /\ a < a + (0.001 + m * 0.005).
Proof.
  intros Hh Bh Ha Hm Bm st'.
  destruct (animate_refs config audio st) as [_ [_ [_ [Eh [Em [_ Ec]]]]]].
  fold st' in Eh, Ec. rewrite Hm in Em.
  symmetry in Em. rewrite Hh in Em, Eh.
  split; [| split].
  - rewrite Eh, (analysis_hue _ _ _ _ _ Em).
    assert (P : 0 <= m * 0.001 <= 0.001) by nra.
    destruct (Rlt_dec 1 (h + (0.0002 + m * 0.001))) as [Hgt | Hle].
    + exists (h + (0.0002 + m * 0.001) - 1).
      split; [reflexivity |]. split; [lra |].
      split; [right; reflexivity | intros; lra].
    + exists (h + (0.0002 + m * 0.001)).
      split; [reflexivity |]. split; [lra |].
      split; [left; reflexivity | intros; reflexivity].
  - rewrite Ec, Hh, Em, Ha. unfold cameraTarget.
    destruct (Math_random (random st)) as [r g']. cbn [fst]. js_fin.
    reflexivity.
  - nra.
Qed.

Lemma hue_and_camera_angle_advance_witness :
  let st := @initialScene OneColor DEFAULT_PRESET [] (constantRng 0) in
  cameraAngle (@animate OneColor DEFAULT_PRESET quiet st)
  = Fin (0 + (0.001 + 0 * 0.005)).
Proof.
  intros st.
  destruct (hue_and_camera_angle_advance OneColor DEFAULT_PRESET quiet st
              0 0 0) as [_ [E _]].
  - reflexivity.
  - lra.
  - reflexivity.
  - destruct (@animate_refs OneColor DEFAULT_PRESET quiet st)
      as [_ [_ [_ [_ [Em _]]]]].
    rewrite Em. apply quiet_mood.
  - lra.
  - exact E.
Defined.

(** ** The pointer's push *)

Lemma sqrt_Fin (r : R) : 0 <= r -> JS.sqrt (Fin r) = Fin (R_sqrt.sqrt r).
Proof. intros H. unfold JS.sqrt. destruct (Rlt_dec r 0); [lra | reflexivity]. Qed.

(** An instance exactly under the pointer: the distance is 0, the push
    divides 0 by 0, and both coordinates of the plane become [NaN]. *)
Lemma mouseRepulsion_under_pointer (mouse : Vector2) (p : Particle) (x y : R) :
  px p = Fin x -> py p = Fin y -> mouseWorld mouse = (Fin x, Fin y) ->
  mouseDist mouse p = Fin 0
  /\ mouseRepulsion mouse p
     = mkParticle NaN NaN (pz p) (pscale p * Fin 1.5)%js.
Proof.
  intros Hx Hy Hm. unfold mouseDist, mouseRepulsion.
  rewrite Hm, Hx, Hy. cbn [fst snd]. js_fin.
  replace ((x - x) * (x - x) + (y - y) * (y - y)) with 0 by ring.
  rewrite sqrt_Fin by lra. rewrite sqrt_0.
  split; [reflexivity |].
  rewrite lt_Fin_true by lra.
  rewrite !(div_zero_zero _ 0) by lra.
  reflexivity.
Qed.

(** The pointer farther than the radius: the instance stays where the
    mode put it. *)
Lemma mouseRepulsion_far (mouse : Vector2) (p : Particle) :
  (mouseDist mouse p <? Fin 10)%js = false -> mouseRepulsion mouse p = p.
Proof.
  unfold mouseDist, mouseRepulsion. intros H. rewrite H. reflexivity.
Qed.

(** C10.  In a mode with instances, an instance whose position in the
    plane is the pointer's is at distance 0, within the radius 10; its x
    and y after the push are [NaN], not a finite position. *)
Theorem instance_under_pointer_is_NaN
    (time : num) (cfg : VisualConfig) (audio : AudioData) (mood : num)
    (mouse : Vector2) (count i : nat) (g : Rng) (x y : R) :
  mode cfg <> Surface ->
  px (fst (modePosition time cfg audio mood count i g)) = Fin x ->
  py (fst (modePosition time cfg audio mood count i g)) = Fin y ->
  mouseWorld mouse = (Fin x, Fin y) ->
  let final := particlePosition time cfg audio mood mouse count i g in
  (mouseDist mouse (fst (modePosition time cfg audio mood count i g))
   <? Fin 10)%js = true
  /\ v3x final = NaN /\ v3y final = NaN
  /\ isFinite (v3x final) = false /\ isFinite (v3y final) = false.
Proof.
  intros _ Hx Hy Hm final.
  destruct (mouseRepulsion_under_pointer mouse _ x y Hx Hy Hm) as [Hd Hr].
  assert (E : v3x final = NaN /\ v3y final = NaN).
  { unfold final, particlePosition, particlePlacement, particleTransform.
    rewrite Hr. cbn. split; reflexivity. }
  destruct E as [Ex Ey].
  split; [rewrite Hd; apply lt_Fin_true; lra |].
  rewrite Ex, Ey. repeat split; reflexivity.
Qed.

(** ** The Ferrofluid mode *)

Lemma sin_Fin (x : R) : JS.sin (Fin x) = Fin (Rtrigo_def.sin x).
Proof. reflexivity. Qed.

Lemma cos_Fin (x : R) : JS.cos (Fin x) = Fin (Rtrigo_def.cos x).
Proof. reflexivity. Qed.

Lemma acos_Fin (r : R) : -1 <= r <= 1 -> JS.acos (Fin r) = Fin (Ratan.acos r).
Proof.
  intros H. unfold JS.acos.
  destruct (Rlt_dec r (-1)); [lra |]. destruct (Rlt_dec 1 r); [lra |].
  reflexivity.
Qed.

Lemma simpleNoise_Fin (x y z : R) :
  simpleNoise (Fin x) (Fin y) (Fin z) = Fin (noiseR x y z).
Proof. reflexivity. Qed.

#[local] Hint Rewrite sin_Fin cos_Fin simpleNoise_Fin : js.

Lemma noiseR_bound (x y z : R) : -3 <= noiseR x y z <= 3.
Proof.
  unfold noiseR.
  pose proof (SIN_bound x). pose proof (SIN_bound y). pose proof (SIN_bound z).
  pose proof (COS_bound x). pose proof (COS_bound y). pose proof (COS_bound z).
  split; nra.
Qed.

Lemma ratio_bounds (count i : nat) :
  (i < count)%nat ->
  0 < IZR (Z.of_nat count)
  /\ 0 <= IZR (Z.of_nat i) / IZR (Z.of_nat count) < 1.
Proof.
  intros H.
  assert (Hc : 0 < IZR (Z.of_nat count)) by (apply IZR_lt; lia).
  assert (Hi : 0 <= IZR (Z.of_nat i)) by (apply IZR_le; lia).
  assert (Hlt : IZR (Z.of_nat i) < IZR (Z.of_nat count)) by (apply IZR_lt; lia).
  split; [exact Hc |]. split.
  - apply Rmult_le_pos; [exact Hi | apply Rlt_le, Rinv_0_lt_compat, Hc].
  - apply Rmult_lt_reg_r with (IZR (Z.of_nat count)); [exact Hc |].
    unfold Rdiv. rewrite Rmult_assoc, Rinv_l by lra. lra.
Qed.

(** The Ferrofluid branch on finite inputs: the point of the unit sphere
    times the displacement. *)
Lemma ferrofluid_modePosition
    (T b m : R) (cfg : VisualConfig) (audio : AudioData) (count i : nat)
    (g : Rng) :
  mode cfg = Ferrofluid -> bass audio = Fin b -> (i < count)%nat ->
  let p := fst (modePosition (Fin T) cfg audio (Fin m) count i g) in
  px p = Fin (ferroSx count i * ferroDisplacement T b m count i)
  /\ py p = Fin (ferroSy count i * ferroDisplacement T b m count i)
  /\ pz p = Fin (ferroSz count i * ferroDisplacement T b m count i).
Proof.
  intros Hmode Hb Hi.
  destruct (ratio_bounds count i Hi) as [Hc Hr].
  unfold modePosition. rewrite Hmode, Hb. cbn [fst px py pz].
  unfold ofNat, JS.PI. rewrite sqrt_Fin by lra. js_fin.
  rewrite acos_Fin by lra. js_fin.
  repeat split; reflexivity.
Qed.

Lemma ferro_direction_unit (count i : nat) :
  ferroSx count i * ferroSx count i + ferroSy count i * ferroSy count i
  + ferroSz count i * ferroSz count i = 1.
Proof.
  unfold ferroSx, ferroSy, ferroSz.
  pose proof (sin2_cos2 (ferroInclination count i)) as HI.
  pose proof (sin2_cos2 (ferroAzimuth i)) as HA.
  unfold Rsqr in HI, HA.
  set (si := Rtrigo_def.sin (ferroInclination count i)) in *.
  set (ci := Rtrigo_def.cos (ferroInclination count i)) in *.
  set (sa := Rtrigo_def.sin (ferroAzimuth i)) in *.
  set (ca := Rtrigo_def.cos (ferroAzimuth i)) in *.
  replace (si * ca * (si * ca) + si * sa * (si * sa) + ci * ci)
    with (si * si * (sa * sa + ca * ca) + ci * ci) by ring.
  rewrite HA. lra.
Qed.

Lemma ferroSpike_nonneg (T : R) (count i : nat) : 0 <= ferroSpike T count i.
Proof. unfold ferroSpike. apply Rmax_l. Qed.

Lemma ferroDisplacement_lower (T b m : R) (count i : nat) :
  0 <= b -> 0 <= m -> 12 <= ferroDisplacement T b m count i.
Proof.
  intros Hb Hm. unfold ferroDisplacement.
  pose proof (ferroSpike_nonneg T count i) as Hs.
  assert (0 <= b / 255 * 8) by (unfold Rdiv; nra).
  assert (0 <= ferroSpike T count i * (4 + b / 255 * 8)) by nra.
  nra.
Qed.

Lemma particlePosition_far
    (time : num) (cfg : VisualConfig) (audio : AudioData) (mood : num)
    (mouse : Vector2) (count i : nat) (g : Rng) :
  let p := fst (modePosition time cfg audio mood count i g) in
  (mouseDist mouse p <? Fin 10)%js = false ->
  particlePosition time cfg audio mood mouse count i g
  = mkVector3 (px p) (py p) (pz p).
Proof.
  intros p H. unfold particlePosition, particlePlacement, particleTransform.
  fold p. rewrite (mouseRepulsion_far _ _ H). reflexivity.
Qed.

(** C3, amended.  In Ferrofluid mode, on finite inputs with a bass in
    [0,255] and a mood in [0,1], the spike is clamped at 0, so the
    displacement is never below the base radius 12 and the position the
    mode computes lies at that distance from the origin.  An instance the
    pointer does not reach (farther than 10 in the plane) keeps that
    position; what the pointer's push does to the others is not bounded
    by the sphere. *)
Theorem ferrofluid_displacement_never_inward
    (T b m : R) (cfg : VisualConfig) (audio : AudioData) (mouse : Vector2)
    (count i : nat) (g : Rng) :
  mode cfg = Ferrofluid -> bass audio = Fin b ->
  0 <= b <= 255 -> 0 <= m <= 1 -> (i < count)%nat ->
  let p := fst (modePosition (Fin T) cfg audio (Fin m) count i g) in
  let d := ferroDisplacement T b m count i in
  0 <= ferroSpike T count i
  /\ 0 <= d - 12
  /\ normSquared (mkVector3 (px p) (py p) (pz p)) = Fin (d * d)
  /\ ((mouseDist mouse p <? Fin 10)%js = false ->
      normSquared (particlePosition (Fin T) cfg audio (Fin m) mouse count i g)
      = Fin (d * d)).
Proof.
  intros Hmode Hb Bb Bm Hi p d.
  destruct (ferrofluid_modePosition T b m cfg audio count i g Hmode Hb Hi)
    as [Ex [Ey Ez]].
  fold p in Ex, Ey, Ez. fold d in Ex, Ey, Ez.
  assert (Hn : normSquared (mkVector3 (px p) (py p) (pz p)) = Fin (d * d)).
  { unfold normSquared. cbn [v3x v3y v3z]. rewrite Ex, Ey, Ez. js_fin.
    f_equal. pose proof (ferro_direction_unit count i) as U.
    set (sx := ferroSx count i) in *. set (sy := ferroSy count i) in *.
    set (sz := ferroSz count i) in *.
    replace (sx * d * (sx * d) + sy * d * (sy * d) + sz * d * (sz * d))
      with ((sx * sx + sy * sy + sz * sz) * (d * d)) by ring.
    rewrite U. ring. }
  split; [apply ferroSpike_nonneg |].
  split; [pose proof (ferroDisplacement_lower T b m count i); unfold d; lra |].
  split; [exact Hn |].
  intros Hfar. rewrite (particlePosition_far _ _ _ _ _ _ _ _ Hfar). exact Hn.
Qed.

Lemma ferrofluid_displacement_never_inward_witness :
  0 <= ferroDisplacement 0 0 0 PARTICLE_COUNT 0 - 12
  /\ normSquared
       (let p := fst (modePosition (Fin 0) INITIAL_CONFIG quiet (Fin 0)
                                   PARTICLE_COUNT 0 (constantRng 0)) in
        mkVector3 (px p) (py p) (pz p))
     = Fin (ferroDisplacement 0 0 0 PARTICLE_COUNT 0
            * ferroDisplacement 0 0 0 PARTICLE_COUNT 0).
Proof.
  destruct (ferrofluid_displacement_never_inward 0 0 0 INITIAL_CONFIG quiet
              (mkVector2 (Fin 0) (Fin 0)) PARTICLE_COUNT 0 (constantRng 0))
    as [_ [H1 [H2 _]]].
  - reflexivity.
  - reflexivity.
  - lra.
  - lra.
  - unfold PARTICLE_COUNT. lia.
  - split; [exact H1 | exact H2].
Defined.

(** The instance half way down the sphere points along its azimuth. *)
Lemma equator_direction :
  ferroSx PARTICLE_COUNT equatorInstance
  = Rtrigo_def.cos (ferroAzimuth equatorInstance)
  /\ ferroSy PARTICLE_COUNT equatorInstance
     = Rtrigo_def.sin (ferroAzimuth equatorInstance)
  /\ ferroSz PARTICLE_COUNT equatorInstance = 0.
Proof.
  assert (E : ferroInclination PARTICLE_COUNT equatorInstance
              = Rtrigo1.PI / 2).
  { unfold ferroInclination, PARTICLE_COUNT, equatorInstance.
    change (Z.of_nat 1250) with 1250%Z. change (Z.of_nat 2500) with 2500%Z.
    replace (1 - 2 * (1250 / 2500)) with 0 by lra. apply acos_0. }
  unfold ferroSx, ferroSy, ferroSz. rewrite E, sin_PI2, cos_PI2.
  repeat split; ring.
Qed.

Lemma flat_spike : ferroSpike flatTime PARTICLE_COUNT equatorInstance = 0.
Proof.
  unfold ferroSpike.
  destruct equator_direction as [Ex [Ey Ez]]. rewrite Ex, Ey, Ez.
  set (ca := Rtrigo_def.cos (ferroAzimuth equatorInstance)).
  set (sa := Rtrigo_def.sin (ferroAzimuth equatorInstance)).
  apply Rmax_left.
  assert (N1 : noiseR (ca * 3 + flatTime) (sa * 3 + flatTime) (0 * 3) = -1).
  { unfold noiseR, flatTime. fold sa.
    replace (sa * 3 + (3 * (Rtrigo1.PI / 2) - 3 * sa))
      with (3 * (Rtrigo1.PI / 2)) by ring.
    replace (0 * 3) with 0 by ring.
    rewrite sin_3PI2, cos_3PI2, sin_0, cos_0. ring. }
  rewrite N1.
  assert (N2 : noiseR (ca * 10) (sa * 10 + flatTime * 2) (0 * 10) <= 2).
  { unfold noiseR. replace (0 * 10) with 0 by ring. rewrite sin_0, cos_0.
    pose proof (SIN_bound (ca * 10)). pose proof (COS_bound (ca * 10)).
    pose proof (SIN_bound (sa * 10 + flatTime * 2)).
    pose proof (COS_bound (sa * 10 + flatTime * 2)). nra. }
  lra.
Qed.

(** C3, as the code has it.  With the default count of 2500, no sound and
    a mood of 0, the instance on the equator sits at distance 12 at a time
    when its spike is flat; a pointer one unit beyond it pushes it back by
    4.5, to distance 7.5 from the origin: strictly inside the sphere of
    radius 12. *)
Lemma pointer_pushes_instance_inside_sphere :
  let final :=
    particlePosition (Fin flatTime) INITIAL_CONFIG quiet (Fin 0)
                     pointerBeyond PARTICLE_COUNT equatorInstance
                     (constantRng 0) in
  normSquared final = Fin (7.5 * 7.5) /\ 7.5 * 7.5 < 12 * 12.
Proof.
  intros final. split; [| lra].
  destruct (ferrofluid_modePosition flatTime 0 0 INITIAL_CONFIG quiet
              PARTICLE_COUNT equatorInstance (constantRng 0)
              eq_refl eq_refl ltac:(unfold PARTICLE_COUNT, equatorInstance; lia))
    as [Ex [Ey Ez]].
  assert (D : ferroDisplacement flatTime 0 0 PARTICLE_COUNT equatorInstance
              = 12).
  { unfold ferroDisplacement. rewrite flat_spike. lra. }
  rewrite D in Ex, Ey, Ez.
  destruct equator_direction as [Sx [Sy Sz]]. rewrite Sx in Ex. rewrite Sy in Ey.
  rewrite Sz in Ez.
  pose proof (sin2_cos2 (ferroAzimuth equatorInstance)) as U. unfold Rsqr in U.
  unfold final, particlePosition, particlePlacement, particleTransform,
    mouseRepulsion, mouseWorld, pointerBeyond.
  set (p := fst (modePosition (Fin flatTime) INITIAL_CONFIG quiet (Fin 0)
                              PARTICLE_COUNT equatorInstance (constantRng 0)))
    in *.
  cbn [v2x v2y fst snd]. rewrite Ex, Ey.
  set (ca := Rtrigo_def.cos (ferroAzimuth equatorInstance)) in *.
  set (sa := Rtrigo_def.sin (ferroAzimuth equatorInstance)) in *.
  js_fin.
  replace ((ca * 12 - 0.65 * ca * 20) * (ca * 12 - 0.65 * ca * 20)
           + (sa * 12 - 0.65 * sa * 20) * (sa * 12 - 0.65 * sa * 20))
    with 1 by nra.
  rewrite sqrt_Fin by lra. rewrite sqrt_1.
  rewrite lt_Fin_true by lra. js_fin.
  cbn [px py pz pscale position v3x v3y v3z normSquared].
  unfold normSquared. cbn [v3x v3y v3z]. rewrite Ez. js_fin.
  f_equal. nra.
Qed.

(** ** The Grid mode *)

Lemma Zfloor_div (a b : Z) :
  (0 < b)%Z -> Zfloor (IZR a / IZR b) = (a / b)%Z.
Proof.
  intros Hb. apply Zfloor_eq.
  pose proof (Z.div_mod a b ltac:(lia)) as E.
  pose proof (Z.mod_pos_bound a b Hb) as B.
  assert (Hb' : 0 < IZR b) by (apply IZR_lt; lia).
  assert (EI : IZR a = IZR b * IZR (a / b) + IZR (a mod b)).
  { rewrite E at 1. rewrite plus_IZR, mult_IZR. reflexivity. }
  assert (B0 : 0 <= IZR (a mod b)) by (apply IZR_le; lia).
  assert (B1 : IZR (a mod b) + 1 <= IZR b).
  { rewrite <- (plus_IZR _ 1). apply IZR_le. lia. }
  assert (Q : IZR a / IZR b = IZR (a / b) + IZR (a mod b) / IZR b).
  { rewrite EI. field. lra. }
  assert (F : 0 <= IZR (a mod b) / IZR b < 1).
  { split.
    - apply Rmult_le_pos; [exact B0 | apply Rlt_le, Rinv_0_lt_compat, Hb'].
    - apply Rmult_lt_reg_r with (IZR b); [exact Hb' |].
      unfold Rdiv. rewrite Rmult_assoc, Rinv_l by lra. lra. }
  lra.
Qed.

Lemma Ztrunc_nonneg (r : R) : 0 <= r -> Ztrunc r = Zfloor r.
Proof. intros H. unfold Ztrunc. destruct (Rlt_dec r 0); [lra | reflexivity]. Qed.

Lemma div_ofNat (i g : nat) :
  (0 < g)%nat ->
  (ofNat i / ofNat g)%js = Fin (IZR (Z.of_nat i) / IZR (Z.of_nat g)).
Proof. intros H. apply div_Fin, not_0_IZR. lia. Qed.

Lemma ratio_nonneg (i g : nat) :
  (0 < g)%nat -> 0 <= IZR (Z.of_nat i) / IZR (Z.of_nat g).
Proof.
  intros H. apply Rmult_le_pos; [apply IZR_le; lia |].
  apply Rlt_le, Rinv_0_lt_compat, IZR_lt. lia.
Qed.

(** [i % g] on whole numbers. *)
Lemma rem_ofNat (i g : nat) :
  (0 < g)%nat -> (ofNat i %% ofNat g)%js = ofNat (i mod g).
Proof.
  intros H. unfold rem, ofNat.
  rewrite Rsgn_pos by (apply IZR_lt; lia).
  rewrite Ztrunc_nonneg by (apply ratio_nonneg; exact H).
  rewrite Zfloor_div by lia. f_equal.
  rewrite Nat2Z.inj_mod, Z.mod_eq by lia.
  rewrite minus_IZR, mult_IZR. reflexivity.
Qed.

(** [Math.floor(i / g)] on whole numbers. *)
Lemma floor_div_ofNat (i g : nat) :
  (0 < g)%nat -> floor (ofNat i / ofNat g)%js = ofNat (i / g).
Proof.
  intros H. rewrite div_ofNat by exact H. unfold floor, ofNat.
  rewrite Zfloor_div by lia. rewrite Nat2Z.inj_div. reflexivity.
Qed.

(** [Math.floor((i / g) % g)] on whole numbers. *)
Lemma floor_rem_div_ofNat (i g : nat) :
  (0 < g)%nat ->
  floor ((ofNat i / ofNat g) %% ofNat g)%js = ofNat ((i / g) mod g).
Proof.
  intros H. rewrite div_ofNat by exact H. unfold rem, floor, ofNat.
  assert (Hg : 0 < IZR (Z.of_nat g)) by (apply IZR_lt; lia).
  rewrite (Rsgn_pos _ Hg).
  assert (Q : IZR (Z.of_nat i) / IZR (Z.of_nat g) / IZR (Z.of_nat g)
              = IZR (Z.of_nat i) / IZR (Z.of_nat g * Z.of_nat g)).
  { rewrite mult_IZR. field. lra. }
  rewrite Ztrunc_nonneg.
  2:{ rewrite Q. rewrite <- Nat2Z.inj_mul. apply ratio_nonneg. nia. }
  rewrite Q, Zfloor_div by nia.
  f_equal. f_equal.
  rewrite Nat2Z.inj_mod, Nat2Z.inj_div, Z.mod_eq by lia.
  rewrite Z.div_div by lia.
  set (k := (Z.of_nat i / (Z.of_nat g * Z.of_nat g))%Z).
  apply Zfloor_eq. rewrite minus_IZR, mult_IZR.
  pose proof (Zfloor_bound (IZR (Z.of_nat i) / IZR (Z.of_nat g))) as B.
  rewrite Zfloor_div in B by lia. lra.
Qed.

Lemma cube_root_of_eight : Rpower 8 (1 / 3) = 2.
Proof.
  unfold Rpower. replace 8 with (2 * (2 * 2)) by lra.
  rewrite !ln_mult by lra.
  replace (1 / 3 * (ln 2 + (ln 2 + ln 2))) with (ln 2) by lra.
  apply exp_ln. lra.
Qed.

(** [Math.ceil(Math.pow(8, 1/3))] is 2. *)
Lemma gridSize_of_eight :
  ceil (pow (ofNat 8) (Fin 1 / Fin 3)%js) = ofNat 2.
Proof.
  rewrite div_Fin by lra. unfold pow, ofNat.
  rewrite (Rsgn_pos (1 / 3)) by lra.
  change (Z.of_nat 8) with 8%Z. rewrite (Rsgn_pos 8) by lra.
  assert (F : Zfloor (1 / 3) = 0%Z) by (apply Zfloor_eq; lra).
  assert (I : isInteger (1 / 3) = false).
  { unfold isInteger. rewrite F. destruct (Req_dec_T 0 (1 / 3)); [lra |].
    reflexivity. }
  assert (C : Zfloor (Ropp 2) = (-2)%Z) by (apply Zfloor_eq; lra).
  rewrite I, cube_root_of_eight. unfold ceil, Zceil. rewrite C. reflexivity.
Qed.

Lemma ofNat_mul (a b : nat) : (ofNat a * ofNat b)%js = ofNat (a * b).
Proof. unfold ofNat. rewrite mul_Fin, Nat2Z.inj_mul, mult_IZR. reflexivity. Qed.

(** The Grid branch for 8 instances, without bass and with a mood of 0:
    the spacing is 3, the offset 3, no draw is taken. *)
Lemma grid_modePosition
    (time : num) (cfg : VisualConfig) (audio : AudioData) (g : Rng)
    (i a b c : nat) :
  mode cfg = Grid -> bass audio = Fin 0 ->
  (i mod 2 = a)%nat -> ((i / 2) mod 2 = b)%nat -> (i / 4 = c)%nat ->
  snd (modePosition time cfg audio (Fin 0) 8 i g) = g
  /\ modePoint time cfg audio (Fin 0) 8 i g
     = mkVector3 (Fin (IZR (Z.of_nat a) * 3 - 3))
                 (Fin (IZR (Z.of_nat b) * 3 - 3))
                 (Fin (IZR (Z.of_nat c) * 3 - 3)).
Proof.
  intros Hmode Hb Ha Hb' Hc.
  unfold modePoint, modePosition. rewrite Hmode, Hb, gridSize_of_eight.
  assert (J : (Fin 0 >? Fin 0.7)%js = false) by (apply lt_Fin_false; lra).
  rewrite J. cbn [fst snd px py pz].
  split; [reflexivity |].
  rewrite ofNat_mul, rem_ofNat, floor_rem_div_ofNat, floor_div_ofNat by lia.
  change (2 * 2)%nat with 4%nat. rewrite Ha, Hb', Hc.
  unfold ofNat. change (Z.of_nat 2) with 2%Z. js_fin.
  f_equal; f_equal; lra.
Qed.

Lemma mouseRepulsion_pz (mouse : Vector2) (p : Particle) :
  pz (mouseRepulsion mouse p) = pz p.
Proof.
  unfold mouseRepulsion. destruct (lt _ _); reflexivity.
Qed.

Lemma particlePosition_z
    (time : num) (cfg : VisualConfig) (audio : AudioData) (mood : num)
    (mouse : Vector2) (count i : nat) (g : Rng) :
  v3z (particlePosition time cfg audio mood mouse count i g)
  = v3z (modePoint time cfg audio mood count i g).
Proof.
  unfold particlePosition, particlePlacement, particleTransform, modePoint.
  cbn [position v3z pz]. apply mouseRepulsion_pz.
Qed.

(** C5, as the code has it.  The first of the 8 instances has z = -3,
    whatever the pointer does to its x and y: it is no corner of the cube
    of side 3 centred at the origin, whose corners have coordinates 1.5
    and -1.5. *)
Lemma grid_cube_is_not_centred :
  let final :=
    particlePosition (Fin 0) gridPreset quiet (Fin 0)
                     (mkVector2 (Fin 0) (Fin 0)) 8 0 (constantRng 0) in
  v3z final = Fin (-3) /\ ~ isCentredCubeCorner 3 final.
Proof.
  intros final.
  assert (E : v3z final = Fin (-3)).
  { unfold final. rewrite particlePosition_z.
    destruct (grid_modePosition (Fin 0) gridPreset quiet (constantRng 0)
                0 0 0 0 eq_refl eq_refl eq_refl eq_refl eq_refl) as [_ P].
    rewrite P. cbn [v3z]. change (Z.of_nat 0) with 0%Z. f_equal. lra. }
  split; [exact E |].
  intros [_ [_ [H | H]]]; rewrite E in H; injection H as H; lra.
Qed.

(** C5, amended.  In Grid mode with 8 instances, no bass and a mood of 0,
    the positions the mode computes are exactly the 8 corners of the
    axis-aligned cube of side 3 whose coordinates are -3 or 0 (the origin
    is one of its corners, not its centre); no random jitter is applied,
    since the mood is not above 0.7 and no draw is taken; an instance
    farther than 10 from the pointer keeps that position. *)
Theorem grid_of_eight_is_cube_of_side_three
    (time : num) (cfg : VisualConfig) (audio : AudioData) (g : Rng) :
  mode cfg = Grid -> bass audio = Fin 0 ->
  map (fun i => modePoint time cfg audio (Fin 0) 8 i g) (seq 0 8)
  = gridCorners
  /\ (forall i : nat, (i < 8)%nat ->
        snd (modePosition time cfg audio (Fin 0) 8 i g) = g)
  /\ (forall (mouse : Vector2) (i : nat),
        (mouseDist mouse (fst (modePosition time cfg audio (Fin 0) 8 i g))
         <? Fin 10)%js = false ->
        particlePosition time cfg audio (Fin 0) mouse 8 i g
        = modePoint time cfg audio (Fin 0) 8 i g).
Proof.
  intros Hmode Hb. split; [| split].
  - cbn [map seq]. unfold gridCorners.
    repeat match goal with
    | |- context [modePoint time cfg audio (Fin 0) 8 ?i g] =>
        let a := eval compute in (i mod 2)%nat in
        let b := eval compute in ((i / 2) mod 2)%nat in
        let c := eval compute in (i / 4)%nat in
        rewrite (proj2 (grid_modePosition time cfg audio g i a b c Hmode Hb
                          eq_refl eq_refl eq_refl))
    end.
    change (Z.of_nat 0) with 0%Z. change (Z.of_nat 1) with 1%Z.
    replace (0 * 3 - 3) with (-3) by lra. replace (1 * 3 - 3) with 0 by lra.
    reflexivity.
  - intros i Hi.
    apply (proj1 (grid_modePosition time cfg audio g i _ _ _ Hmode Hb
                    eq_refl eq_refl eq_refl)).
  - intros mouse i Hfar. apply particlePosition_far. exact Hfar.
Qed.

Lemma grid_of_eight_is_cube_of_side_three_witness :
  map (fun i => modePoint (Fin 0) gridPreset quiet (Fin 0) 8 i (constantRng 0))
      (seq 0 8)
  = gridCorners.
Proof.
  apply (grid_of_eight_is_cube_of_side_three (Fin 0) gridPreset quiet
           (constantRng 0)); reflexivity.
Defined.

(** ** The Surface mode *)

Lemma Float32_set_length (a : list num) (k : nat) (v : num) :
  List.length (Float32_set a k v) = List.length a.
Proof.
  revert k. induction a as [| w rest IH]; intros [| k]; cbn; try reflexivity.
  rewrite IH. reflexivity.
Qed.

Lemma Float32_get_set_same (a : list num) (k : nat) (v : num) :
  (k < List.length a)%nat -> Float32_get (Float32_set a k v) k = v.
Proof.
  revert k. induction a as [| w rest IH]; intros [| k] H; cbn in *; try lia.
  - reflexivity.
  - apply IH. lia.
Qed.

Lemma Float32_get_set_other (a : list num) (k j : nat) (v : num) :
  j <> k -> Float32_get (Float32_set a k v) j = Float32_get a j.
Proof.
  revert k j. induction a as [| w rest IH]; intros [| k] [| j] H; cbn;
    try reflexivity; try lia.
  apply IH. lia.
Qed.

Lemma setXYZ_length (a : list num) (i : nat) (x y z : num) :
  List.length (setXYZ a i x y z) = List.length a.
Proof. unfold setXYZ. rewrite !Float32_set_length. reflexivity. Qed.

Lemma setXYZ_same (a : list num) (i : nat) (x y z : num) :
  (i * 3 + 2 < List.length a)%nat ->
  Float32_get (setXYZ a i x y z) (i * 3) = x
  /\ Float32_get (setXYZ a i x y z) (i * 3 + 1) = y
  /\ Float32_get (setXYZ a i x y z) (i * 3 + 2) = z.
Proof.
  intros H. unfold setXYZ. repeat split.
  - rewrite !Float32_get_set_other by lia.
    apply Float32_get_set_same. lia.
  - rewrite Float32_get_set_other by lia.
    apply Float32_get_set_same. rewrite Float32_set_length. lia.
  - apply Float32_get_set_same. rewrite !Float32_set_length. lia.
Qed.

Lemma setXYZ_other (a : list num) (i j : nat) (x y z : num) :
  (j < i * 3 \/ i * 3 + 2 < j)%nat ->
  Float32_get (setXYZ a i x y z) j = Float32_get a j.
Proof.
  intros H. unfold setXYZ. rewrite !Float32_get_set_other by lia. reflexivity.
Qed.

(** The vertex loop up to vertex [k]: the rest positions are untouched,
    the live array keeps its length, and each vertex done is its rest
    vertex times its [totalScale]. *)
Lemma deformSurface_loop
    (time : num) (cfg : VisualConfig) (audio : AudioData) (mood : num)
    (mouse : Vector2) (positions originalPos : list num) (k : nat) :
  (k * 3 <= List.length positions)%nat ->
  let r := fold_left (deformVertex time cfg audio mood mouse) (seq 0 k)
                     (positions, originalPos) in
  snd r = originalPos
  /\ List.length (fst r) = List.length positions
  /\ forall i c : nat, (i < k)%nat -> (c < 3)%nat ->
       Float32_get (fst r) (i * 3 + c)
       = (Float32_get originalPos (i * 3 + c)
          * totalScale time cfg audio mood mouse originalPos i)%js.
Proof.
  induction k as [| k IH]; intros Hk r.
  - cbn in r. subst r. cbn [fst snd]. repeat split; intros; lia.
  - unfold r. rewrite seq_S, fold_left_app. cbn [fold_left Nat.add].
    destruct (IH ltac:(lia)) as [Ho [Hl Hv]].
    destruct (fold_left (deformVertex time cfg audio mood mouse) (seq 0 k)
                        (positions, originalPos)) as [pos orig].
    cbn [fst snd] in Ho, Hl, Hv. subst orig.
    unfold deformVertex. cbn [fst snd].
    split; [reflexivity |]. split; [rewrite setXYZ_length; exact Hl |].
    intros i c Hi Hc.
    destruct (Nat.eq_dec i k) as [E | E].
    + subst i.
      destruct (setXYZ_same pos k
                  (Float32_get originalPos (k * 3)
                   * totalScale time cfg audio mood mouse originalPos k)%js
                  (Float32_get originalPos (k * 3 + 1)
                   * totalScale time cfg audio mood mouse originalPos k)%js
                  (Float32_get originalPos (k * 3 + 2)
                   * totalScale time cfg audio mood mouse originalPos k)%js
                  ltac:(lia)) as [E0 [E1 E2]].
      destruct c as [| [| [| c]]]; try lia.
      * rewrite Nat.add_0_r. exact E0.
      * exact E1.
      * exact E2.
    + rewrite setXYZ_other by lia. apply Hv; lia.
Qed.

Lemma deformSurface_spec
    (time : num) (cfg : VisualConfig) (audio : AudioData) (mood : num)
    (mouse : Vector2) (positions originalPos : list num) :
  let r := deformSurface time cfg audio mood mouse positions originalPos in
  snd r = originalPos
  /\ List.length (fst r) = List.length positions
  /\ forall i c : nat, (i < List.length positions / 3)%nat -> (c < 3)%nat ->
       Float32_get (fst r) (i * 3 + c)
       = (Float32_get originalPos (i * 3 + c)
          * totalScale time cfg audio mood mouse originalPos i)%js.
Proof.
  unfold deformSurface. apply deformSurface_loop.
  pose proof (Nat.div_mod_eq (List.length positions) 3). lia.
Qed.

Lemma isInteger_IZR (z : Z) : isInteger (IZR z) = true.
Proof.
  unfold isInteger. rewrite Zfloor_IZR.
  destruct (Req_dec_T (IZR z) (IZR z)); [reflexivity | contradiction].
Qed.

Lemma Uint8_get_ofNat (data : list Z) (k : nat) :
  (k < List.length data)%nat ->
  Uint8_get data (ofNat k) = Some (ofZ (nth k data 0%Z)).
Proof.
  intros H. unfold Uint8_get, ofNat.
  rewrite isInteger_IZR, Zfloor_IZR.
  replace (0 <=? Z.of_nat k)%Z with true by (symmetry; apply Z.leb_le; lia).
  cbn [andb]. rewrite Nat2Z.id.
  rewrite (nth_error_nth' data 0%Z H). reflexivity.
Qed.

Lemma pow_two (a : R) : pow (Fin a) (Fin 2) = Fin (a * a).
Proof.
  unfold pow. rewrite (Rsgn_pos 2) by lra.
  change 2 with (IZR 2) at 1 2 3. rewrite isInteger_IZR, Zfloor_IZR.
  destruct (Rtotal_order a 0) as [H | [H | H]].
  - rewrite (Rsgn_neg _ H). f_equal. unfold powerRZ.
    change (Pos.to_nat 2) with 2%nat. ring.
  - rewrite (Rsgn_zero _ H). f_equal. rewrite H. ring.
  - rewrite (Rsgn_pos _ H). f_equal. unfold powerRZ.
    change (Pos.to_nat 2) with 2%nat. ring.
Qed.

(** On finite inputs, with a sensitivity that is not negative, a mood in
    [0,1] and a spectrum of at least one byte, the factor of a vertex is
    a number of at least 0.4: the vertex keeps its direction. *)
Lemma totalScale_positive
    (T m sens mx my ox oy oz : R) (cfg : VisualConfig) (audio : AudioData)
    (originalPos : list num) (i : nat) :
  sensitivity cfg = Fin sens -> 0 <= sens -> 0 <= m <= 1 ->
  frequencyData audio <> [] -> Forall isByte (frequencyData audio) ->
  Float32_get originalPos (i * 3) = Fin ox ->
  Float32_get originalPos (i * 3 + 1) = Fin oy ->
  Float32_get originalPos (i * 3 + 2) = Fin oz ->
  exists s : R,
    totalScale (Fin T) cfg audio (Fin m) (mkVector2 (Fin mx) (Fin my))
               originalPos i = Fin s
    /\ 0.4 <= s.
Proof.
  intros Hs Ps Pm Hne Hbytes Hox Hoy Hoz.
  unfold totalScale. rewrite Hs, Hox, Hoy, Hoz. cbn [v2x v2y].
  set (data := frequencyData audio) in *.
  assert (Hlen : (0 < List.length data)%nat).
  { destruct data; [contradiction | cbn; lia]. }
  rewrite rem_ofNat by exact Hlen.
  pose proof (Nat.mod_upper_bound i (List.length data) ltac:(lia)) as Hk.
  rewrite (Uint8_get_ofNat data _ Hk). cbn [toNumber]. unfold ofZ.
  set (v := nth (i mod List.length data) data 0%Z).
  assert (Hv : 0 <= IZR v).
  { apply (IZR_le 0). rewrite Forall_forall in Hbytes.
    apply (Hbytes v). apply nth_In. exact Hk. }
  js_fin. rewrite !pow_two. js_fin.
  set (q := (ox - mx * 15) * (ox - mx * 15) + (oy - my * 15) * (oy - my * 15)).
  assert (Hq : 0 <= q).
  { pose proof (Rle_0_sqr (ox - mx * 15)) as Q1.
    pose proof (Rle_0_sqr (oy - my * 15)) as Q2.
    unfold Rsqr in Q1, Q2. unfold q. lra. }
  rewrite sqrt_Fin by exact Hq.
  pose proof (sqrt_pos q) as Hd.
  pose proof (noiseR_bound (ox * 0.2 + T) (oy * 0.2 + T) (oz * 0.2)) as Hn.
  set (n := noiseR (ox * 0.2 + T) (oy * 0.2 + T) (oz * 0.2)) in *.
  assert (Hf : 0 <= IZR v / 255.0 * 0.5 * sens).
  { assert (0 <= IZR v / 255.0) by (unfold Rdiv; nra). nra. }
  assert (Hm : -0.6 <= n * 0.2 * m) by nra.
  unfold lt, Rltb. destruct (Rlt_dec (R_sqrt.sqrt q) 8) as [Hnear | Hfar].
  - js_fin. eexists. split; [reflexivity |]. lra.
  - js_fin. eexists. split; [reflexivity |]. lra.
Qed.



(** ** Reproducibility of a tick *)

Lemma silence_bands (n : nat) :
  (10 <= n)%nat ->
  silence n = mkAudioData (repeat 0%Z n) (Fin 0) (Fin 0) (Fin 0) (Fin 0).
Proof.
  intros Hn. unfold silence.
  pose proof (Nat.div_mod_eq n 10) as E10. pose proof (Nat.div_mod_eq n 2) as E2.
  pose proof (Nat.mod_upper_bound n 10 ltac:(lia)) as B10.
  pose proof (Nat.mod_upper_bound n 2 ltac:(lia)) as B2.
  rewrite analyse_band_averages, repeat_length.
  rewrite skipn_repeat, !firstn_repeat, skipn_repeat.
  rewrite !bandAverage_repeat by lia. reflexivity.
Qed.

(** Without sound and with the trackers at 0, the mood and the normalised
    bass of the frame are 0. *)
Lemma still_signals (audio : AudioData) (h : num) :
  bass audio = Fin 0 -> mid audio = Fin 0 -> treble audio = Fin 0 ->
  mood (analysis audio (Fin 0) (Fin 0) h) = Fin 0
  /\ normalizedBass (analysis audio (Fin 0) (Fin 0) h) = Fin 0.
Proof.
  intros Hb Hm Ht.
  destruct (analysis_finite audio 0 0 0 0 0 h Hb Hm Ht) as [_ [_ [E3 E4]]].
  rewrite E3, E4. split; f_equal.
  - replace ((0 + ((0 + 0 + 0) / (255 * 3) - 0) * 0.02) * 1.5) with 0 by lra.
    rewrite Rmin_right by lra. apply Rmax_left. lra.
  - replace ((0 + (0 - 0) * 0.15) / 255) with 0 by lra.
    apply Rmin_left. lra.
Qed.

Lemma silence_short_bass (n : nat) : (n < 10)%nat -> bass (silence n) = NaN.
Proof.
  intros Hn. unfold silence. rewrite analyse_band_averages, repeat_length.
  cbn [bass]. rewrite (Nat.div_small n 10 Hn). apply bandAverage_nil.
Qed.

(** A band that is not a number leaves a mood that is not a number. *)
Lemma undefined_signals (audio : AudioData) (h : num) :
  bass audio = NaN -> mood (analysis audio (Fin 0) (Fin 0) h) = NaN.
Proof.
  intros Hb. unfold analysis. rewrite Hb. reflexivity.
Qed.

Lemma add_NaN_r (a : num) : (a + NaN)%js = NaN.
Proof. destruct a; reflexivity. Qed.

Lemma mul_NaN_r (a : num) : (a * NaN)%js = NaN.
Proof. destruct a; reflexivity. Qed.

(** With a mood and a normalised bass of 0 the shake of the camera
    vanishes; with a mood that is not a number the height of the target
    is not a number whatever the draw.  Either way the draw does not show
    in the target. *)
Lemma cameraTarget_still
    (time : num) (mouse : Vector2) (angle md nb : num) (g1 g2 : Rng) :
  noShake md nb ->
  fst (cameraTarget time mouse angle nb md g1)
  = fst (cameraTarget time mouse angle nb md g2).
Proof.
  intros [[Hm Hn] | Hm]; unfold cameraTarget, Math_random; cbn [fst].
  - rewrite Hm, Hn. js_fin.
    replace ((draws g1 (cursor g1) - 0.5) * 0 * 0 * 2) with 0 by ring.
    replace ((draws g2 (cursor g2) - 0.5) * 0 * 0 * 2) with 0 by ring.
    reflexivity.
  - rewrite Hm. rewrite !mul_NaN_r. cbn [mul]. rewrite !add_NaN_r.
    reflexivity.
Qed.

Lemma noShake_no_jitter (md nb : num) :
  noShake md nb -> (md >? Fin 0.7)%js = false.
Proof.
  intros [[Hm _] | Hm]; rewrite Hm; [apply lt_Fin_false; lra | reflexivity].
Qed.

(** Outside the jitter of the Grid mode the position of an instance takes
    no draw. *)
Lemma modePosition_no_draw
    (time : num) (cfg : VisualConfig) (audio : AudioData) (mood : num)
    (count i : nat) (g1 g2 : Rng) :
  (mode cfg = Grid -> (mood >? Fin 0.7)%js = false) ->
  fst (modePosition time cfg audio mood count i g1)
  = fst (modePosition time cfg audio mood count i g2).
Proof.
  intros H. unfold modePosition.
  destruct (mode cfg); try reflexivity.
  rewrite (H eq_refl). reflexivity.
Qed.

Section Reproducible.

Context {TC : ThreeColor}.

Lemma updateParticle_no_draw
    (time : num) (cfg : VisualConfig) (audio : AudioData)
    (cPrimary cSecondary : Color) (mood : num) (mouse : Vector2) (n : nat) :
  (mode cfg = Grid -> (mood >? Fin 0.7)%js = false) ->
  forall (l : list nat) (ms : list Transform) (cs : list Color)
         (g1 g2 : Rng),
    fst (fold_left
           (updateParticle time cfg audio cPrimary cSecondary mood mouse n)
           l (ms, cs, g1))
    = fst (fold_left
             (updateParticle time cfg audio cPrimary cSecondary mood mouse n)
             l (ms, cs, g2)).
Proof.
  intros H l. induction l as [| i rest IH]; intros ms cs g1 g2.
  - reflexivity.
  - cbn [fold_left]. unfold updateParticle at 2 4.
    pose proof (modePosition_no_draw time cfg audio mood n i g1 g2 H) as E.
    destruct (modePosition time cfg audio mood n i g1) as [p1 h1].
    destruct (modePosition time cfg audio mood n i g2) as [p2 h2].
    cbn [fst] in E. subst p2. apply IH.
Qed.

Lemma updateParticles_no_draw
    (mesh : InstancedMesh) (time : num) (cfg : VisualConfig)
    (audio : AudioData) (cPrimary cSecondary : Color) (mood : num)
    (mouse : Vector2) (g1 g2 : Rng) :
  (mode cfg = Grid -> (mood >? Fin 0.7)%js = false) ->
  fst (updateParticles mesh time cfg audio cPrimary cSecondary mood mouse g1)
  = fst (updateParticles mesh time cfg audio cPrimary cSecondary mood mouse g2).
Proof.
  intros H. unfold updateParticles.
  pose proof (updateParticle_no_draw time cfg audio cPrimary cSecondary mood
                mouse (count mesh) H (seq 0 (count mesh)) [] [] g1 g2) as E.
  destruct (fold_left _ _ ([], [], g1)) as [[m1 c1] h1].
  destruct (fold_left _ _ ([], [], g2)) as [[m2 c2] h2].
  cbn [fst] in E. injection E as Em Ec. subst. reflexivity.
Qed.

(** The matrix the loop writes for instance [j] holds the position
    [particlePosition] gives it, for the draws left when its turn comes. *)
Lemma updateParticle_loop
    (time : num) (cfg : VisualConfig) (audio : AudioData)
    (cPrimary cSecondary : Color) (mood : num) (mouse : Vector2) (n : nat)
    (g : Rng) (k : nat) :
  let r := fold_left
             (updateParticle time cfg audio cPrimary cSecondary mood mouse n)
             (seq 0 k) ([], [], g) in
  List.length (fst (fst r)) = k
  /\ forall j : nat, (j < k)%nat ->
       exists (gj : Rng) (T : Transform),
         nth_error (fst (fst r)) j = Some T
         /\ position T = particlePosition time cfg audio mood mouse n j gj.
Proof.
  induction k as [| k IH]; intros r.
  - split; [reflexivity | intros j Hj; lia].
  - unfold r. rewrite seq_S, fold_left_app. cbn [fold_left Nat.add].
    destruct IH as [Hl Hv].
    destruct (fold_left _ (seq 0 k) ([], [], g)) as [[ms cs] gk].
    cbn [fst] in Hl, Hv. unfold updateParticle.
    destruct (modePosition time cfg audio mood n k gk) as [p g'] eqn:E.
    cbn [fst]. split; [rewrite length_app; cbn [List.length]; lia |].
    intros j Hj. destruct (Nat.eq_dec j k) as [-> | Hne].
    + exists gk. eexists. split.
      * rewrite nth_error_app2 by lia. rewrite Hl, Nat.sub_diag. reflexivity.
      * unfold particlePosition. rewrite E. reflexivity.
    + destruct (Hv j ltac:(lia)) as [gj [T [HT HP]]].
      exists gj, T. split; [| exact HP].
      rewrite nth_error_app1 by lia. exact HT.
Qed.

Lemma updateParticles_positions
    (mesh : InstancedMesh) (time : num) (cfg : VisualConfig)
    (audio : AudioData) (cPrimary cSecondary : Color) (mood : num)
    (mouse : Vector2) (g : Rng) (j : nat) :
  (j < count mesh)%nat ->
  exists (gj : Rng) (T : Transform),
    nth_error
      (instanceMatrix
         (fst (updateParticles mesh time cfg audio cPrimary cSecondary mood
                               mouse g))) j = Some T
    /\ position T
       = particlePosition time cfg audio mood mouse (count mesh) j gj.
Proof.
  intros Hj. unfold updateParticles.
  destruct (updateParticle_loop time cfg audio cPrimary cSecondary mood mouse
              (count mesh) g (count mesh)) as [_ Hv].
  destruct (fold_left _ _ ([], [], g)) as [[ms cs] g'].
  cbn [fst instanceMatrix] in *. apply Hv, Hj.
Qed.

(** A tick in a mode with instances, on a frame without shake: the scene
    after the tick does not depend on the draws. *)
Lemma animate_no_draw
    (config : VisualConfig) (audio : AudioData) (st : SceneState)
    (g1 g2 g : Rng) :
  mode config <> Surface ->
  noShake
    (mood (analysis audio (smoothedBass st) (moodValue st) (hueShift st)))
    (normalizedBass (analysis audio (smoothedBass st) (moodValue st)
                              (hueShift st))) ->
  withRandom (animate config audio (withRandom st g1)) g
  = withRandom (animate config audio (withRandom st g2)) g.
Proof.
  intros Hmode Hcalm. unfold animate.
  cbn [withRandom timeRef mouseRef targetMouseRef hueShift cameraAngle
       smoothedBass moodValue uColor1 uColor2 uColor3 cameraPosition
       particles surfaceMesh random].
  set (sg := analysis audio (smoothedBass st) (moodValue st) (hueShift st))
    in *.
  pose proof (cameraTarget_still (timeRef st + Fin 0.005)%js
                (Vector2_lerp (mouseRef st) (targetMouseRef st) (Fin 0.1))
                (cameraAngle st) (mood sg) (normalizedBass sg) g1 g2 Hcalm)
    as EC.
  pose proof (noShake_no_jitter _ _ Hcalm) as J.
  destruct (cameraTarget _ _ _ _ _ g1) as [[a1 t1] h1].
  destruct (cameraTarget _ _ _ _ _ g2) as [[a2 t2] h2].
  cbn [fst] in EC. injection EC as Ea Et. subst a2 t2.
  destruct (mode config) eqn:M; try contradiction;
    match goal with
    | |- context [updateParticles ?mesh ?t ?c ?a ?p ?s ?m ?mo h1] =>
        pose proof (updateParticles_no_draw mesh t c a p s m mo h1 h2
                      ltac:(intros _; exact J)) as EU;
        destruct (updateParticles mesh t c a p s m mo h1) as [mesh1 k1];
        destruct (updateParticles mesh t c a p s m mo h2) as [mesh2 k2];
        cbn [fst] in EU; subst mesh2; reflexivity
    end.
Qed.

End Reproducible.

(** C8.  A tick of the default preset (Orbit mode) on a spectrum of zeros,
    from trackers at 0: whatever [Math.random()] draws in the two runs,
    the instance matrices, the instance colours and the camera position
    come out the same, and so does all the rest of the scene.  With 10
    bins or more the mood and the normalised bass are 0, so the shake of
    the camera is 0; with fewer the mood is not a number and neither is
    the height of the camera, in both runs; and the Orbit mode takes no
    draw. *)
Theorem default_preset_tick_is_reproducible
    (TC : ThreeColor) (st : SceneState) (n : nat) (g1 g2 : Rng) :
  smoothedBass st = Fin 0 -> moodValue st = Fin 0 ->
  let s1 := animate DEFAULT_PRESET (silence n) (withRandom st g1) in
  let s2 := animate DEFAULT_PRESET (silence n) (withRandom st g2) in
  instanceMatrix (particles s1) = instanceMatrix (particles s2)
  /\ instanceColor (particles s1) = instanceColor (particles s2)
  /\ cameraPosition s1 = cameraPosition s2
  /\ withRandom s1 g1 = withRandom s2 g1
  /\ ((10 <= n)%nat -> uMood s1 = Fin 0 /\ uEnergy s1 = Fin 0).
Proof.
  intros Hb Hm s1 s2.
  assert (Hzero : (10 <= n)%nat ->
                  mood (analysis (silence n) (Fin 0) (Fin 0) (hueShift st))
                  = Fin 0
                  /\ normalizedBass (analysis (silence n) (Fin 0) (Fin 0)
                                              (hueShift st)) = Fin 0).
  { intros Hn. rewrite (silence_bands n Hn). apply still_signals; reflexivity. }
  assert (E : withRandom s1 g1 = withRandom s2 g1).
  { unfold s1, s2. apply animate_no_draw; [discriminate |].
    rewrite Hb, Hm.
    destruct (le_lt_dec 10 n) as [Hn | Hn].
    - left. apply Hzero, Hn.
    - right. apply undefined_signals, silence_short_bass, Hn. }
  split; [| split; [| split; [| split]]].
  - change (instanceMatrix (particles (withRandom s1 g1))
            = instanceMatrix (particles (withRandom s2 g1))).
    rewrite E. reflexivity.
  - change (instanceColor (particles (withRandom s1 g1))
            = instanceColor (particles (withRandom s2 g1))).
    rewrite E. reflexivity.
  - change (cameraPosition (withRandom s1 g1)
            = cameraPosition (withRandom s2 g1)).
    rewrite E. reflexivity.
  - exact E.
  - intros Hn.
    destruct (animate_refs DEFAULT_PRESET (silence n) (withRandom st g1))
      as [_ [_ [_ [_ [Eu [Ee _]]]]]].
    fold s1 in Eu, Ee. rewrite Eu, Ee.
    cbn [withRandom smoothedBass moodValue hueShift]. rewrite Hb, Hm.
    apply Hzero, Hn.
Qed.

Lemma default_preset_tick_is_reproducible_witness :
  let st := @initialScene OneColor DEFAULT_PRESET [] (constantRng 0) in
  cameraPosition
    (@animate OneColor DEFAULT_PRESET (silence 256)
              (withRandom st (constantRng 0)))
  = cameraPosition
      (@animate OneColor DEFAULT_PRESET (silence 256)
                (withRandom st (constantRng 0.9))).
Proof.
  intros st.
  destruct (default_preset_tick_is_reproducible OneColor st 256
              (constantRng 0) (constantRng 0.9))
    as [_ [_ [H _]]].
  - reflexivity.
  - reflexivity.
  - exact H.
Defined.

(** With a mood and a normalised bass of 1 the draw does show in the
    height of the target: the trackers at 0 are what makes the tick
    reproducible. *)
Lemma camera_shake_shows_the_draw :
  v3y (snd (fst (cameraTarget (Fin 0) (mkVector2 (Fin 0) (Fin 0)) (Fin 0)
                              (Fin 1) (Fin 1) (constantRng 0))))
  <> v3y (snd (fst (cameraTarget (Fin 0) (mkVector2 (Fin 0) (Fin 0)) (Fin 0)
                                 (Fin 1) (Fin 1) (constantRng 1)))).
Proof.
  unfold cameraTarget, Math_random, constantRng. cbn [fst snd v3y v2y draws].
  js_fin. intros H. injection H as H. lra.
Qed.

(** ** The preset generator *)

Lemma DEFAULT_CONFIG_complete : isVisualConfig DEFAULT_CONFIG = true.
Proof. reflexivity. Qed.

Lemma partialPreset_parsed :
  JSON_parse_plain partialPresetText
  = Some (JObject [("mode"%string, JString "GRID")]).
Proof. vm_compute. reflexivity. Qed.



(** ** The first instance of the Ferrofluid sphere under the pointer *)

(** The first instance sits on the axis of the sphere. *)
Lemma pole_direction (count : nat) :
  ferroSx count 0 = 0 /\ ferroSy count 0 = 0.
Proof.
  assert (E : ferroInclination count 0 = 0).
  { unfold ferroInclination. change (Z.of_nat 0) with 0%Z.
    replace (1 - 2 * (0 / IZR (Z.of_nat count))) with 1
      by (unfold Rdiv; ring).
    apply acos_1. }
  unfold ferroSx, ferroSy. rewrite E, sin_0. split; ring.
Qed.

Lemma instance_under_pointer_is_NaN_witness :
  let final :=
    particlePosition (Fin 0) INITIAL_CONFIG quiet (Fin 0)
                     (mkVector2 (Fin 0) (Fin 0)) PARTICLE_COUNT 0
                     (constantRng 0) in
  v3x final = NaN /\ v3y final = NaN.
Proof.
  intros final.
  destruct (ferrofluid_modePosition 0 0 0 INITIAL_CONFIG quiet
              PARTICLE_COUNT 0 (constantRng 0) eq_refl eq_refl
              ltac:(unfold PARTICLE_COUNT; lia)) as [Ex [Ey _]].
  destruct (pole_direction PARTICLE_COUNT) as [Sx Sy].
  destruct (instance_under_pointer_is_NaN (Fin 0) INITIAL_CONFIG quiet (Fin 0)
              (mkVector2 (Fin 0) (Fin 0)) PARTICLE_COUNT 0 (constantRng 0)
              (0 * 20) (0 * 20)) as [_ [Hx [Hy _]]].
  - discriminate.
  - rewrite Ex, Sx. f_equal. ring.
  - rewrite Ey, Sy. f_equal. ring.
  - reflexivity.
  - split; [exact Hx | exact Hy].
Defined.

(* ================================================================== *)
(** * Further properties of the code *)
(* ================================================================== *)

(** ** The spectrum reduction: bounds and balance *)

Lemma sumZ_app (l1 l2 : list Z) : sumZ (l1 ++ l2) = (sumZ l1 + sumZ l2)%Z.
Proof.
  induction l1 as [| v l1 IH]; [reflexivity |].
  cbn [app]. change (sumZ (v :: l1 ++ l2)) with (v + sumZ (l1 ++ l2))%Z.
  change (sumZ (v :: l1)) with (v + sumZ l1)%Z. rewrite IH. lia.
Qed.

Lemma sumZ_bytes (l : list Z) :
  Forall isByte l -> (0 <= sumZ l <= 255 * Z.of_nat (List.length l))%Z.
Proof.
  induction 1 as [| v l Hv _ IH]; [cbn; lia |].
  change (sumZ (v :: l)) with (v + sumZ l)%Z. unfold isByte in Hv.
  cbn [List.length]. lia.
Qed.

Lemma bandAverage_bytes (l : list Z) :
  l <> [] -> Forall isByte l -> inByteRange (bandAverage l).
Proof.
  intros Hne Hb. destruct l as [| v l]; [contradiction |].
  rewrite bandAverage_cons. eexists. split; [reflexivity |].
  pose proof (sumZ_bytes _ Hb) as [H0 H1].
  set (n := Z.of_nat (List.length (v :: l))) in *.
  assert (Hn : 0 < IZR n) by (apply IZR_lt; unfold n; cbn [List.length]; lia).
  apply IZR_le in H0, H1. rewrite mult_IZR in H1.
  split.
  - apply Rmult_le_pos; [exact H0 | apply Rlt_le, Rinv_0_lt_compat, Hn].
  - apply Rmult_le_reg_r with (IZR n); [exact Hn |].
    unfold Rdiv. rewrite Rmult_assoc, Rinv_l by lra. lra.
Qed.

Lemma Forall_firstn_bytes (k : nat) (l : list Z) :
  Forall isByte l -> Forall isByte (firstn k l).
Proof.
  intros H. rewrite Forall_forall in *. intros v Hin.
  apply H. rewrite <- (firstn_skipn k l). apply in_or_app. left. exact Hin.
Qed.

Lemma Forall_skipn_bytes (k : nat) (l : list Z) :
  Forall isByte l -> Forall isByte (skipn k l).
Proof.
  intros H. rewrite Forall_forall in *. intros v Hin.
  apply H. rewrite <- (firstn_skipn k l). apply in_or_app. right. exact Hin.
Qed.

Lemma band_sizes (n : nat) :
  (10 <= n)%nat ->
  (1 <= n / 10 /\ n / 10 < n / 2 /\ n / 2 < n)%nat.
Proof.
  intros Hn.
  pose proof (Nat.div_mod_eq n 10) as E10. pose proof (Nat.div_mod_eq n 2) as E2.
  pose proof (Nat.mod_upper_bound n 10 ltac:(lia)) as B10.
  pose proof (Nat.mod_upper_bound n 2 ltac:(lia)) as B2. lia.
Qed.

Lemma nonempty_of_length {A : Type} (l : list A) :
  (0 < List.length l)%nat -> l <> [].
Proof. destruct l; [cbn; lia | discriminate]. Qed.

(** X1.  On a spectrum of bytes with 10 bins or more, the four energies
    the reduction stores are numbers between 0 and 255. *)
Theorem band_energies_within_byte_range (data : list Z) :
  (10 <= List.length data)%nat -> Forall isByte data ->
  inByteRange (overallAmplitude (analyse data))
  /\ inByteRange (bass (analyse data))
  /\ inByteRange (mid (analyse data))
  /\ inByteRange (treble (analyse data)).
Proof.
  intros Hn Hb. rewrite analyse_band_averages.
  cbn [overallAmplitude bass mid treble].
  destruct (band_sizes _ Hn) as [S1 [S2 S3]].
  repeat split; apply bandAverage_bytes;
    try (apply nonempty_of_length;
         rewrite ?length_firstn, ?length_skipn; lia).
  - exact Hb.
  - apply Forall_firstn_bytes, Hb.
  - apply Forall_firstn_bytes, Forall_skipn_bytes, Hb.
  - apply Forall_skipn_bytes, Hb.
Qed.

Lemma band_energies_within_byte_range_witness :
  inByteRange (bass (analyse (repeat 200%Z 16))).
Proof.
  apply (band_energies_within_byte_range (repeat 200%Z 16)).
  - rewrite repeat_length. lia.
  - apply Forall_forall. intros v Hin. apply repeat_spec in Hin. subst v.
    unfold isByte. lia.
Defined.

Lemma bandAverage_times_length (l : list Z) :
  l <> [] -> (ofNat (List.length l) * bandAverage l)%js = ofZ (sumZ l).
Proof.
  intros Hne. destruct l as [| v l]; [contradiction |].
  rewrite bandAverage_cons. unfold ofNat, ofZ. rewrite mul_Fin. f_equal.
  field. apply not_0_IZR. cbn [List.length]. lia.
Qed.

(** X2.  With 10 bins or more, the overall amplitude is the mean of the
    three band energies weighted by the number of bins of each band:
    N * overall = bassLimit * bass + (midLimit - bassLimit) * mid
    + (N - midLimit) * treble. *)
Theorem overall_is_weighted_mean_of_bands (data : list Z) :
  let n := List.length data in
  (10 <= n)%nat ->
  (ofNat n * overallAmplitude (analyse data))%js
  = (ofNat (n / 10) * bass (analyse data)
     + ofNat (n / 2 - n / 10) * mid (analyse data)
     + ofNat (n - n / 2) * treble (analyse data))%js.
Proof.
  intros n Hn. rewrite analyse_band_averages. fold n.
  cbn [overallAmplitude bass mid treble].
  destruct (band_sizes _ Hn) as [S1 [S2 S3]].
  set (l1 := firstn (n / 10) data).
  set (l2 := firstn (n / 2 - n / 10) (skipn (n / 10) data)).
  set (l3 := skipn (n / 2) data).
  assert (L1 : List.length l1 = (n / 10)%nat)
    by (unfold l1; rewrite length_firstn; fold n; lia).
  assert (L2 : List.length l2 = (n / 2 - n / 10)%nat)
    by (unfold l2; rewrite length_firstn, length_skipn; fold n; lia).
  assert (L3 : List.length l3 = (n - n / 2)%nat)
    by (unfold l3; rewrite length_skipn; fold n; lia).
  assert (E : data = l1 ++ l2 ++ l3).
  { unfold l1, l2, l3.
    rewrite <- (firstn_skipn (n / 10) data) at 1. f_equal.
    rewrite <- (firstn_skipn (n / 2 - n / 10) (skipn (n / 10) data)) at 1.
    f_equal. rewrite skipn_skipn. f_equal. lia. }
  assert (B1 : (ofNat (n / 10) * bandAverage l1)%js = ofZ (sumZ l1)).
  { rewrite <- L1. apply bandAverage_times_length, nonempty_of_length. lia. }
  assert (B2 : (ofNat (n / 2 - n / 10) * bandAverage l2)%js = ofZ (sumZ l2)).
  { rewrite <- L2. apply bandAverage_times_length, nonempty_of_length. lia. }
  assert (B3 : (ofNat (n - n / 2) * bandAverage l3)%js = ofZ (sumZ l3)).
  { rewrite <- L3. apply bandAverage_times_length, nonempty_of_length. lia. }
  rewrite B1, B2, B3.
  unfold n at 1. rewrite bandAverage_times_length
    by (apply nonempty_of_length; fold n; lia).
  rewrite !ofZ_add. f_equal. rewrite E at 1. rewrite !sumZ_app. lia.
Qed.

Lemma overall_is_weighted_mean_of_bands_witness :
  (ofNat 10 * overallAmplitude (analyse (repeat 7%Z 10)))%js
  = (ofNat 1 * bass (analyse (repeat 7%Z 10))
     + ofNat 4 * mid (analyse (repeat 7%Z 10))
     + ofNat 5 * treble (analyse (repeat 7%Z 10)))%js.
Proof.
  apply (overall_is_weighted_mean_of_bands (repeat 7%Z 10)).
  rewrite repeat_length. lia.
Defined.

(** ** The trackers under a steady input *)

Lemma advance_trackers (audio : AudioData) (b m t s0 m0 : R) (s : Signals) :
  bandsFinite audio b m t ->
  smoothedBassRef s = Fin s0 -> moodRef s = Fin m0 ->
  smoothedBassRef (advance s audio) = Fin (s0 + (b - s0) * 0.15)
  /\ moodRef (advance s audio)
     = Fin (m0 + ((b + m + t) / (255 * 3) - m0) * 0.02).
Proof.
  intros [Hb [Hm Ht]] Hs Hmd. unfold advance. rewrite Hs, Hmd.
  destruct (analysis_finite audio b m t s0 m0 (hueShiftRef s) Hb Hm Ht)
    as [E1 [E2 _]].
  split; assumption.
Qed.

Lemma runSignals_steady (audio : AudioData) (b m t s0 m0 : R) (n : nat) :
  bandsFinite audio b m t ->
  forall s : Signals,
    smoothedBassRef s = Fin s0 -> moodRef s = Fin m0 ->
    smoothedBassRef (runSignals (repeat audio n) s)
    = Fin (b + (s0 - b) * 0.85 ^ n)
    /\ moodRef (runSignals (repeat audio n) s)
       = Fin ((b + m + t) / (255 * 3)
              + (m0 - (b + m + t) / (255 * 3)) * 0.98 ^ n).
Proof.
  intros Hbands. induction n as [| n IH]; intros s Hs Hm.
  - cbn [repeat runSignals fold_left]. rewrite Hs, Hm.
    split; f_equal; cbn [Rpow_def.pow]; lra.
  - change (repeat audio (S n)) with (audio :: repeat audio n).
    rewrite repeat_cons. unfold runSignals. rewrite fold_left_app.
    fold (runSignals (repeat audio n) s). cbn [fold_left].
    destruct (IH s Hs Hm) as [I1 I2].
    destruct (advance_trackers audio b m t _ _ _ Hbands I1 I2) as [E1 E2].
    rewrite E1, E2. split; f_equal; cbn [Rpow_def.pow].
    + generalize (0.85 ^ n). intros p. nra.
    + generalize (0.98 ^ n). intros p.
      generalize ((b + m + t) / (255 * 3)). intros e. nra.
Qed.

Section SteadyInput.

Context {TC : ThreeColor}.

(** X3.  Under a steady input the two trackers approach it geometrically:
    after n ticks with the same finite band energies (whatever the presets
    of those ticks), the bass tracker is b + (s0 - b) * 0.85^n and the
    energy tracker is e + (m0 - e) * 0.98^n, for e the mean band energy
    over 255.  Neither overshoots its input. *)
Theorem trackers_approach_steady_input
    (configs : list VisualConfig) (audio : AudioData) (st : SceneState)
    (b m t s0 m0 : R) :
  bandsFinite audio b m t ->
  smoothedBass st = Fin s0 -> moodValue st = Fin m0 ->
  let n := List.length configs in
  let st' := runFrames (map (fun c => (c, audio)) configs) st in
  smoothedBass st' = Fin (b + (s0 - b) * 0.85 ^ n)
  /\ moodValue st'
     = Fin ((b + m + t) / (255 * 3)
            + (m0 - (b + m + t) / (255 * 3)) * 0.98 ^ n).
Proof.
  intros Hbands Hs Hm n st'.
  pose proof (runFrames_signals (map (fun c => (c, audio)) configs) st) as E.
  fold st' in E.
  assert (Em : map snd (map (fun c : VisualConfig => (c, audio)) configs)
               = repeat audio n).
  { unfold n. clear. induction configs as [| c l IH]; [reflexivity |].
    cbn [map snd List.length repeat]. rewrite IH. reflexivity. }
  rewrite Em in E.
  destruct (runSignals_steady audio b m t s0 m0 n Hbands (signalsOf st) Hs Hm)
    as [I1 I2].
  rewrite <- E in I1, I2. split; assumption.
Qed.

End SteadyInput.

Lemma trackers_approach_steady_input_witness :
  let loud := mkAudioData [] (Fin 255) (Fin 255) (Fin 255) (Fin 255) in
  let st := @initialScene OneColor DEFAULT_PRESET [] (constantRng 0) in
  smoothedBass
    (@runFrames OneColor
       (map (fun c => (c, loud)) [DEFAULT_PRESET; gridPreset]) st)
  = Fin (255 + (0 - 255) * 0.85 ^ 2).
Proof.
  intros loud st.
  destruct (@trackers_approach_steady_input OneColor
              [DEFAULT_PRESET; gridPreset] loud st 255 255 255 0 0)
    as [H _].
  - repeat split.
  - reflexivity.
  - reflexivity.
  - exact H.
Defined.

(** ** The pointer, the clock and the camera *)

Section Easing.

Context {TC : ThreeColor}.

Lemma animate_pointer (config : VisualConfig) (audio : AudioData)
    (st : SceneState) :
  let st' := animate config audio st in
  mouseRef st' = Vector2_lerp (mouseRef st) (targetMouseRef st) (Fin 0.1)
  /\ targetMouseRef st' = targetMouseRef st
  /\ uTime st' = timeRef st'.
Proof.
  intros st'. unfold st', animate.
  destruct (cameraTarget _ _ _ _ _ _) as [[angle target] g].
  destruct (mode config);
    repeat match goal with
           | |- context [let '(_, _) := ?e in _] => destruct e
           end;
    cbn; repeat split; reflexivity.
Qed.

(** X4.  The pointer the scene uses eases toward the pointer of the
    window: while the latter stays put, every tick keeps 0.9 of the
    offset, so after n ticks the offset is 0.9^n of what it was, on each
    axis, whatever the presets and the audio of those ticks. *)
Theorem pointer_eases_toward_target
    (frames : list (VisualConfig * AudioData)) :
  forall (st : SceneState) (mx my tx ty : R),
    mouseRef st = mkVector2 (Fin mx) (Fin my) ->
    targetMouseRef st = mkVector2 (Fin tx) (Fin ty) ->
    let n := List.length frames in
    mouseRef (runFrames frames st)
    = mkVector2 (Fin (tx + (mx - tx) * 0.9 ^ n))
                (Fin (ty + (my - ty) * 0.9 ^ n))
    /\ targetMouseRef (runFrames frames st) = mkVector2 (Fin tx) (Fin ty).
Proof.
  induction frames as [| f rest IH]; intros st mx my tx ty Hm Ht n.
  - cbn [runFrames fold_left]. rewrite Hm, Ht. split; [| reflexivity].
    unfold n. cbn [List.length Rpow_def.pow]. f_equal; f_equal; lra.
  - cbn [runFrames fold_left].
    fold (runFrames rest (animate (fst f) (snd f) st)).
    destruct (animate_pointer (fst f) (snd f) st) as [E1 [E2 _]].
    rewrite Hm, Ht in E1. rewrite Ht in E2.
    unfold Vector2_lerp in E1. cbn [v2x v2y] in E1.
    rewrite !sub_Fin, !mul_Fin, !add_Fin in E1.
    destruct (IH _ _ _ _ _ E1 E2) as [I1 I2].
    split; [| exact I2]. rewrite I1. unfold n.
    cbn [List.length Rpow_def.pow].
    generalize (0.9 ^ List.length rest). intros p.
    f_equal; f_equal; nra.
Qed.

(** X5.  The clock of the scene gains 0.005 per tick, whatever the frame
    brings: after n ticks it has gained n * 0.005, and the shader's clock
    shows the same time. *)
Theorem clock_gains_per_tick (frames : list (VisualConfig * AudioData)) :
  forall (st : SceneState) (t0 : R),
    timeRef st = Fin t0 ->
    timeRef (runFrames frames st)
    = Fin (t0 + IZR (Z.of_nat (List.length frames)) * 0.005)
    /\ (frames <> [] ->
        uTime (runFrames frames st) = timeRef (runFrames frames st)).
Proof.
  induction frames as [| f rest IH]; intros st t0 Ht.
  - cbn [runFrames fold_left List.length]. rewrite Ht.
    split; [f_equal; cbn; lra | intros H; contradiction].
  - cbn [runFrames fold_left].
    fold (runFrames rest (animate (fst f) (snd f) st)).
    destruct (animate_refs (fst f) (snd f) st) as [E _].
    rewrite Ht, add_Fin in E.
    destruct (IH _ _ E) as [I1 I2]. split.
    + rewrite I1. f_equal. cbn [List.length].
      rewrite Nat2Z.inj_succ, succ_IZR. lra.
    + intros _. destruct rest as [| f' rest'].
      * cbn [runFrames fold_left].
        apply (animate_pointer (fst f) (snd f) st).
      * apply I2. discriminate.
Qed.

End Easing.

Lemma pointer_eases_toward_target_witness :
  let st := @initialScene OneColor DEFAULT_PRESET [] (constantRng 0) in
  mouseRef (@runFrames OneColor [(DEFAULT_PRESET, quiet)] st)
  = mkVector2 (Fin (0 + (0 - 0) * 0.9 ^ 1)) (Fin (0 + (0 - 0) * 0.9 ^ 1)).
Proof.
  intros st.
  destruct (@pointer_eases_toward_target OneColor [(DEFAULT_PRESET, quiet)]
              st 0 0 0 0 eq_refl eq_refl) as [H _].
  exact H.
Defined.

Lemma clock_gains_per_tick_witness :
  let st := @initialScene OneColor DEFAULT_PRESET [] (constantRng 0) in
  timeRef (@runFrames OneColor [(DEFAULT_PRESET, quiet); (gridPreset, quiet)]
                      st)
  = Fin (0 + IZR (Z.of_nat 2) * 0.005).
Proof.
  intros st.
  destruct (@clock_gains_per_tick OneColor
              [(DEFAULT_PRESET, quiet); (gridPreset, quiet)] st 0 eq_refl)
    as [H _].
  exact H.
Defined.

(** X6.  For a normalised bass and a mood in [0,1] and a draw in [0,1),
    the point the camera is eased toward lies, the pointer's offset apart,
    on a circle around the vertical axis whose radius is 30 less the zoom
    and stays between 20 and 30; its height stays within 3 of the base
    height 5 (the bob of 2 and a shake of at most 1). *)
Theorem camera_target_stays_in_range
    (T mx my a e m : R) (g : Rng) :
  0 <= e <= 1 -> 0 <= m <= 1 -> 0 <= draws g (cursor g) < 1 ->
  exists (x y z radius : R),
    snd (fst (cameraTarget (Fin T) (mkVector2 (Fin mx) (Fin my)) (Fin a)
                           (Fin e) (Fin m) g))
    = mkVector3 (Fin x) (Fin y) (Fin z)
    /\ radius = 30 - e * (5 + m * 5)
    /\ 20 <= radius <= 30
    /\ (x - mx * 2) * (x - mx * 2) + z * z = radius * radius
    /\ -3 <= y - 5 - my * 2 <= 3.
Proof.
  intros Be Bm Br. unfold cameraTarget, Math_random. cbn [fst snd v2x v2y].
  js_fin.
  set (r := draws g (cursor g)) in *.
  set (ang := a + (0.001 + m * 0.005)).
  set (radius := 30 - e * (5 + m * 5)).
  exists (Rtrigo_def.sin ang * radius + mx * 2),
         (5 + Rtrigo_def.sin (T * 0.5) * 2 + (r - 0.5) * m * e * 2 + my * 2),
         (Rtrigo_def.cos ang * radius), radius.
  split; [reflexivity |]. split; [reflexivity |].
  assert (Hrad : 20 <= radius <= 30) by (unfold radius; nra).
  split; [exact Hrad |]. split.
  - pose proof (sin2_cos2 ang) as U. unfold Rsqr in U.
    replace (Rtrigo_def.sin ang * radius + mx * 2 - mx * 2)
      with (Rtrigo_def.sin ang * radius) by ring.
    replace (Rtrigo_def.sin ang * radius * (Rtrigo_def.sin ang * radius)
             + Rtrigo_def.cos ang * radius * (Rtrigo_def.cos ang * radius))
      with ((Rtrigo_def.sin ang * Rtrigo_def.sin ang
             + Rtrigo_def.cos ang * Rtrigo_def.cos ang) * (radius * radius))
      by ring.
    rewrite U. ring.
  - pose proof (SIN_bound (T * 0.5)) as S.
    assert (Hshake : -1 <= (r - 0.5) * m * e * 2 <= 1).
    { assert (-0.5 <= r - 0.5 <= 0.5) by lra.
      assert (0 <= m * e <= 1) by nra.
      split; nra. }
    lra.
Qed.

Lemma camera_target_stays_in_range_witness :
  exists (x y z radius : R),
    snd (fst (cameraTarget (Fin 0) (mkVector2 (Fin 0) (Fin 0)) (Fin 0)
                           (Fin 1) (Fin 1) (constantRng 0.25)))
    = mkVector3 (Fin x) (Fin y) (Fin z)
    /\ radius = 30 - 1 * (5 + 1 * 5)
    /\ 20 <= radius <= 30
    /\ (x - 0 * 2) * (x - 0 * 2) + z * z = radius * radius
    /\ -3 <= y - 5 - 0 * 2 <= 3.
Proof.
  apply (camera_target_stays_in_range 0 0 0 0 1 1 (constantRng 0.25));
    cbn [constantRng draws cursor]; lra.
Defined.

(** ** What a tick writes and what it leaves alone *)

Lemma skipDraws_0 (g : Rng) : skipDraws g 0 = g.
Proof. destruct g as [d c]. unfold skipDraws. cbn. rewrite Nat.add_0_r. reflexivity. Qed.

Lemma skipDraws_skipDraws (g : Rng) (a b : nat) :
  skipDraws (skipDraws g a) b = skipDraws g (a + b).
Proof. unfold skipDraws. cbn. rewrite Nat.add_assoc. reflexivity. Qed.

Lemma modePosition_draws
    (time : num) (cfg : VisualConfig) (audio : AudioData) (mood : num)
    (count i : nat) (g : Rng) :
  snd (modePosition time cfg audio mood count i g)
  = skipDraws g (jitterDraws cfg mood 1).
Proof.
  unfold modePosition, jitterDraws.
  destruct (mode cfg); cbn [snd]; try (symmetry; apply skipDraws_0).
  destruct (mood >? Fin 0.7)%js; cbn [snd]; [| symmetry; apply skipDraws_0].
  unfold Math_random, skipDraws. cbn. f_equal. lia.
Qed.

Lemma jitterDraws_S (cfg : VisualConfig) (mood : num) (k : nat) :
  jitterDraws cfg mood (S k)
  = (jitterDraws cfg mood k + jitterDraws cfg mood 1)%nat.
Proof.
  unfold jitterDraws. destruct (mode cfg); try reflexivity.
  destruct (mood >? Fin 0.7)%js; lia.
Qed.

Section TickEffects.

Context {TC : ThreeColor}.

(** The loop over [k] instances: both buffers get [k] entries and the
    source of draws moves on by the draws of the jitter. *)
Lemma updateParticle_loop_sizes
    (time : num) (cfg : VisualConfig) (audio : AudioData)
    (cPrimary cSecondary : Color) (mood : num) (mouse : Vector2) (n : nat)
    (g : Rng) (k : nat) :
  let r := fold_left
             (updateParticle time cfg audio cPrimary cSecondary mood mouse n)
             (seq 0 k) ([], [], g) in
  List.length (fst (fst r)) = k
  /\ List.length (snd (fst r)) = k
  /\ snd r = skipDraws g (jitterDraws cfg mood k).
Proof.
  induction k as [| k IH]; intros r.
  - cbn in r. subst r. cbn [fst snd List.length].
    repeat split. unfold jitterDraws.
    destruct (mode cfg); try (symmetry; apply skipDraws_0).
    destruct (mood >? Fin 0.7)%js; symmetry; apply skipDraws_0.
  - unfold r. rewrite seq_S, fold_left_app. cbn [fold_left Nat.add].
    destruct IH as [Hm [Hc Hg]].
    destruct (fold_left _ (seq 0 k) ([], [], g)) as [[ms cs] gk].
    cbn [fst snd] in Hm, Hc, Hg. unfold updateParticle.
    pose proof (modePosition_draws time cfg audio mood n k gk) as D.
    destruct (modePosition time cfg audio mood n k gk) as [p g'].
    cbn [fst snd] in *. rewrite !length_app. cbn [List.length].
    repeat split; try lia.
    rewrite D, Hg, skipDraws_skipDraws, (jitterDraws_S cfg mood k).
    reflexivity.
Qed.

Lemma updateParticles_sizes
    (mesh : InstancedMesh) (time : num) (cfg : VisualConfig)
    (audio : AudioData) (cPrimary cSecondary : Color) (mood : num)
    (mouse : Vector2) (g : Rng) :
  let r := updateParticles mesh time cfg audio cPrimary cSecondary mood
                           mouse g in
  List.length (instanceMatrix (fst r)) = count mesh
  /\ List.length (instanceColor (fst r)) = count mesh
  /\ count (fst r) = count mesh
  /\ particlesVisible (fst r) = particlesVisible mesh
  /\ snd r = skipDraws g (jitterDraws cfg mood (count mesh)).
Proof.
  unfold updateParticles.
  destruct (updateParticle_loop_sizes time cfg audio cPrimary cSecondary mood
              mouse (count mesh) g (count mesh)) as [Hm [Hc Hg]].
  destruct (fold_left _ _ ([], [], g)) as [[ms cs] g'].
  cbn [fst snd instanceMatrix instanceColor count particlesVisible] in *.
  repeat split; assumption.
Qed.

(** X7.  After a tick exactly one of the two meshes is shown, and the
    hidden one is left as it was: in Surface mode the instance buffers,
    the instance count and the rotation of the instanced mesh are
    untouched; in every other mode the vertex array of the surface, its
    rest positions, its material and its rotation are untouched. *)
Theorem tick_shows_one_mesh_and_freezes_the_other
    (config : VisualConfig) (audio : AudioData) (st : SceneState) :
  let st' := animate config audio st in
  (mode config = Surface ->
     surfaceVisible (surfaceMesh st') = true
     /\ particlesVisible (particles st') = false
     /\ instanceMatrix (particles st') = instanceMatrix (particles st)
     /\ instanceColor (particles st') = instanceColor (particles st)
     /\ count (particles st') = count (particles st)
     /\ meshRotationY (particles st') = meshRotationY (particles st)
     /\ meshRotationZ (particles st') = meshRotationZ (particles st))
  /\ (mode config <> Surface ->
        surfaceVisible (surfaceMesh st') = false
        /\ particlesVisible (particles st') = true
        /\ positionArray (surfaceMesh st') = positionArray (surfaceMesh st)
        /\ originalPositions (surfaceMesh st')
           = originalPositions (surfaceMesh st)
        /\ materialColor (surfaceMesh st') = materialColor (surfaceMesh st)
        /\ materialEmissive (surfaceMesh st')
           = materialEmissive (surfaceMesh st)
        /\ emissiveIntensity (surfaceMesh st')
           = emissiveIntensity (surfaceMesh st)
        /\ surfaceRotationY (surfaceMesh st')
           = surfaceRotationY (surfaceMesh st)).
Proof.
  intros st'. unfold st', animate.
  destruct (cameraTarget _ _ _ _ _ _) as [[angle target] g].
  split; intros Hmode.
  - rewrite Hmode. destruct (deformSurface _ _ _ _ _ _ _) as [pos orig].
    cbn. repeat split; reflexivity.
  - destruct (mode config) eqn:M; try contradiction;
      match goal with
      | |- context [updateParticles ?mesh ?t ?c ?a ?p ?s ?m ?mo ?h] =>
          pose proof (updateParticles_sizes mesh t c a p s m mo h)
            as [_ [_ [_ [V _]]]];
          destruct (updateParticles mesh t c a p s m mo h) as [mesh1 k1];
          cbn [fst particlesVisible] in V; cbn;
          repeat split; try reflexivity; exact V
      end.
Qed.


(** X9.  A tick takes one draw of [Math.random()] for the shake of the
    camera, and three more per instance only in Grid mode with a mood
    above 0.7; in every other case, Surface mode included, one draw is
    all it takes. *)
Theorem tick_takes_one_draw_outside_jitter
    (config : VisualConfig) (audio : AudioData) (st : SceneState) :
  let st' := animate config audio st in
  random st'
  = skipDraws (random st)
              (1 + jitterDraws config (uMood st') (count (particles st))).
Proof.
  intros st'.
  destruct (animate_refs config audio st) as [_ [_ [_ [_ [Em _]]]]].
  fold st' in Em. rewrite Em. unfold st', animate.
  set (sg := analysis audio (smoothedBass st) (moodValue st) (hueShift st)).
  assert (C : forall t mo a nb md g,
             snd (cameraTarget t mo a nb md g) = skipDraws g 1).
  { intros. unfold cameraTarget, Math_random, skipDraws. cbn.
    f_equal. lia. }
  match goal with
  | |- context [cameraTarget ?t ?mo ?a ?nb ?md ?g] =>
      pose proof (C t mo a nb md g) as Hc;
      destruct (cameraTarget t mo a nb md g) as [[angle target] g1]
  end.
  cbn [snd] in Hc. subst g1.
  destruct (mode config) eqn:M;
    try match goal with
    | |- context [updateParticles ?mesh ?t ?c ?a ?p ?s ?m ?mo ?h] =>
        pose proof (updateParticles_sizes mesh t c a p s m mo h)
          as [_ [_ [_ [_ D]]]];
        destruct (updateParticles mesh t c a p s m mo h) as [mesh1 k1];
        cbn [snd count] in D; cbn [random]; rewrite D;
        rewrite skipDraws_skipDraws; unfold jitterDraws; rewrite M;
        reflexivity
    end.
  destruct (deformSurface _ _ _ _ _ _ _) as [pos orig].
  cbn [random]. unfold jitterDraws. rewrite M. reflexivity.
Qed.

End TickEffects.


(** ** The pointer's push, the frequency sample and the smooth step *)

(** X10.  An instance nearer than 10 to the pointer in the plane, and not
    under it, is pushed straight away from the pointer: from the distance
    d it ends at the distance 5 + d/2, between 5 and 10, in the same
    direction; its z is kept and its scale grows by half. *)
Theorem pointer_push_clears_a_disc
    (mouse : Vector2) (p : Particle) (x y wx wy : R) :
  px p = Fin x -> py p = Fin y -> mouseWorld mouse = (Fin wx, Fin wy) ->
  let d := R_sqrt.sqrt ((x - wx) * (x - wx) + (y - wy) * (y - wy)) in
  0 < d < 10 ->
  exists x' y' : R,
    mouseRepulsion mouse p
    = mkParticle (Fin x') (Fin y') (pz p) (pscale p * Fin 1.5)%js
    /\ x' - wx = (x - wx) * ((5 + d / 2) / d)
    /\ y' - wy = (y - wy) * ((5 + d / 2) / d)
    /\ (x' - wx) * (x' - wx) + (y' - wy) * (y' - wy)
       = (5 + d / 2) * (5 + d / 2)
    /\ 5 < 5 + d / 2 < 10.
Proof.
  intros Hx Hy Hm d Hd. unfold mouseRepulsion.
  rewrite Hm, Hx, Hy. cbn [fst snd]. js_fin.
  set (q := (x - wx) * (x - wx) + (y - wy) * (y - wy)) in *.
  assert (Hq : 0 <= q).
  { pose proof (Rle_0_sqr (x - wx)) as Q1. pose proof (Rle_0_sqr (y - wy)) as Q2.
    unfold Rsqr in Q1, Q2. unfold q. lra. }
  rewrite sqrt_Fin by exact Hq. fold d.
  rewrite lt_Fin_true by lra. js_fin.
  assert (Hdd : d * d = q) by (apply sqrt_sqrt; exact Hq).
  exists (x + (x - wx) / d * ((1 - d / 10) * 5)),
         (y + (y - wy) / d * ((1 - d / 10) * 5)).
  split; [reflexivity |].
  assert (K : forall u : R,
             u + (u - 0) / d * ((1 - d / 10) * 5) = u * ((5 + d / 2) / d)).
  { intros u. field. lra. }
  assert (Ex : x + (x - wx) / d * ((1 - d / 10) * 5) - wx
               = (x - wx) * ((5 + d / 2) / d)).
  { rewrite <- (K (x - wx)). field. lra. }
  assert (Ey : y + (y - wy) / d * ((1 - d / 10) * 5) - wy
               = (y - wy) * ((5 + d / 2) / d)).
  { rewrite <- (K (y - wy)). field. lra. }
  split; [exact Ex |]. split; [exact Ey |]. split; [| lra].
  rewrite Ex, Ey.
  replace ((x - wx) * ((5 + d / 2) / d) * ((x - wx) * ((5 + d / 2) / d))
           + (y - wy) * ((5 + d / 2) / d) * ((y - wy) * ((5 + d / 2) / d)))
    with (q * (((5 + d / 2) / d) * ((5 + d / 2) / d)))
    by (unfold q; ring).
  rewrite <- Hdd. field. lra.
Qed.

Lemma pointer_push_clears_a_disc_witness :
  exists x' y' : R,
    mouseRepulsion (mkVector2 (Fin 0) (Fin 0))
                   (mkParticle (Fin 4) (Fin 0) (Fin 7) (Fin 1))
    = mkParticle (Fin x') (Fin y') (Fin 7) (Fin 1 * Fin 1.5)%js
    /\ x' - 0 * 20 = (4 - 0 * 20) * ((5 + 4 / 2) / 4).
Proof.
  assert (S : R_sqrt.sqrt ((4 - 0 * 20) * (4 - 0 * 20)
                           + (0 - 0 * 20) * (0 - 0 * 20)) = 4).
  { replace ((4 - 0 * 20) * (4 - 0 * 20) + (0 - 0 * 20) * (0 - 0 * 20))
      with (Rsqr 4) by (unfold Rsqr; ring).
    apply sqrt_Rsqr. lra. }
  destruct (pointer_push_clears_a_disc (mkVector2 (Fin 0) (Fin 0))
              (mkParticle (Fin 4) (Fin 0) (Fin 7) (Fin 1)) 4 0 (0 * 20)
              (0 * 20) eq_refl eq_refl eq_refl)
    as [x' [y' [E [Ex _]]]].
  - rewrite S. lra.
  - exists x', y'. split; [exact E |]. rewrite S in Ex. exact Ex.
Defined.

Lemma Zfloor_scaled_ratio (i c l : nat) :
  (0 < c)%nat ->
  Zfloor (IZR (Z.of_nat i) / IZR (Z.of_nat c) * IZR (Z.of_nat l))
  = Z.of_nat (i * l / c).
Proof.
  intros Hc.
  replace (IZR (Z.of_nat i) / IZR (Z.of_nat c) * IZR (Z.of_nat l))
    with (IZR (Z.of_nat i * Z.of_nat l) / IZR (Z.of_nat c)).
  - rewrite Zfloor_div by lia.
    rewrite Nat2Z.inj_div, Nat2Z.inj_mul. reflexivity.
  - rewrite mult_IZR. field. apply not_0_IZR. lia.
Qed.

(** The frequency sample of an instance: the byte at the index
    i * length / count, over 255; 0 on an empty spectrum. *)
Lemma normalizedFreqAt_value (data : list Z) (count i : nat) :
  (i < count)%nat ->
  normalizedFreqAt data count i
  = Fin (IZR (nth (i * List.length data / count) data 0%Z) / 255)
  /\ (data <> [] -> (i * List.length data / count < List.length data)%nat).
Proof.
  intros Hi. unfold normalizedFreqAt.
  rewrite div_ofNat by lia. unfold ofNat at 1. rewrite mul_Fin.
  unfold floor. rewrite Zfloor_scaled_ratio by lia.
  fold (ofNat (i * List.length data / count)).
  set (k := (i * List.length data / count)%nat).
  assert (Hk : data <> [] -> (k < List.length data)%nat).
  { intros Hne. unfold k. apply Nat.Div0.div_lt_upper_bound.
    assert (0 < List.length data)%nat
      by (destruct data; [contradiction | cbn; lia]).
    nia. }
  split; [| exact Hk].
  destruct data as [| v data'] eqn:Ed.
  - unfold Uint8_get, ofNat. rewrite isInteger_IZR, Zfloor_IZR.
    replace (0 <=? Z.of_nat k)%Z with true by (symmetry; apply Z.leb_le; lia).
    cbn [andb]. destruct (Z.to_nat (Z.of_nat k)); cbn [nth_error option_map orZero].
    + rewrite div_Fin_255. destruct k; reflexivity.
    + rewrite div_Fin_255. destruct k; reflexivity.
  - rewrite <- Ed in *. rewrite Uint8_get_ofNat by (apply Hk; rewrite Ed; discriminate).
    cbn [orZero]. unfold ofZ. apply div_Fin_255.
Qed.

Lemma normalizedFreqAt_unit (data : list Z) (count i : nat) :
  (i < count)%nat -> Forall isByte data ->
  exists r, normalizedFreqAt data count i = Fin r /\ 0 <= r <= 1.
Proof.
  intros Hi Hb. destruct (normalizedFreqAt_value data count i Hi) as [E Hk].
  eexists. split; [exact E |].
  set (k := (i * List.length data / count)%nat) in *.
  assert (Hv : (0 <= nth k data 0 <= 255)%Z).
  { destruct (Nat.lt_ge_cases k (List.length data)) as [Hlt | Hge].
    - rewrite Forall_forall in Hb. apply (Hb (nth k data 0%Z)).
      apply nth_In. exact Hlt.
    - rewrite nth_overflow by exact Hge. lia. }
  destruct Hv as [H0 H1]. apply IZR_le in H0, H1. lra.
Qed.



Lemma smoothstep_Fin (lo hi v : R) :
  lo < hi ->
  smoothstep (Fin lo) (Fin hi) (Fin v)
  = Fin (let x := Rmax 0 (Rmin 1 ((v - lo) / (hi - lo))) in
         x * x * (3 - 2 * x)).
Proof.
  intros H. unfold smoothstep. js_fin. reflexivity.
Qed.

Lemma cubic_step_monotone (x y : R) :
  0 <= x <= y -> y <= 1 -> x * x * (3 - 2 * x) <= y * y * (3 - 2 * y).
Proof.
  intros [Hx Hxy] Hy.
  assert (F : y * y * (3 - 2 * y) - x * x * (3 - 2 * x)
              = (y - x) * (3 * (x + y) - 2 * (x * x + x * y + y * y)))
    by ring.
  assert (0 <= 3 * (x + y) - 2 * (x * x + x * y + y * y)) by nra.
  assert (0 <= (y - x) * (3 * (x + y) - 2 * (x * x + x * y + y * y)))
    by (apply Rmult_le_pos; lra).
  lra.
Qed.

Lemma clamped_ratio_monotone (lo hi v w : R) :
  lo < hi -> v <= w ->
  0 <= Rmax 0 (Rmin 1 ((v - lo) / (hi - lo)))
       <= Rmax 0 (Rmin 1 ((w - lo) / (hi - lo)))
  /\ Rmax 0 (Rmin 1 ((w - lo) / (hi - lo))) <= 1.
Proof.
  intros H Hvw.
  assert (Hd : 0 < / (hi - lo)) by (apply Rinv_0_lt_compat; lra).
  assert (Hr : (v - lo) / (hi - lo) <= (w - lo) / (hi - lo))
    by (unfold Rdiv; apply Rmult_le_compat_r; lra).
  set (a := (v - lo) / (hi - lo)) in *. set (b := (w - lo) / (hi - lo)) in *.
  assert (HAB : Rmin 1 a <= Rmin 1 b).
  { apply Rmin_glb; [apply Rmin_l |].
    apply Rle_trans with a; [apply Rmin_r | exact Hr]. }
  split; [split |].
  - apply Rmax_l.
  - apply Rmax_lub; [apply Rmax_l |].
    apply Rle_trans with (Rmin 1 b); [exact HAB | apply Rmax_r].
  - apply Rmax_lub; [lra | apply Rmin_l].
Qed.

(** X12.  For finite edges lo < hi the smooth step of a finite value is a
    number in [0,1]: 0 up to lo, 1 from hi on, a half at the middle, and
    it never decreases as the value grows. *)
Theorem smoothstep_is_a_monotone_step (lo hi v w : R) :
  lo < hi -> v <= w ->
  exists r s : R,
    smoothstep (Fin lo) (Fin hi) (Fin v) = Fin r
    /\ smoothstep (Fin lo) (Fin hi) (Fin w) = Fin s
    /\ 0 <= r <= s /\ s <= 1
    /\ (v <= lo -> r = 0)
    /\ (hi <= w -> s = 1)
    /\ smoothstep (Fin lo) (Fin hi) (Fin ((lo + hi) / 2)) = Fin 0.5.
Proof.
  intros H Hvw. rewrite !smoothstep_Fin by exact H. cbv zeta.
  destruct (clamped_ratio_monotone lo hi v w H Hvw) as [[Ha Hab] Hb].
  set (a := Rmax 0 (Rmin 1 ((v - lo) / (hi - lo)))) in *.
  set (b := Rmax 0 (Rmin 1 ((w - lo) / (hi - lo)))) in *.
  exists (a * a * (3 - 2 * a)), (b * b * (3 - 2 * b)).
  split; [reflexivity |]. split; [reflexivity |].
  assert (Hd : 0 < / (hi - lo)) by (apply Rinv_0_lt_compat; lra).
  assert (Hb0 : 0 <= b) by lra.
  split; [split; [| apply cubic_step_monotone; lra] |].
  { apply Rmult_le_pos; [apply Rmult_le_pos; lra | lra]. }
  split.
  { pose proof (cubic_step_monotone b 1 ltac:(lra) ltac:(lra)). lra. }
  split; [| split].
  - intros Hv. assert (E : a = 0).
    { unfold a. assert ((v - lo) / (hi - lo) <= 0) by (unfold Rdiv; nra).
      rewrite Rmin_right by lra. apply Rmax_left. lra. }
    rewrite E. ring.
  - intros Hw. assert (E : b = 1).
    { unfold b.
      assert (1 <= (w - lo) / (hi - lo)).
      { apply Rmult_le_reg_r with (hi - lo); [lra |].
        unfold Rdiv. rewrite Rmult_assoc, Rinv_l by lra. lra. }
      rewrite Rmin_left by lra. apply Rmax_right. lra. }
    rewrite E. ring.
  - f_equal.
    replace (((lo + hi) / 2 - lo) / (hi - lo)) with (1 / 2) by (field; lra).
    rewrite Rmin_right by lra. rewrite Rmax_right by lra. lra.
Qed.

Lemma smoothstep_is_a_monotone_step_witness :
  exists r s : R,
    smoothstep (Fin 0.4) (Fin 0.6) (Fin 0.3) = Fin r
    /\ smoothstep (Fin 0.4) (Fin 0.6) (Fin 0.7) = Fin s
    /\ 0 <= r <= s /\ s <= 1.
Proof.
  destruct (smoothstep_is_a_monotone_step 0.4 0.6 0.3 0.7)
    as [r [s [E1 [E2 [B1 [B2 _]]]]]]; try lra.
  exists r, s. repeat split; try assumption; lra.
Defined.

(** ** Where the modes put the instances *)

(** X13.  In Chaos mode every instance lies on the cylinder around the z
    axis whose radius is 20 times the explosion factor
    1 + bass/50 * (0.5 + mood), no farther than that radius from the plane
    z = 0, and its position does not depend on the time; for a bass in
    [0,255] and a mood in [0,1] the factor lies between 1 and 8.65. *)
Theorem chaos_instances_lie_on_a_cylinder
    (time time' : num) (cfg : VisualConfig) (audio : AudioData) (b m : R)
    (count i : nat) (g : Rng) :
  mode cfg = Chaos -> bass audio = Fin b ->
  0 <= b <= 255 -> 0 <= m <= 1 ->
  let explosion := 1 + b / 50 * (0.5 + m) in
  exists x y z : R,
    modePoint time cfg audio (Fin m) count i g
    = mkVector3 (Fin x) (Fin y) (Fin z)
    /\ modePoint time' cfg audio (Fin m) count i g
       = mkVector3 (Fin x) (Fin y) (Fin z)
    /\ x * x + y * y = (20 * explosion) * (20 * explosion)
    /\ z * z <= (20 * explosion) * (20 * explosion)
    /\ 1 <= explosion <= 8.65.
Proof.
  intros Hmode Hb Bb Bm explosion.
  unfold modePoint, modePosition. rewrite Hmode, Hb. cbn [fst px py pz].
  unfold ofNat. rewrite (div_Fin b 50) by lra. js_fin. fold explosion.
  set (n := IZR (Z.of_nat i)).
  exists (Rtrigo_def.sin n * 20 * explosion),
         (Rtrigo_def.cos n * 20 * explosion),
         (Rtrigo_def.sin (n * 0.5) * 20 * explosion).
  split; [reflexivity |]. split; [reflexivity |].
  pose proof (sin2_cos2 n) as U. unfold Rsqr in U.
  pose proof (sin2_cos2 (n * 0.5)) as V. unfold Rsqr in V.
  assert (He : 1 <= explosion <= 8.65) by (unfold explosion; nra).
  split; [| split; [| exact He]].
  - replace (Rtrigo_def.sin n * 20 * explosion
             * (Rtrigo_def.sin n * 20 * explosion)
             + Rtrigo_def.cos n * 20 * explosion
               * (Rtrigo_def.cos n * 20 * explosion))
      with ((Rtrigo_def.sin n * Rtrigo_def.sin n
             + Rtrigo_def.cos n * Rtrigo_def.cos n)
            * (20 * explosion * (20 * explosion))) by ring.
    rewrite U. ring.
  - replace (Rtrigo_def.sin (n * 0.5) * 20 * explosion
             * (Rtrigo_def.sin (n * 0.5) * 20 * explosion))
      with (Rtrigo_def.sin (n * 0.5) * Rtrigo_def.sin (n * 0.5)
            * (20 * explosion * (20 * explosion))) by ring.
    assert (S1 : Rtrigo_def.sin (n * 0.5) * Rtrigo_def.sin (n * 0.5) <= 1).
    { pose proof (Rle_0_sqr (Rtrigo_def.cos (n * 0.5))) as C.
      unfold Rsqr in C. lra. }
    assert (0 <= 20 * explosion * (20 * explosion)) by nra.
    nra.
Qed.

Lemma chaos_instances_lie_on_a_cylinder_witness :
  exists x y z : R,
    modePoint (Fin 0) (withMode DEFAULT_PRESET Chaos)
              quiet (Fin 0) PARTICLE_COUNT 3 (constantRng 0)
    = mkVector3 (Fin x) (Fin y) (Fin z)
    /\ x * x + y * y
       = (20 * (1 + 0 / 50 * (0.5 + 0))) * (20 * (1 + 0 / 50 * (0.5 + 0))).
Proof.
  destruct (chaos_instances_lie_on_a_cylinder (Fin 0) (Fin 1)
              (withMode DEFAULT_PRESET Chaos)
              quiet 0 0 PARTICLE_COUNT 3 (constantRng 0))
    as [x [y [z [E [_ [C _]]]]]]; try reflexivity; try lra.
  exists x, y, z. split; assumption.
Defined.

(** X14.  In Orbit mode, on finite inputs with a bass and a mid in
    [0,255] and a mood in [0,1], every instance stays within the radius of
    its orbit in the plane, a radius between 5 and 30, and its z stays
    between -10 and 15. *)
Theorem orbit_instances_stay_in_range
    (T rs b md m : R) (cfg : VisualConfig) (audio : AudioData)
    (count i : nat) (g : Rng) :
  mode cfg = Orbit -> rotationSpeed cfg = Fin rs ->
  bass audio = Fin b -> mid audio = Fin md ->
  0 <= b <= 255 -> 0 <= md <= 255 -> 0 <= m <= 1 ->
  exists x y z radius : R,
    modePoint (Fin T) cfg audio (Fin m) count i g
    = mkVector3 (Fin x) (Fin y) (Fin z)
    /\ 5 <= radius <= 30
    /\ x * x + y * y <= radius * radius
    /\ -10 <= z <= 15.
Proof.
  intros Hmode Hrs Hb Hmd Bb Bmd Bm.
  unfold modePoint, modePosition. rewrite Hmode, Hrs, Hb, Hmd.
  cbn [fst px py pz]. unfold ofNat. js_fin.
  set (n := IZR (Z.of_nat i)).
  set (theta := n * 0.1 + T * (rs + m)).
  set (phi := n * 0.05 + T * 0.1).
  set (radius := 10 + b / 255 * (5 + m * 10)
                 + Rtrigo_def.sin (n * 12.34) * m * 5).
  exists (Rtrigo_def.sin theta * radius * Rtrigo_def.cos phi),
         (Rtrigo_def.cos theta * radius * Rtrigo_def.sin phi),
         (Rtrigo_def.sin (n * 0.1) * 10 + md / 255 * 5), radius.
  split; [reflexivity |].
  pose proof (SIN_bound (n * 12.34)) as S1.
  pose proof (SIN_bound (n * 0.1)) as S2.
  assert (Hrad : 5 <= radius <= 30).
  { unfold radius.
    assert (0 <= b / 255 <= 1) by (unfold Rdiv; lra).
    assert (0 <= b / 255 * (5 + m * 10) <= 15) by nra.
    assert (-5 <= Rtrigo_def.sin (n * 12.34) * m * 5 <= 5) by nra.
    lra. }
  split; [exact Hrad |]. split.
  - pose proof (sin2_cos2 theta) as U. unfold Rsqr in U.
    pose proof (sin2_cos2 phi) as V. unfold Rsqr in V.
    set (st := Rtrigo_def.sin theta) in *. set (ct := Rtrigo_def.cos theta) in *.
    set (sp := Rtrigo_def.sin phi) in *. set (cp := Rtrigo_def.cos phi) in *.
    assert (Hsq : st * st * (cp * cp) + ct * ct * (sp * sp) <= 1).
    { assert (0 <= st * st) by nra. assert (0 <= ct * ct) by nra.
      assert (0 <= sp * sp <= 1) by nra. assert (0 <= cp * cp <= 1) by nra.
      nra. }
    replace (st * radius * cp * (st * radius * cp)
             + ct * radius * sp * (ct * radius * sp))
      with ((st * st * (cp * cp) + ct * ct * (sp * sp)) * (radius * radius))
      by ring.
    assert (0 <= radius * radius) by nra. nra.
  - assert (0 <= md / 255 * 5 <= 5) by (unfold Rdiv; lra). lra.
Qed.

Lemma orbit_instances_stay_in_range_witness :
  exists x y z radius : R,
    modePoint (Fin 0) DEFAULT_PRESET quiet (Fin 0) PARTICLE_COUNT 7
              (constantRng 0)
    = mkVector3 (Fin x) (Fin y) (Fin z)
    /\ 5 <= radius <= 30
    /\ x * x + y * y <= radius * radius
    /\ -10 <= z <= 15.
Proof.
  apply (orbit_instances_stay_in_range 0 0.5 0 0 0 DEFAULT_PRESET quiet
           PARTICLE_COUNT 7 (constantRng 0));
    try reflexivity; lra.
Defined.

(** X15.  In Wave mode the instances stand on a lattice of 50 columns with
    a step of 1.5: instance i is in column i mod 50, at
    x = (i mod 50 - 25) * 1.5, and in row i / 50, at
    z = (i / 50 - 20) * 1.5.  On a spectrum of bytes, with a bass in
    [0,255] and a mood in [0,1], its height stays within 25 of the
    plane. *)
Theorem wave_instances_stand_on_a_lattice
    (T b m : R) (cfg : VisualConfig) (audio : AudioData)
    (count i : nat) (g : Rng) :
  mode cfg = Wave -> bass audio = Fin b -> 0 <= b <= 255 -> 0 <= m <= 1 ->
  Forall isByte (frequencyData audio) -> (i < count)%nat ->
  exists y : R,
    modePoint (Fin T) cfg audio (Fin m) count i g
    = mkVector3 (Fin ((IZR (Z.of_nat (i mod 50)) - 25) * 1.5)) (Fin y)
                (Fin ((IZR (Z.of_nat (i / 50)) - 20) * 1.5))
    /\ -25 <= y <= 25.
Proof.
  intros Hmode Hb Bb Bm Hbytes Hi.
  destruct (normalizedFreqAt_unit (frequencyData audio) count i Hi Hbytes)
    as [nf [Enf Bnf]].
  unfold modePoint, modePosition. rewrite Hmode, Hb, Enf.
  cbn [fst px py pz].
  change (Fin 50) with (ofNat 50).
  rewrite rem_ofNat, floor_div_ofNat by lia.
  unfold ofNat. js_fin.
  eexists. split; [reflexivity |].
  set (x := (IZR (Z.of_nat (i mod 50)) - 25) * 1.5).
  pose proof (SIN_bound (x * (0.2 + m * 0.5) + T * (2 + m * 2))) as S.
  set (s := Rtrigo_def.sin (x * (0.2 + m * 0.5) + T * (2 + m * 2))) in *.
  assert (Hh : 5 <= 5 + b / 255 * 10 * m <= 15).
  { assert (0 <= b / 255 <= 1) by (unfold Rdiv; lra). nra. }
  set (h := 5 + b / 255 * 10 * m) in *.
  assert (-15 <= s * h <= 15) by nra.
  lra.
Qed.

Lemma wave_instances_stand_on_a_lattice_witness :
  exists y : R,
    modePoint (Fin 0) (withMode DEFAULT_PRESET Wave)
              quiet (Fin 0) PARTICLE_COUNT 127 (constantRng 0)
    = mkVector3 (Fin ((IZR (Z.of_nat (127 mod 50)) - 25) * 1.5)) (Fin y)
                (Fin ((IZR (Z.of_nat (127 / 50)) - 20) * 1.5))
    /\ -25 <= y <= 25.
Proof.
  apply (wave_instances_stand_on_a_lattice 0 0 0
           (withMode DEFAULT_PRESET Wave)
           quiet PARTICLE_COUNT 127 (constantRng 0));
    try reflexivity; try lra.
  - apply Forall_forall. intros v Hin. apply repeat_spec in Hin. subst v.
    unfold isByte. lia.
  - unfold PARTICLE_COUNT. lia.
Defined.

(** The cube of the cube root. *)
Lemma cube_of_cube_root (c : R) :
  0 < c -> Rpower c (1 / 3) * Rpower c (1 / 3) * Rpower c (1 / 3) = c.
Proof.
  intros Hc. unfold Rpower. rewrite <- !exp_plus.
  replace (1 / 3 * ln c + 1 / 3 * ln c + 1 / 3 * ln c) with (ln c) by lra.
  apply exp_ln. exact Hc.
Qed.

(** The side of the grid: the least whole number whose cube holds every
    instance. *)
Lemma gridSize_value (count : nat) :
  (1 <= count)%nat ->
  exists gs : nat,
    ceil (pow (ofNat count) (Fin 1 / Fin 3)%js) = ofNat gs
    /\ (1 <= gs)%nat /\ (count <= gs * gs * gs)%nat.
Proof.
  intros Hc. rewrite div_Fin by lra. unfold pow, ofNat.
  rewrite (Rsgn_pos (1 / 3)) by lra.
  assert (Hcr : 0 < IZR (Z.of_nat count)) by (apply IZR_lt; lia).
  rewrite (Rsgn_pos _ Hcr).
  assert (F : Zfloor (1 / 3) = 0%Z) by (apply Zfloor_eq; lra).
  assert (I : isInteger (1 / 3) = false).
  { unfold isInteger. rewrite F. destruct (Req_dec_T 0 (1 / 3)); [lra |].
    reflexivity. }
  rewrite I. unfold ceil.
  set (r := Rpower (IZR (Z.of_nat count)) (1 / 3)).
  assert (Hr : 0 < r) by (unfold r, Rpower; apply exp_pos).
  pose proof (Zceil_bound r) as [_ Hz].
  set (z := Zceil r) in *.
  assert (Hz1 : (1 <= z)%Z).
  { assert (0 < IZR z) by lra. apply lt_IZR in H. lia. }
  exists (Z.to_nat z). rewrite Z2Nat.id by lia.
  split; [reflexivity |]. split; [lia |].
  pose proof (cube_of_cube_root _ Hcr) as Hcube. fold r in Hcube.
  assert (Hle : IZR (Z.of_nat count) <= IZR (z * z * z)).
  { rewrite !mult_IZR, <- Hcube.
    assert (0 <= r * r <= IZR z * IZR z) by nra.
    nra. }
  apply le_IZR in Hle. nia.
Qed.

(** The Grid branch without jitter: the cell of instance [i] in a grid of
    side [gs], times the spacing, less the offset. *)
Lemma grid_modePosition_general
    (time : num) (cfg : VisualConfig) (audio : AudioData) (g : Rng)
    (b m : R) (count : nat) :
  mode cfg = Grid -> bass audio = Fin b -> m <= 0.7 -> (1 <= count)%nat ->
  exists gs : nat,
    (1 <= gs)%nat /\ (count <= gs * gs * gs)%nat
    /\ forall i : nat,
         modePoint time cfg audio (Fin m) count i g
         = let spacing := 3 + b / 100 * m in
           let offset := IZR (Z.of_nat gs) * spacing / 2 in
           mkVector3
             (Fin (IZR (Z.of_nat (i mod gs)) * spacing - offset))
             (Fin (IZR (Z.of_nat ((i / gs) mod gs)) * spacing - offset))
             (Fin (IZR (Z.of_nat (i / (gs * gs))) * spacing - offset)).
Proof.
  intros Hmode Hb Hm Hc.
  destruct (gridSize_value count Hc) as [gs [Egs [H1 H3]]].
  exists gs. split; [exact H1 |]. split; [exact H3 |].
  intros i. unfold modePoint, modePosition. rewrite Hmode, Hb, Egs.
  assert (J : (Fin m >? Fin 0.7)%js = false) by (apply lt_Fin_false; lra).
  rewrite J. cbn [fst px py pz].
  rewrite ofNat_mul, rem_ofNat, floor_rem_div_ofNat, floor_div_ofNat
    by nia.
  unfold ofNat. rewrite (div_Fin b 100) by lra. js_fin. reflexivity.
Qed.

(** X16.  In Grid mode without jitter (a mood of at most 0.7), with a
    bass and a mood that are not negative, the side of the grid is a whole
    number whose cube holds all the instances, every instance has its own
    cell of the grid, inside the cube of that side, and so no two
    instances are put at the same place. *)
Theorem grid_instances_have_distinct_cells
    (time : num) (cfg : VisualConfig) (audio : AudioData) (g : Rng)
    (b m : R) (count : nat) :
  mode cfg = Grid -> bass audio = Fin b ->
  0 <= b -> 0 <= m <= 0.7 -> (1 <= count)%nat ->
  exists gs : nat,
    (count <= gs * gs * gs)%nat
    /\ (forall i : nat, (i < count)%nat ->
          (i mod gs < gs /\ (i / gs) mod gs < gs /\ i / (gs * gs) < gs)%nat)
    /\ (forall i j : nat,
          modePoint time cfg audio (Fin m) count i g
          = modePoint time cfg audio (Fin m) count j g ->
          i = j).
Proof.
  intros Hmode Hb Bb Bm Hc.
  destruct (grid_modePosition_general time cfg audio g b m count Hmode Hb
              ltac:(lra) Hc) as [gs [H1 [H3 Hp]]].
  exists gs. split; [exact H3 |]. split.
  - intros i Hi. repeat split.
    + apply Nat.mod_upper_bound. lia.
    + apply Nat.mod_upper_bound. lia.
    + apply Nat.Div0.div_lt_upper_bound. nia.
  - intros i j E. rewrite !Hp in E. cbv zeta in E.
    set (sp := 3 + b / 100 * m) in *.
    assert (Hsp : 0 < sp).
    { unfold sp. assert (0 <= b / 100) by (unfold Rdiv; lra). nra. }
    injection E as Ex Ey Ez.
    assert (K : forall u v : nat,
               IZR (Z.of_nat u) * sp - IZR (Z.of_nat gs) * sp / 2
               = IZR (Z.of_nat v) * sp - IZR (Z.of_nat gs) * sp / 2 ->
               u = v).
    { intros u v H.
      assert (IZR (Z.of_nat u) = IZR (Z.of_nat v)) by nra.
      apply eq_IZR in H0. lia. }
    apply K in Ex, Ey, Ez.
    pose proof (Nat.div_mod_eq i gs) as Di.
    pose proof (Nat.div_mod_eq j gs) as Dj.
    pose proof (Nat.div_mod_eq (i / gs) gs) as Di2.
    pose proof (Nat.div_mod_eq (j / gs) gs) as Dj2.
    rewrite <- !Nat.Div0.div_div in Ez.
    assert (i / gs = j / gs)%nat by (rewrite Di2, Dj2, Ey, Ez; reflexivity).
    rewrite Di, Dj, Ex, H. reflexivity.
Qed.

Lemma grid_instances_have_distinct_cells_witness :
  exists gs : nat,
    (PARTICLE_COUNT <= gs * gs * gs)%nat
    /\ (forall i j : nat,
          modePoint (Fin 0) gridPreset quiet (Fin 0) PARTICLE_COUNT i
                    (constantRng 0)
          = modePoint (Fin 0) gridPreset quiet (Fin 0) PARTICLE_COUNT j
                      (constantRng 0) ->
          i = j).
Proof.
  destruct (grid_instances_have_distinct_cells (Fin 0) gridPreset quiet
              (constantRng 0) 0 0 PARTICLE_COUNT)
    as [gs [H3 [_ Hd]]]; try reflexivity; try lra.
  - unfold PARTICLE_COUNT. lia.
  - exists gs. split; assumption.
Defined.

(* ------------------------------------------------------------------ *)
(** ** The controls of the application *)
(* ------------------------------------------------------------------ *)

(** X17. [cycleMode], called once in each render (so that the
    configuration it reads is the state it updates): a step to the right
    undoes a step to the left and the other way round, six steps in one
    direction come back to the start, the step right of the last mode is
    the first mode and the step left of the first is the last, and no
    field but [mode] changes.  Called twice in ONE render, the second call
    does nothing more than the first. *)
Theorem cycleMode_walks_a_ring_of_six :
  forall config : VisualConfig,
    let step d c := cycleMode d c c in
    step DirLeft (step DirRight config) = config /\
    step DirRight (step DirLeft config) = config /\
    (forall d, step d (step d (step d (step d (step d (step d config)))))
               = config) /\
    (forall d, mode (step d config) <> mode config) /\
    (mode config = Surface -> mode (step DirRight config) = Orbit) /\
    (mode config = Orbit -> mode (step DirLeft config) = Surface) /\
    (forall d, step d config = withMode config (mode (step d config))) /\
    (forall d prev,
       cycleMode d config (cycleMode d config prev) = cycleMode d config prev).
Proof.
  intros [m g c1 c2 c3 ps rs se bl de]; cbv zeta.
  repeat apply conj.
  - destruct m; reflexivity.
  - destruct m; reflexivity.
  - intros d; destruct d, m; reflexivity.
  - intros d; destruct d, m; discriminate.
  - cbn [mode]; intros ->; reflexivity.
  - cbn [mode]; intros ->; reflexivity.
  - intros d; destruct d, m; reflexivity.
  - intros d prev; destruct d, m; reflexivity.
Qed.

(** X18. [cycleGeometry], called once in each render: left and right are
    inverse to each other, six steps in one direction come back to the
    start, every step changes the geometry, the ends wrap ([Cone] to [Box]
    and back), and no field but [geometryType] changes; in particular the
    mode is kept.  Called twice in one render, the second call does nothing
    more than the first. *)
Theorem cycleGeometry_walks_a_ring_of_six :
  forall config : VisualConfig,
    let step d c := cycleGeometry d c c in
    step DirLeft (step DirRight config) = config /\
    step DirRight (step DirLeft config) = config /\
    (forall d, step d (step d (step d (step d (step d (step d config)))))
               = config) /\
    (forall d, geometryType (step d config) <> geometryType config) /\
    (geometryType config = Cone ->
       geometryType (step DirRight config) = Box) /\
    (geometryType config = Box ->
       geometryType (step DirLeft config) = Cone) /\
    (forall d,
       step d config
       = withGeometryType config (geometryType (step d config))) /\
    (forall d prev,
       cycleGeometry d config (cycleGeometry d config prev)
       = cycleGeometry d config prev).
Proof.
  intros [m g c1 c2 c3 ps rs se bl de]; cbv zeta.
  repeat apply conj.
  - destruct g; reflexivity.
  - destruct g; reflexivity.
  - intros d; destruct d, g; reflexivity.
  - intros d; destruct d, g; discriminate.
  - cbn [geometryType]; intros ->; reflexivity.
  - cbn [geometryType]; intros ->; reflexivity.
  - intros d; destruct d, g; reflexivity.
  - intros d prev; destruct d, g; reflexivity.
Qed.

(** X19. [togglePlayPause]: the source is never changed; without a source,
    and for a file whose audio element is missing, nothing changes at all;
    otherwise the playing flag flips, so that two presses restore it.  For
    a file the element ends paused exactly when the flag ends false,
    whatever it was before; for the microphone the element is left alone
    and a suspended context is resumed when, and only when, the press
    starts the playing.  No press suspends or closes a context. *)
Theorem togglePlayPause_flips_the_flag :
  forall p : Player,
    let p' := togglePlayPause p in
    sourceType p' = sourceType p /\
    isPlaying (togglePlayPause p') = isPlaying p /\
    (sourceType p = None \/
     (sourceType p = Some SourceFile /\ audioElemPaused p = None) ->
       p' = p) /\
    (sourceType p = Some SourceMic \/
     (sourceType p = Some SourceFile /\ audioElemPaused p <> None) ->
       isPlaying p' = negb (isPlaying p)) /\
    (sourceType p = Some SourceFile -> audioElemPaused p <> None ->
       audioElemPaused p' = Some (negb (isPlaying p'))) /\
    (sourceType p = Some SourceMic ->
       audioElemPaused p' = audioElemPaused p /\
       (audioContextState p' <> audioContextState p <->
          isPlaying p = false /\ audioContextState p = Some Suspended) /\
       (audioContextState p = Some Suspended -> isPlaying p = false ->
          audioContextState p' = Some Running)) /\
    (audioContextState p' <> audioContextState p ->
       audioContextState p' = Some Running).
Proof.
  intros [[[|]|] pl [e|] [[| |]|]]; destruct pl; cbv zeta;
    cbn; repeat split; try reflexivity; try tauto; try discriminate;
    try congruence; try (intros [? | [? ?]]; congruence);
    try (intros [? ?]; congruence); try (intros; exfalso; congruence).
Qed.

(** X20. [handleMouseMove]: a pointer inside a window of positive size is
    mapped affinely into the square [-1,1] x [-1,1]: the left edge to
    x = -1, the right edge to x = 1, the top edge to y = 1 and the bottom
    edge to y = -1 (the y axis is flipped).  The point that repels the
    instances, [mouseWorld], therefore stays within 20 units of the axes. *)
Theorem handleMouseMove_maps_window_to_square :
  forall cx cy W H : R,
    0 < W -> 0 < H -> 0 <= cx <= W -> 0 <= cy <= H ->
    let x := 2 * cx / W - 1 in
    let y := 1 - 2 * cy / H in
    handleMouseMove (Fin cx) (Fin cy) (Fin W) (Fin H)
    = mkVector2 (Fin x) (Fin y) /\
    -1 <= x <= 1 /\ -1 <= y <= 1 /\
    (cx = 0 -> x = -1) /\ (cx = W -> x = 1) /\
    (cy = 0 -> y = 1) /\ (cy = H -> y = -1) /\
    mouseWorld (handleMouseMove (Fin cx) (Fin cy) (Fin W) (Fin H))
    = (Fin (20 * x), Fin (20 * y)) /\
    -20 <= 20 * x <= 20 /\ -20 <= 20 * y <= 20.
Proof.
  intros cx cy W H HW HH Hx Hy x y.
  assert (E : handleMouseMove (Fin cx) (Fin cy) (Fin W) (Fin H)
              = mkVector2 (Fin x) (Fin y)).
  { unfold handleMouseMove.
    rewrite !div_Fin by lra. cbn [neg]. js_fin.
    subst x y. f_equal; f_equal; field; lra. }
  assert (Bx : 0 <= cx / W <= 1).
  { split.
    - apply Rmult_le_pos; [lra | left; apply Rinv_0_lt_compat; lra].
    - apply (Rmult_le_reg_r W); [lra |].
      unfold Rdiv. rewrite Rmult_assoc, Rinv_l by lra. lra. }
  assert (By : 0 <= cy / H <= 1).
  { split.
    - apply Rmult_le_pos; [lra | left; apply Rinv_0_lt_compat; lra].
    - apply (Rmult_le_reg_r H); [lra |].
      unfold Rdiv. rewrite Rmult_assoc, Rinv_l by lra. lra. }
  assert (Ex : x = 2 * (cx / W) - 1) by (subst x; field; lra).
  assert (Ey : y = 1 - 2 * (cy / H)) by (subst y; field; lra).
  split; [exact E |].
  split; [lra |]. split; [lra |].
  split. { intros ->. subst x. field; lra. }
  split. { intros ->. subst x. field; lra. }
  split. { intros ->. subst y. field; lra. }
  split. { intros ->. subst y. field; lra. }
  split.
  - rewrite E. unfold mouseWorld. cbn [v2x v2y]. js_fin.
    f_equal; f_equal; ring.
  - lra.
Qed.

Lemma handleMouseMove_maps_window_to_square_witness :
  handleMouseMove (Fin 200) (Fin 150) (Fin 800) (Fin 600)
  = mkVector2 (Fin (2 * 200 / 800 - 1)) (Fin (1 - 2 * 150 / 600)).
Proof.
  apply (handleMouseMove_maps_window_to_square 200 150 800 600); lra.
Defined.

(* ------------------------------------------------------------------ *)
(** ** The fragment shader of the background *)
(* ------------------------------------------------------------------ *)

Lemma fract_bounds (x : R) : 0 <= Fragment.fract x < 1.
Proof.
  unfold Fragment.fract, Fragment.floor.
  pose proof (Zfloor_bound x). lra.
Qed.

Lemma cubic_step_unit (t : R) : 0 <= t <= 1 -> 0 <= t * t * (3 - 2 * t) <= 1.
Proof.
  intros [H0 H1]. split.
  - apply Rmult_le_pos; [apply Rmult_le_pos; lra | lra].
  - assert (E : 1 - t * t * (3 - 2 * t) = (1 - t) * (1 - t) * (1 + 2 * t))
      by ring.
    assert (0 <= (1 - t) * (1 - t) * (1 + 2 * t)).
    { apply Rmult_le_pos; [apply Rmult_le_pos; lra | lra]. }
    lra.
Qed.

Lemma clamp_unit (x : R) : 0 <= Fragment.clamp x 0 1 <= 1.
Proof.
  unfold Fragment.clamp. split.
  - apply Rmin_glb; [apply Rmax_r | lra].
  - apply Rmin_r.
Qed.

Lemma shader_smoothstep_unit (e0 e1 x : R) :
  0 <= Fragment.smoothstep e0 e1 x <= 1.
Proof.
  unfold Fragment.smoothstep. cbv zeta.
  apply cubic_step_unit, clamp_unit.
Qed.

Lemma mix_unit (x y a : R) :
  0 <= x <= 1 -> 0 <= y <= 1 -> 0 <= a <= 1 ->
  0 <= Fragment.mix x y a <= 1.
Proof.
  intros Hx Hy Ha. unfold Fragment.mix. split.
  - apply Rplus_le_le_0_compat; apply Rmult_le_pos; lra.
  - assert (x * (1 - a) <= 1 * (1 - a))
      by (apply Rmult_le_compat_r; lra).
    assert (y * a <= 1 * a) by (apply Rmult_le_compat_r; lra).
    lra.
Qed.

Lemma random_bounds (st : Fragment.vec2) : 0 <= Fragment.random st < 1.
Proof. unfold Fragment.random. apply fract_bounds. Qed.

(** X21. The value noise of the shader: [random] returns a number of
    [0,1) and [noise], a smooth interpolation of four of them, a number of
    [0,1], at every point of the plane; at a point of integer coordinates
    [noise] is [random] of that point. *)
Theorem shader_noise_within_unit_interval :
  forall st : Fragment.vec2,
    0 <= Fragment.random st < 1 /\
    0 <= Fragment.noise st <= 1 /\
    (forall i j : Z,
       Fragment.noise (IZR i, IZR j) = Fragment.random (IZR i, IZR j)).
Proof.
  intros st. split; [apply random_bounds |]. split.
  - unfold Fragment.noise. cbv zeta. cbn [fst snd].
    set (a := Fragment.random _).
    set (b := Fragment.random _).
    set (c := Fragment.random _).
    set (d := Fragment.random _).
    assert (Ha : 0 <= a < 1) by apply random_bounds.
    assert (Hb : 0 <= b < 1) by apply random_bounds.
    assert (Hc : 0 <= c < 1) by apply random_bounds.
    assert (Hd : 0 <= d < 1) by apply random_bounds.
    pose proof (fract_bounds (fst st)) as Hf.
    pose proof (fract_bounds (snd st)) as Hg.
    replace 3.0 with 3 by lra. replace 2.0 with 2 by lra.
    replace 1.0 with 1 by lra.
    assert (Hx := cubic_step_unit (Fragment.fract (fst st))
                    (conj (proj1 Hf) (Rlt_le _ _ (proj2 Hf)))).
    assert (Hy := cubic_step_unit (Fragment.fract (snd st))
                    (conj (proj1 Hg) (Rlt_le _ _ (proj2 Hg)))).
    set (ux := _ * _ * (3 - 2 * Fragment.fract (fst st))) in *.
    set (uy := _ * _ * (3 - 2 * Fragment.fract (snd st))) in *.
    assert (L : 0 <= Fragment.mix a c uy <= 1) by (apply mix_unit; lra).
    assert (U : 0 <= Fragment.mix b d uy <= 1) by (apply mix_unit; lra).
    assert (T : 0 <= Fragment.mix (Fragment.mix a c uy)
                                  (Fragment.mix b d uy) ux <= 1)
      by (apply mix_unit; lra).
    unfold Fragment.mix in *. lra.
  - intros i j. unfold Fragment.noise. cbv zeta. cbn [fst snd].
    assert (Fi : Fragment.floor (IZR i) = IZR i).
    { unfold Fragment.floor. f_equal. apply Zfloor_eq. lra. }
    assert (Fj : Fragment.floor (IZR j) = IZR j).
    { unfold Fragment.floor. f_equal. apply Zfloor_eq. lra. }
    unfold Fragment.fract. rewrite Fi, Fj.
    unfold Fragment.mix. ring.
Qed.

Lemma vignette_bounds (vUv : Fragment.vec2) :
  unitSquare vUv -> 3 / 4 < Fragment.vignette vUv <= 1.2.
Proof.
  intros [[Hx0 Hx1] [Hy0 Hy1]].
  unfold Fragment.vignette, Fragment.distance. cbv zeta. cbn [fst snd].
  set (q := (fst vUv - 0.5) * (fst vUv - 0.5)
            + (snd vUv - 0.5) * (snd vUv - 0.5)).
  assert (Q0 : 0 <= q).
  { unfold q. apply Rplus_le_le_0_compat.
    - replace ((fst vUv - 0.5) * (fst vUv - 0.5))
        with (Rsqr (fst vUv - 0.5)) by reflexivity. apply Rle_0_sqr.
    - replace ((snd vUv - 0.5) * (snd vUv - 0.5))
        with (Rsqr (snd vUv - 0.5)) by reflexivity. apply Rle_0_sqr. }
  assert (Q1 : q <= 1 / 2).
  { unfold q.
    assert ((fst vUv - 0.5) * (fst vUv - 0.5) <= 1 / 4) by nra.
    assert ((snd vUv - 0.5) * (snd vUv - 0.5) <= 1 / 4) by nra.
    lra. }
  assert (S0 : 0 <= R_sqrt.sqrt q) by apply sqrt_pos.
  assert (S1 : R_sqrt.sqrt q < 3 / 4).
  { replace (3 / 4) with (R_sqrt.sqrt ((3 / 4) * (3 / 4)))
      by (apply sqrt_square; lra).
    apply sqrt_lt_1_alt. lra. }
  lra.
Qed.

Lemma mixFactor_unit (u : Fragment.Uniforms) (vUv : Fragment.vec2) :
  0 <= Fragment.mixFactor u vUv <= 1.
Proof.
  unfold Fragment.mixFactor. cbv zeta.
  replace 0.0 with 0 by lra. replace 1.0 with 1 by lra.
  apply clamp_unit.
Qed.

Lemma glow_unit (u : Fragment.Uniforms) (vUv : Fragment.vec2) :
  0 <= Fragment.glow u vUv <= 1.
Proof. unfold Fragment.glow. cbv zeta. apply shader_smoothstep_unit. Qed.

Lemma glow_weight_unit (u : Fragment.Uniforms) (vUv : Fragment.vec2) :
  0 <= Fragment.uEnergy u <= 1 ->
  0 <= Fragment.glow u vUv * (0.5 + Fragment.uEnergy u * 0.5) <= 1.
Proof.
  intros He. pose proof (glow_unit u vUv) as G. split.
  - apply Rmult_le_pos; lra.
  - assert (Fragment.glow u vUv * (0.5 + Fragment.uEnergy u * 0.5)
            <= 1 * (0.5 + Fragment.uEnergy u * 0.5))
      by (apply Rmult_le_compat_r; lra).
    lra.
Qed.

(** X22. The weights of the colour mix in [main].  Whatever the uniforms,
    [mixFactor] and [glow] are numbers of [0,1].  When the mood and the
    energy are in [0,1], the two edges of the glow are in the order that
    [smoothstep] needs, the weight given to the third colour is in [0,1],
    and on the unit square the darkening factor lies in (3/4, 1.2], 1.2
    being its value at the centre. *)
Theorem shader_weights_within_unit_interval :
  forall (u : Fragment.Uniforms) (vUv : Fragment.vec2),
    0 <= Fragment.uMood u <= 1 ->
    0 <= Fragment.uEnergy u <= 1 ->
    unitSquare vUv ->
    0 <= Fragment.mixFactor u vUv <= 1 /\
    0 <= Fragment.glow u vUv <= 1 /\
    Fragment.mix 0.4 0.6 (Fragment.uMood u)
    < Fragment.mix 0.4 0.6 (Fragment.uMood u)
      + Fragment.mix 0.4 0.1 (Fragment.uMood u) /\
    0 <= Fragment.glow u vUv * (0.5 + Fragment.uEnergy u * 0.5) <= 1 /\
    3 / 4 < Fragment.vignette vUv <= 1.2 /\
    Fragment.vignette (0.5, 0.5) = 1.2.
Proof.
  intros u vUv Hm He Hs.
  split; [apply mixFactor_unit |].
  split; [apply glow_unit |].
  split. { unfold Fragment.mix. lra. }
  split; [apply glow_weight_unit; exact He |].
  split; [apply vignette_bounds; exact Hs |].
  unfold Fragment.vignette, Fragment.distance. cbv zeta. cbn [fst snd].
  replace ((0.5 - 0.5) * (0.5 - 0.5) + (0.5 - 0.5) * (0.5 - 0.5)) with 0
    by lra.
  rewrite sqrt_0. lra.
Qed.

Lemma shader_weights_within_unit_interval_witness :
  0 <= Fragment.glow
         (Fragment.mkUniforms 0 0.5 0.5 (0, 0, 0) (1, 0, 0) (0, 0, 1))
         (0.5, 0.5)
       * (0.5 + 0.5 * 0.5) <= 1.
Proof.
  apply (shader_weights_within_unit_interval
           (Fragment.mkUniforms 0 0.5 0.5 (0, 0, 0) (1, 0, 0) (0, 0, 1))
           (0.5, 0.5));
    unfold unitSquare; cbn; lra.
Defined.

Lemma shader_pow_bounds (x y : R) :
  0 <= x <= 1.2 -> 0 <= y <= 2 -> 0 <= Fragment.pow x y <= 1.44.
Proof.
  intros Hx Hy. unfold Fragment.pow.
  destruct (Rlt_dec 0 x) as [P | P]; [| lra].
  split.
  - left. unfold Rpower. apply exp_pos.
  - destruct (Rle_dec x 1) as [L | L].
    + assert (Rpower x y <= 1); [| lra].
      unfold Rpower. rewrite <- exp_0.
      destruct (Req_dec (y * ln x) 0) as [E | E]; [rewrite E; lra |].
      left. apply exp_increasing.
      assert (ln x <= 0).
      { rewrite <- ln_1.
        destruct (Req_dec x 1) as [-> | N]; [lra |].
        left. apply ln_increasing; lra. }
      assert (y * ln x <= 0) by nra. lra.
    + apply Rle_trans with (Rpower x 2).
      * apply Rle_Rpower; lra.
      * replace 2 with (INR 2) by (simpl; lra).
        rewrite Rpower_pow by lra. simpl. nra.
Qed.

Lemma channel_bounds (u : Fragment.Uniforms) (vUv : Fragment.vec2)
    (c1 c2 c3 : R) :
  0 <= Fragment.uMood u <= 1 -> 0 <= Fragment.uEnergy u <= 1 ->
  unitSquare vUv ->
  0 <= c1 <= 1 -> 0 <= c2 <= 1 -> 0 <= c3 <= 1 ->
  0 <= Fragment.channel u vUv c1 c2 c3 <= 1.44 /\
  (Fragment.uMood u <= 0.5 ->
     Fragment.channel u vUv c1 c2 c3 <= 1.2 /\
     Fragment.channel u vUv c1 c2 c3
     = Fragment.vignette vUv
       * Fragment.mix (Fragment.mix c1 c2 (Fragment.mixFactor u vUv)) c3
           (Fragment.glow u vUv * (0.5 + Fragment.uEnergy u * 0.5))).
Proof.
  intros Hm He Hs H1 H2 H3.
  pose proof (mixFactor_unit u vUv) as M.
  pose proof (glow_weight_unit u vUv He) as W.
  pose proof (vignette_bounds vUv Hs) as V.
  assert (B : 0 <= Fragment.mix c1 c2 (Fragment.mixFactor u vUv) <= 1)
    by (apply mix_unit; assumption).
  assert (F : 0 <= Fragment.mix
                     (Fragment.mix c1 c2 (Fragment.mixFactor u vUv)) c3
                     (Fragment.glow u vUv
                      * (0.5 + Fragment.uEnergy u * 0.5)) <= 1)
    by (apply mix_unit; assumption).
  set (f := Fragment.mix _ c3 _) in *.
  assert (X : 0 <= f * Fragment.vignette vUv <= 1.2).
  { split.
    - apply Rmult_le_pos; lra.
    - assert (f * Fragment.vignette vUv <= 1 * Fragment.vignette vUv)
        by (apply Rmult_le_compat_r; lra).
      lra. }
  unfold Fragment.channel. cbv zeta. fold f.
  destruct (Rlt_dec 0.5 (Fragment.uMood u)) as [D | D].
  - split; [apply shader_pow_bounds; lra | intros; lra].
  - split; [lra |]. intros _. split; [lra | ring].
Qed.

(** X23. The colour written by [main].  With the mood and the energy in
    [0,1], the three colours with components in [0,1] and the fragment on
    the unit square, every component of the result is in [0, 1.44].  While
    the mood is at most 0.5 the result is the darkening factor times a
    mix of the three colours with weights in [0,1], hence in [0, 1.2]. *)
Theorem shader_colour_stays_in_range :
  forall (u : Fragment.Uniforms) (vUv : Fragment.vec2),
    0 <= Fragment.uMood u <= 1 ->
    0 <= Fragment.uEnergy u <= 1 ->
    unitColor (Fragment.uColor1 u) ->
    unitColor (Fragment.uColor2 u) ->
    unitColor (Fragment.uColor3 u) ->
    unitSquare vUv ->
    let '(r, g, b) := Fragment.main u vUv in
    (0 <= r <= 1.44 /\ 0 <= g <= 1.44 /\ 0 <= b <= 1.44) /\
    (Fragment.uMood u <= 0.5 -> r <= 1.2 /\ g <= 1.2 /\ b <= 1.2).
Proof.
  intros u vUv Hm He C1 C2 C3 Hs.
  unfold Fragment.main.
  destruct (Fragment.uColor1 u) as [[r1 g1] b1].
  destruct (Fragment.uColor2 u) as [[r2 g2] b2].
  destruct (Fragment.uColor3 u) as [[r3 g3] b3].
  destruct C1 as (R1 & G1 & B1), C2 as (R2 & G2 & B2),
           C3 as (R3 & G3 & B3).
  pose proof (channel_bounds u vUv r1 r2 r3 Hm He Hs R1 R2 R3) as [Ar Br].
  pose proof (channel_bounds u vUv g1 g2 g3 Hm He Hs G1 G2 G3) as [Ag Bg].
  pose proof (channel_bounds u vUv b1 b2 b3 Hm He Hs B1 B2 B3) as [Ab Bb].
  split; [tauto |].
  intros L. destruct (Br L), (Bg L), (Bb L). tauto.
Qed.

Lemma shader_colour_stays_in_range_witness :
  let '(r, g, b) :=
    Fragment.main
      (Fragment.mkUniforms 0 0.5 0.5 (0, 0, 0) (1, 0, 0) (0, 0, 1))
      (0.5, 0.5) in
  (0 <= r <= 1.44 /\ 0 <= g <= 1.44 /\ 0 <= b <= 1.44) /\
  (0.5 <= 0.5 -> r <= 1.2 /\ g <= 1.2 /\ b <= 1.2).
Proof.
  apply (shader_colour_stays_in_range
           (Fragment.mkUniforms 0 0.5 0.5 (0, 0, 0) (1, 0, 0) (0, 0, 1))
           (0.5, 0.5));
    unfold unitColor, unitSquare; cbn; lra.
Defined.

(* ------------------------------------------------------------------ *)
(** ** The size of an instance *)
(* ------------------------------------------------------------------ *)

Lemma modePosition_scale (time : num) (cfg : VisualConfig)
    (audio : AudioData) (mood : num) (count i : nat) (g : Rng) :
  mode cfg <> Ferrofluid ->
  pscale (fst (modePosition time cfg audio mood count i g))
  = (particleSize cfg
     * (Fin 0.5 + normalizedFreqAt (frequencyData audio) count i))%js.
Proof.
  intros Hm. unfold modePosition. cbv zeta.
  destruct (mode cfg) eqn:E; try reflexivity; try congruence.
  destruct (mood >? Fin 0.7)%js; [| reflexivity].
  destruct (Math_random g) as [r1 g1].
  destruct (Math_random g1) as [r2 g2].
  destruct (Math_random g2) as [r3 g3].
  reflexivity.
Qed.

(** X24. The size of an instance in every mode but Ferrofluid, for a
    spectrum of bytes and a particle size [s] that is not negative: it is
    [s * (0.5 + f) * k], where [f] in [0,1] is the frequency sample of the
    instance and [k] is 1, 1.5 or 2.25: one factor 1.5 for an instance
    within the pointer's radius, one more when the mood is above 0.6 and
    [f] above 0.5.  The size therefore lies between [s / 2] and
    [3.375 * s], and is at most [1.5 * s] for an instance whose sample is
    at most 0.5. *)
Theorem instance_size_follows_its_frequency :
  forall (time : num) (cfg : VisualConfig) (audio : AudioData) (mood : num)
         (mouse : Vector2) (count i : nat) (g : Rng) (s : R),
    mode cfg <> Ferrofluid ->
    (i < count)%nat ->
    Forall isByte (frequencyData audio) ->
    particleSize cfg = Fin s -> 0 <= s ->
    exists f k : R,
      normalizedFreqAt (frequencyData audio) count i = Fin f /\
      0 <= f <= 1 /\
      scale (particleTransform time cfg
               (particlePlacement mood mouse (Fin f)
                  (fst (modePosition time cfg audio mood count i g))))
      = Fin (s * (0.5 + f) * k) /\
      (k = 1 \/ k = 1.5 \/ k = 2.25) /\
      (f <= 0.5 -> k <= 1.5) /\
      (mood = NaN -> k <= 1.5) /\
      s / 2 <= s * (0.5 + f) * k <= 3.375 * s /\
      (f <= 0.5 -> s * (0.5 + f) * k <= 1.5 * s).
Proof.
  intros time cfg audio mood mouse count i g s Hm Hi Hb Hs Hs0.
  destruct (normalizedFreqAt_unit (frequencyData audio) count i Hi Hb)
    as (f & Ef & Hf).
  pose proof (modePosition_scale time cfg audio mood count i g Hm) as Ep.
  rewrite Hs, Ef in Ep. autorewrite with js in Ep.
  set (p := fst (modePosition time cfg audio mood count i g)) in *.
  assert (Eq : exists k1 : R,
            pscale (mouseRepulsion mouse p) = Fin (s * (0.5 + f) * k1)
            /\ (k1 = 1 \/ k1 = 1.5)).
  { unfold mouseRepulsion. cbv zeta.
    destruct (_ <? Fin 10)%js.
    - exists 1.5. cbn [pscale]. rewrite Ep. js_fin.
      split; [reflexivity | tauto].
    - exists 1. rewrite Ep. split; [f_equal; ring | tauto]. }
  destruct Eq as (k1 & Eq & Hk1).
  assert (P : 0 <= s * (0.5 + f)) by (apply Rmult_le_pos; lra).
  assert (L : s * 0.5 <= s * (0.5 + f)) by (apply Rmult_le_compat_l; lra).
  assert (U : s * (0.5 + f) <= s * 1.5) by (apply Rmult_le_compat_l; lra).
  assert (B : forall k, 1 <= k <= 2.25 ->
                s / 2 <= s * (0.5 + f) * k <= 3.375 * s).
  { intros k Hk.
    assert (s * (0.5 + f) * 1 <= s * (0.5 + f) * k)
      by (apply Rmult_le_compat_l; lra).
    assert (s * (0.5 + f) * k <= s * (0.5 + f) * 2.25)
      by (apply Rmult_le_compat_l; lra).
    lra. }
  assert (B' : forall k, f <= 0.5 -> 1 <= k <= 1.5 ->
                s * (0.5 + f) * k <= 1.5 * s).
  { intros k Hf5 Hk.
    assert (s * (0.5 + f) <= s * 1) by (apply Rmult_le_compat_l; lra).
    assert (s * (0.5 + f) * k <= s * (0.5 + f) * 1.5)
      by (apply Rmult_le_compat_l; lra).
    lra. }
  exists f. rewrite Ef.
  unfold particleTransform, particlePlacement. cbv zeta. cbn [scale pscale].
  fold p. rewrite Eq.
  destruct (mood >? Fin 0.6)%js eqn:Em.
  - unfold gt at 1. cbn [lt]. unfold Rltb.
    destruct (Rlt_dec 0.5 f) as [Hhi | Hlo]; cbn [andb].
    + exists (k1 * 1.5). js_fin.
      split; [reflexivity |]. split; [exact Hf |].
      split; [f_equal; ring |].
      split; [destruct Hk1 as [-> | ->]; lra |].
      split; [intros; lra |].
      split; [intros ->; discriminate Em |].
      split; [apply B; destruct Hk1 as [-> | ->]; lra | intros; lra].
    + exists k1.
      split; [reflexivity |]. split; [exact Hf |].
      split; [reflexivity |].
      split; [tauto |].
      split; [intros; destruct Hk1 as [-> | ->]; lra |].
      split; [intros; destruct Hk1 as [-> | ->]; lra |].
      split; [apply B; destruct Hk1 as [-> | ->]; lra |].
      intros H5. apply B'; [exact H5 | destruct Hk1 as [-> | ->]; lra].
  - cbn [andb]. exists k1.
    split; [reflexivity |]. split; [exact Hf |].
    split; [reflexivity |].
    split; [tauto |].
    split; [intros; destruct Hk1 as [-> | ->]; lra |].
    split; [intros; destruct Hk1 as [-> | ->]; lra |].
    split; [apply B; destruct Hk1 as [-> | ->]; lra |].
    intros H5. apply B'; [exact H5 | destruct Hk1 as [-> | ->]; lra].
Qed.

Lemma instance_size_follows_its_frequency_witness :
  exists f k : R,
    normalizedFreqAt (frequencyData (silence 16)) 8 3 = Fin f /\
    0 <= f <= 1 /\
    scale (particleTransform (Fin 0) gridPreset
             (particlePlacement (Fin 0) (mkVector2 (Fin 0) (Fin 0)) (Fin f)
                (fst (modePosition (Fin 0) gridPreset (silence 16) (Fin 0)
                        8 3 (constantRng 0)))))
    = Fin (0.5 * (0.5 + f) * k) /\
    (k = 1 \/ k = 1.5 \/ k = 2.25) /\
    (f <= 0.5 -> k <= 1.5) /\
    (Fin 0 = NaN -> k <= 1.5) /\
    0.5 / 2 <= 0.5 * (0.5 + f) * k <= 3.375 * 0.5 /\
    (f <= 0.5 -> 0.5 * (0.5 + f) * k <= 1.5 * 0.5).
Proof.
  apply (instance_size_follows_its_frequency
           (Fin 0) gridPreset (silence 16) (Fin 0)
           (mkVector2 (Fin 0) (Fin 0)) 8 3 (constantRng 0) 0.5).
  - discriminate.
  - lia.
  - repeat constructor; unfold isByte; lia.
  - reflexivity.
  - lra.
Defined.

(* ------------------------------------------------------------------ *)
(** ** The glow of the post-processing *)
(* ------------------------------------------------------------------ *)

Section Glow.

Context {TC : ThreeColor}.

Lemma animate_bloom (config : VisualConfig) (audio : AudioData)
    (st : SceneState) :
  let st' := animate config audio st in
  bloomStrength st'
  = (bloomIntensity config * Fin 0.5
     + (uEnergy st' * (Fin 1 + uMood st')))%js
  /\ (mode config = Surface ->
      emissiveIntensity (surfaceMesh st') = (uEnergy st' * Fin 0.5)%js)
  /\ (mode config <> Surface ->
      emissiveIntensity (surfaceMesh st')
      = emissiveIntensity (surfaceMesh st)).
Proof.
  intros st'. unfold st', animate.
  destruct (cameraTarget _ _ _ _ _ _) as [[angle target] g].
  destruct (mode config) eqn:E;
    try destruct (updateParticles _ _ _ _ _ _ _ _ _) as [mesh' g1];
    try destruct (deformSurface _ _ _ _ _ _ _) as [positions original];
    cbn; repeat split; intros; try reflexivity; congruence.
Qed.

(** X25. The strength of the bloom pass after a tick, from sane refs and
    band energies that are finite and not negative: it is half the
    [bloomIntensity] of the preset plus [e * (1 + m)], [e] and [m] being
    the normalised bass and the mood of the tick, so it lies between half
    the preset's value and that plus 2.  In Surface mode the emissive
    intensity of the surface is [e / 2], within [0, 0.5]; in the other
    modes it is not touched. *)
Theorem bloom_strength_stays_in_range :
  forall (config : VisualConfig) (audio : AudioData) (st : SceneState)
         (bl : R),
    signalsSane (signalsOf st) ->
    bandsNonNegative audio ->
    bloomIntensity config = Fin bl ->
    let st' := animate config audio st in
    exists e m : R,
      uEnergy st' = Fin e /\ uMood st' = Fin m /\
      bloomStrength st' = Fin (bl * 0.5 + e * (1 + m)) /\
      bl * 0.5 <= bl * 0.5 + e * (1 + m) <= bl * 0.5 + 2 /\
      (mode config = Surface ->
         emissiveIntensity (surfaceMesh st') = Fin (e * 0.5)
         /\ 0 <= e * 0.5 <= 0.5) /\
      (mode config <> Surface ->
         emissiveIntensity (surfaceMesh st')
         = emissiveIntensity (surfaceMesh st)).
Proof.
  intros config audio st bl Hs Ha Hb st'.
  destruct (advance_within_unit _ audio Hs Ha) as [(m & Em & Hm) (e & Ee & He)].
  rewrite <- (animate_signals config) in Em, Ee.
  cbn [signalsOf mood normalizedBass] in Em, Ee. fold st' in Em, Ee.
  destruct (animate_bloom config audio st) as (B & S & N).
  fold st' in B, S, N.
  exists e, m.
  split; [exact Ee |]. split; [exact Em |].
  split. { rewrite B, Hb, Ee, Em. js_fin. reflexivity. }
  split.
  { assert (0 <= e * (1 + m)) by (apply Rmult_le_pos; lra).
    assert (e * (1 + m) <= 1 * (1 + m)) by (apply Rmult_le_compat_r; lra).
    lra. }
  split.
  - intros Hmode. split; [| lra].
    rewrite (S Hmode), Ee. js_fin. reflexivity.
  - exact N.
Qed.

End Glow.

Lemma bloom_strength_stays_in_range_witness :
  let st := @initialScene OneColor DEFAULT_PRESET [] (constantRng 0) in
  let st' := @animate OneColor DEFAULT_PRESET quiet st in
  exists e m : R,
    uEnergy st' = Fin e /\ uMood st' = Fin m /\
    bloomStrength st' = Fin (1.0 * 0.5 + e * (1 + m)).
Proof.
  intros st st'.
  destruct (@bloom_strength_stays_in_range OneColor DEFAULT_PRESET quiet st
              1.0)
    as (e & m & H1 & H2 & H3 & _).
  - split; [exists 0; split; [reflexivity | lra] | exists 0; reflexivity].
  - repeat split; exists 0; (split; [reflexivity | lra]).
  - reflexivity.
  - exists e, m. repeat split; assumption.
Defined.

(* ------------------------------------------------------------------ *)
(** ** The properties above on concrete inputs *)
(* ------------------------------------------------------------------ *)

Lemma tick_shows_one_mesh_and_freezes_the_other_witness :
  let st := @initialScene OneColor surfacePreset [] (constantRng 0) in
  let st' := @animate OneColor surfacePreset quiet st in
  surfaceVisible (surfaceMesh st') = true
  /\ particlesVisible (particles st') = false.
Proof.
  intros st st'.
  destruct (@tick_shows_one_mesh_and_freezes_the_other OneColor
              surfacePreset quiet st) as [S _].
  destruct (S eq_refl) as (V & P & _).
  split; assumption.
Defined.

Lemma cycleMode_walks_a_ring_of_six_witness :
  mode (cycleMode DirRight (withMode DEFAULT_PRESET Surface)
                  (withMode DEFAULT_PRESET Surface)) = Orbit.
Proof.
  destruct (cycleMode_walks_a_ring_of_six (withMode DEFAULT_PRESET Surface))
    as (_ & _ & _ & _ & W & _).
  apply W. reflexivity.
Defined.

Lemma cycleGeometry_walks_a_ring_of_six_witness :
  geometryType (cycleGeometry DirLeft DEFAULT_PRESET DEFAULT_PRESET) = Cone.
Proof.
  destruct (cycleGeometry_walks_a_ring_of_six DEFAULT_PRESET)
    as (_ & _ & _ & _ & _ & W & _).
  apply W. reflexivity.
Defined.

Lemma togglePlayPause_flips_the_flag_witness :
  let p := mkPlayer (Some SourceMic) false None (Some Suspended) in
  audioContextState (togglePlayPause p) = Some Running.
Proof.
  intros p.
  destruct (togglePlayPause_flips_the_flag p)
    as (_ & _ & _ & _ & _ & W & _).
  destruct (W eq_refl) as (_ & _ & R).
  apply R; reflexivity.
Defined.
